(** * Conversion engine: formats, catalog merge, detection, executor

    A shallow embedding of [lib/conversion/engine.ts] (the engine module that
    imports [FormatHandler], [TraversionGraph] and [normalizeMimeType]) and
    the properties its specification states about it.

    JavaScript values are modelled as follows.
    - strings are [string], the bytes of their UTF-8 encoding; [===] on
      strings is [String.eqb], and splitting at a dot or a colon is the same
      on bytes as on characters; [String.prototype.toLowerCase], which
      follows the case mapping of Unicode, is a parameter;
    - arrays are lists, [Array.prototype.find] is [List.find] and
      [Array.prototype.some] is [List.existsb];
    - [Map<string, V>] is an association list kept in insertion order
      ([Map] iterates in insertion order and [set] on a present key replaces
      the value in place), see [OMap];
    - [Set<string>] is a [gset string];
    - a value that may be [undefined] or [null] is an [option];
    - code outside this module (handler plug-ins, the graph search) is taken
      as a parameter of the section that uses it.

    The model leaves out what the module takes from its environment as
    given: [file.arrayBuffer()] resolves, the progress sink and the path
    iterator do not throw, and the dynamic import of the handler list and
    [graph.init] succeed.  Asynchronous functions are run to their result;
    the interleaving of tasks matters for [getEngine] only and is modelled
    there. *)

From Stdlib Require Import Ascii String Strings.Byte List Bool Arith Lia Permutation.
From stdpp Require Import base strings gmap list.

Open Scope string_scope.
Open Scope list_scope.

(** ** Data model (declared in FormatHandler.ts, used by engine.ts) *)

Module FileFormat.
Record t : Type := mk {
  name : string;        (* long name shown to the user *)
  format : string;      (* display name, e.g. "PNG" *)
  extension : string;
  mime : string;
  from : bool;
  to : bool;
  internal : string;    (* internal id *)
  category : list string;
  lossless : bool       (* an absent flag is falsy and is read as [false] *)
}.
End FileFormat.
Abbreviation FileFormat := FileFormat.t.

(** The browser [File]: only the members the engine reads. *)
Module File.
Record t : Type := mk {
  name : string;
  type : string;
  content : list byte   (* what [arrayBuffer()] resolves to *)
}.
End File.
Abbreviation File := File.t.

Module FileData.
Record t : Type := mk {
  name : string;
  bytes : list byte
}.
End FileData.
Abbreviation FileData := FileData.t.

(** A handler object.  [supportedFormats] is absent until the handler is
    initialised.  The [ready] member and the [init] and [doConvert] methods
    belong to the plug-in and are reached through the section parameters
    below. *)
Module FormatHandler.
Record t : Type := mk {
  name : string;
  supportedFormats : option (list FileFormat)
}.
End FormatHandler.
Abbreviation FormatHandler := FormatHandler.t.

(** [new ConvertPathNode(handler, format)].  The handler is [None] when the
    constructor received [undefined], which is what [engine.handlers[0]] is
    for an empty registry. *)
Module ConvertPathNode.
Record t : Type := mk {
  handler : option FormatHandler;
  format : FileFormat
}.
End ConvertPathNode.
Abbreviation ConvertPathNode := ConvertPathNode.t.

Definition Path : Type := list ConvertPathNode.

(** ** Insertion-ordered maps: the JavaScript [Map<string, V>] *)

Module OMap.
Section Ops.
Context {V : Type}.

Definition t : Type := list (string * V).

Definition empty : t := [].

Fixpoint get (k : string) (m : t) : option V :=
  match m with
  | [] => None
  | (k', v) :: m' => if String.eqb k' k then Some v else get k m'
  end.

Definition has (k : string) (m : t) : bool :=
  match get k m with Some _ => true | None => false end.

(** [set] replaces the value of a present key where it stands and appends a
    new key at the end. *)
Fixpoint set (k : string) (v : V) (m : t) : t :=
  match m with
  | [] => [(k, v)]
  | (k', v') :: m' =>
      if String.eqb k' k then (k', v) :: m' else (k', v') :: set k v m'
  end.

Definition keys (m : t) : list string := List.map fst m.
Definition values (m : t) : list V := List.map snd m.

(** [new Map(entries)] *)
Definition of_entries (es : list (string * V)) : t :=
  List.fold_left (fun m e => set (fst e) (snd e) m) es empty.

End Ops.
Arguments t : clear implicits.
End OMap.

(** ** Strings *)

(** [s.split(sep)] for a one-character separator: never the empty array. *)
Fixpoint split (sep : ascii) (s : string) : list string :=
  match s with
  | EmptyString => [EmptyString]
  | String c s' =>
      if Ascii.eqb c sep then EmptyString :: split sep s'
      else match split sep s' with
           | seg :: rest => String c seg :: rest
           | [] => [String c EmptyString]
           end
  end.

(** JavaScript truthiness of a string. *)
Definition truthy (s : string) : bool := negb (String.eqb s EmptyString).

(** ** detectInputFormat *)

Section Detection.

(** [String.prototype.toLowerCase] is the engine's own, with the case
    mapping of Unicode: it is taken as it is, not modelled. *)
Variable toLowerCase : string -> string.

(** [normalizeMimeType] is imported from a module of its own. *)
Variable normalizeMimeType : string -> string.

(** The extension of [file.name]: what follows its last dot, in lower
    case; [undefined] and the empty string both give the empty string. *)
Definition fileExtension (file : File) : string :=
  match last (split "." (File.name file)) with
  | Some e => toLowerCase e
  | None => EmptyString
  end.

Definition byExtensionAndMime (extension mime : string) (f : FileFormat) : bool :=
  FileFormat.from f
  && String.eqb (toLowerCase (FileFormat.extension f)) extension
  && (String.eqb (FileFormat.mime f) mime || negb (truthy mime)).

Definition byExtension (extension : string) (f : FileFormat) : bool :=
  FileFormat.from f
  && String.eqb (toLowerCase (FileFormat.extension f)) extension.

Definition byMime (mime : string) (f : FileFormat) : bool :=
  FileFormat.from f && String.eqb (FileFormat.mime f) mime.

Definition detectInputFormat (file : File) (allFormats : list FileFormat)
  : option FileFormat :=
  let extension := fileExtension file in
  let mime := normalizeMimeType (File.type file) in
  (* Strategy 1: Match by extension + MIME *)
  let match1 := List.find (byExtensionAndMime extension mime) allFormats in
  (* Strategy 2: Match by extension only *)
  let match2 :=
    match match1 with
    | Some f => Some f
    | None => List.find (byExtension extension) allFormats
    end in
  (* Strategy 3: Match by MIME type *)
  match match2 with
  | Some f => Some f
  | None => if truthy mime then List.find (byMime mime) allFormats else None
  end.

End Detection.

(** ** findHandlerForFormat *)

Definition sameFormat (format f : FileFormat) : bool :=
  String.eqb (FileFormat.internal f) (FileFormat.internal format)
  && String.eqb (FileFormat.format f) (FileFormat.format format).

(** [h.supportedFormats?.some(...)]: an absent list gives [undefined], which
    [find] treats as false. *)
Definition supports (format : FileFormat) (h : FormatHandler) : bool :=
  match FormatHandler.supportedFormats h with
  | Some fs => List.existsb (sameFormat format) fs
  | None => false
  end.

Definition findHandlerForFormat (format : FileFormat) (handlers : list FormatHandler)
  : option FormatHandler :=
  List.find (supports format) handlers.

(** ** Catalog merge (the deduplication loop of initializeEngine) *)

Definition formatKey (f : FileFormat) : string :=
  FileFormat.format f +:+ "::" +:+ FileFormat.internal f.

(** The three assignments made to [existing]. *)
Definition mergeFlags (existing f : FileFormat) : FileFormat :=
  FileFormat.mk
    (FileFormat.name existing) (FileFormat.format existing)
    (FileFormat.extension existing) (FileFormat.mime existing)
    (FileFormat.from existing || FileFormat.from f)
    (FileFormat.to existing || FileFormat.to f)
    (FileFormat.internal existing) (FileFormat.category existing)
    (if FileFormat.lossless f then true else FileFormat.lossless existing).

Definition mergeStep (formatMap : OMap.t FileFormat) (f : FileFormat)
  : OMap.t FileFormat :=
  let key := formatKey f in
  match OMap.get key formatMap with
  | Some existing => OMap.set key (mergeFlags existing f) formatMap
  | None => OMap.set key f formatMap
  end.

Definition mergeFormats (rawFormats : list FileFormat) : list FileFormat :=
  OMap.values (List.fold_left mergeStep rawFormats OMap.empty).

(** ** The conversion graph *)

(** Modelled from the spec: [TraversionGraph] (TraversionGraph.ts is not
    among the sources).  The graph is built by [init] from the capability
    cache and the handler list; its dead-end memory is emptied by
    [clearDeadEndPaths] and extended by [addDeadEndPath].  The vertices and
    edges walked by [searchPath] live in the search iterator, which the
    executor takes as a parameter. *)
Module TraversionGraph.
Record t : Type := mk {
  formats : OMap.t (list FileFormat);
  handlers : list FormatHandler;
  deadEndPaths : list Path
}.
Definition init (supportedFormatCache : OMap.t (list FileFormat))
  (handlers : list FormatHandler) : t :=
  mk supportedFormatCache handlers [].
Definition clearDeadEndPaths (g : t) : t :=
  mk (formats g) (handlers g) [].
Definition addDeadEndPath (path : Path) (g : t) : t :=
  mk (formats g) (handlers g) (deadEndPaths g ++ [path]).
End TraversionGraph.
Abbreviation TraversionGraph := TraversionGraph.t.

Module ConversionEngine.
Record t : Type := mk {
  handlers : list FormatHandler;
  graph : TraversionGraph;
  allFormats : list FileFormat;
  supportedFormatCache : OMap.t (list FileFormat);
  ready : bool
}.
End ConversionEngine.
Abbreviation ConversionEngine := ConversionEngine.t.

Module ConversionResult.
Record t : Type := mk {
  files : list FileData;
  path : Path
}.
End ConversionResult.
Abbreviation ConversionResult := ConversionResult.t.

(** ** Observable effects

    What the engine tells the outside: the progress sink, the console, and
    the calls of [init] it makes on handlers.  The percentage passed to the
    progress sink is a floating-point number and is left out. *)
Inductive Event : Type :=
| Reading                                 (* onProgress(10, "Reading input files...") *)
| Finding                                 (* onProgress(20, "Finding conversion path...") *)
| Trying (path : Path)                    (* onProgress(30, `Trying: ...`) *)
| Converting (source target : FileFormat) (* onProgress(.., `Converting: ...`) *)
| Complete                                (* onProgress(95, "Conversion complete!") *)
| PathFailed (pathKey : string)           (* console.warn("Path failed:", pathKey, err) *)
| InitCalled (handlerName : string).      (* handler.init() *)

(** ** initializeEngine *)

Section Bootstrap.

Variable World : Type.

(** [handler.init()]: the outside world after the call, the handler's
    [supportedFormats] after the call, and whether the promise resolved
    ([true]) or rejected. *)
Variable handlerInit :
  FormatHandler -> World -> World * (option (list FileFormat) * bool).

Record BootState : Type := mkBoot {
  bootWorld : World;
  bootCache : OMap.t (list FileFormat);
  bootRaw : list FileFormat;
  bootLog : list Event
}.

(** The [try] block that loads cache.json.  [cacheJSON] is [None] when the
    fetch fails, the response is not ok, or the body does not parse. *)
Definition loadCache (cacheJSON : option (list (string * list FileFormat)))
  : OMap.t (list FileFormat) * list FileFormat :=
  match cacheJSON with
  | None => (OMap.empty, [])
  | Some entries =>
      let cacheMap := OMap.of_entries entries in
      List.fold_left
        (fun acc e => (OMap.set (fst e) (snd e) (fst acc), snd acc ++ snd e))
        cacheMap (OMap.empty, [])
  end.

(** One iteration of the loop over [handlers]. *)
Definition initHandler (st : BootState) (handler : FormatHandler)
  : BootState * FormatHandler :=
  match OMap.get (FormatHandler.name handler) (bootCache st) with
  | Some cached =>
      (* Assign cached formats to handler *)
      (st, FormatHandler.mk (FormatHandler.name handler) (Some cached))
  | None =>
      let '(w, (supported, ok)) := handlerInit handler (bootWorld st) in
      let h := FormatHandler.mk (FormatHandler.name handler) supported in
      let log := bootLog st ++ [InitCalled (FormatHandler.name handler)] in
      match ok, supported with
      | true, Some fs =>
          (mkBoot w (OMap.set (FormatHandler.name h) fs (bootCache st))
                  (bootRaw st ++ fs) log, h)
      | _, _ => (mkBoot w (bootCache st) (bootRaw st) log, h)
      end
  end.

Fixpoint initHandlers (st : BootState) (handlers : list FormatHandler)
  : BootState * list FormatHandler :=
  match handlers with
  | [] => (st, [])
  | handler :: rest =>
      let '(st1, h) := initHandler st handler in
      let '(st2, hs) := initHandlers st1 rest in
      (st2, h :: hs)
  end.

Definition initializeEngine (registry : list FormatHandler)
  (cacheJSON : option (list (string * list FileFormat))) (w : World)
  : World * list Event * ConversionEngine :=
  let '(supportedFormatCache, rawFormats) := loadCache cacheJSON in
  let '(st, handlers) :=
    initHandlers (mkBoot w supportedFormatCache rawFormats []) registry in
  let allFormats := mergeFormats (bootRaw st) in
  let graph := TraversionGraph.init (bootCache st) handlers in
  (bootWorld st, bootLog st,
   ConversionEngine.mk handlers graph allFormats (bootCache st) true).

End Bootstrap.

Arguments mkBoot {World}.
Arguments bootWorld {World}.
Arguments bootCache {World}.
Arguments bootRaw {World}.
Arguments bootLog {World}.
Arguments initHandler {World}.
Arguments initHandlers {World}.
Arguments initializeEngine {World}.

(** ** convertFiles *)

Inductive Error : Type :=
| ErrorMessage (message : string)   (* new Error(message) *)
| TypeError.                        (* a member read on [undefined] *)

(** How a call of the async function stands: resolved, rejected, or still
    waiting for the path iterator when the model's fuel has run out. *)
Inductive Outcome : Type :=
| Resolved (result : ConversionResult)
| Rejected (error : Error)
| Pending.

(** `${n.handler.name}:${n.format.internal}` *)
Definition nodeKey (n : ConvertPathNode) : option string :=
  match ConvertPathNode.handler n with
  | Some h =>
      Some (FormatHandler.name h +:+ ":"
            +:+ FileFormat.internal (ConvertPathNode.format n))
  | None => None
  end.

(** [path.map(...).join("->")]; [None] is the TypeError of a node without
    handler. *)
Definition pathKey (path : Path) : option string :=
  match mapM nodeKey path with
  | Some parts => Some (String.concat "->" parts)
  | None => None
  end.

(** The signature of a path: its handler names and format internal ids, in
    order. *)
Definition nodeSignature (n : ConvertPathNode) : option (string * string) :=
  match ConvertPathNode.handler n with
  | Some h =>
      Some (FormatHandler.name h, FileFormat.internal (ConvertPathNode.format n))
  | None => None
  end.

Definition signature (path : Path) : option (list (string * string)) :=
  mapM nodeSignature path.

Definition noPathMessage (inputFormat outputFormat : FileFormat) : string :=
  "Could not find a working conversion path from "
  +:+ FileFormat.format inputFormat +:+ " to " +:+ FileFormat.format outputFormat.

(** [f => !f.bytes.length] *)
Definition emptyBytes (f : FileData) : bool :=
  Nat.eqb (length (FileData.bytes f)) 0.

(** [fromHandler || engine.handlers[0]] *)
Definition anchorHandler (found : option FormatHandler)
  (handlers : list FormatHandler) : option FormatHandler :=
  match found with
  | Some h => Some h
  | None => head handlers
  end.

Section Executor.

Variable World : Type.

(** The plug-in side of a handler: its [ready] member, [init()] (as in
    the bootstrap) and [doConvert(files, from, to)], whose promise resolves
    to files or rejects ([None]). *)
Variable handlerReady : FormatHandler -> World -> bool.
Variable handlerInit :
  FormatHandler -> World -> World * (option (list FileFormat) * bool).
Variable doConvert :
  FormatHandler -> list FileData -> FileFormat -> FileFormat ->
  World -> World * option (list FileData).

(** The async generator returned by [graph.searchPath]: its state, and one
    resumption, which reads the graph (and so its dead-end memory) as it is
    at that moment. *)
Variable Iter : Type.
Variable searchPath :
  TraversionGraph -> ConvertPathNode -> ConvertPathNode -> bool -> Iter.
Variable next : Iter -> TraversionGraph -> option (Path * Iter).

Record ExecState : Type := mkExec {
  world : World;
  graph : TraversionGraph;       (* engine.graph *)
  failedPaths : gset string;
  log : list Event
}.

(** What the [try] block can throw. *)
Inductive HopError : Type :=
| HandlerMissing      (* TypeError: [handler.ready] on [undefined] *)
| InitRejected        (* [await handler.init()] rejected *)
| ConvertRejected     (* [await handler.doConvert(...)] rejected *)
| OutputIsEmpty.      (* new Error("Output is empty") *)

(** The body of the [try] block once it has left the hop loop normally or
    by a throw. *)
Inductive Attempt : Type :=
| Threw (err : HopError)
| Finished (currentFiles : list FileData).

(** The hop loop, entered at [path[i]] = [prev] with [rest] still ahead. *)
Fixpoint runHops (prev : ConvertPathNode) (rest : Path)
  (currentFiles : list FileData) (w : World) (lg : list Event)
  : World * list Event * Attempt :=
  match rest with
  | [] => (w, lg, Finished currentFiles)
  | node :: rest' =>
      let stepInputFormat := ConvertPathNode.format prev in
      let stepOutputFormat := ConvertPathNode.format node in
      let lg := lg ++ [Converting stepInputFormat stepOutputFormat] in
      match ConvertPathNode.handler node with
      | None => (w, lg, Threw HandlerMissing)
      | Some handler =>
          (* Make sure handler is ready *)
          let '(w1, lg1, ok) :=
            if handlerReady handler w then (w, lg, true)
            else
              let '(w', (_, ok)) := handlerInit handler w in
              (w', lg ++ [InitCalled (FormatHandler.name handler)], ok) in
          if ok then
            match doConvert handler currentFiles stepInputFormat stepOutputFormat w1 with
            | (w2, None) => (w2, lg1, Threw ConvertRejected)
            | (w2, Some files) =>
                if List.existsb emptyBytes files then (w2, lg1, Threw OutputIsEmpty)
                else runHops node rest' files w2 lg1
            end
          else (w1, lg1, Threw InitRejected)
      end
  end.

Definition runPath (path : Path) (fileDataArray : list FileData)
  (w : World) (lg : list Event) : World * list Event * Attempt :=
  match path with
  | [] => (w, lg, Finished fileDataArray)
  | first :: rest => runHops first rest fileDataArray w lg
  end.

(** The [for await] loop.  [fuel] bounds the number of resumptions of the
    iterator. *)
Fixpoint tryPaths (fuel : nat) (inputFormat outputFormat : FileFormat)
  (fileDataArray : list FileData) (it : Iter) (st : ExecState)
  : ExecState * Outcome :=
  match fuel with
  | 0 => (st, Pending)
  | S fuel' =>
      match next it (graph st) with
      | None =>
          (st, Rejected (ErrorMessage (noPathMessage inputFormat outputFormat)))
      | Some (path, it') =>
          match pathKey path with
          | None => (st, Rejected TypeError)
          | Some key =>
              if bool_decide (key ∈ failedPaths st) then
                tryPaths fuel' inputFormat outputFormat fileDataArray it' st
              else
                let '(w, lg, attempt) :=
                  runPath path fileDataArray (world st) (log st ++ [Trying path]) in
                match attempt with
                | Finished currentFiles =>
                    if Nat.ltb 0 (length currentFiles) then
                      (mkExec w (graph st) (failedPaths st) (lg ++ [Complete]),
                       Resolved (ConversionResult.mk currentFiles path))
                    else
                      tryPaths fuel' inputFormat outputFormat fileDataArray it'
                        (mkExec w (graph st) (failedPaths st) lg)
                | Threw _ =>
                    tryPaths fuel' inputFormat outputFormat fileDataArray it'
                      (mkExec w
                         (TraversionGraph.addDeadEndPath path (graph st))
                         ({[ key ]} ∪ failedPaths st)
                         (lg ++ [PathFailed key]))
                end
          end
      end
  end.

Definition readFile (file : File) : FileData :=
  FileData.mk (File.name file) (File.content file).

Definition convertFiles (fuel : nat) (inputFiles : list File)
  (inputFormat outputFormat : FileFormat) (engine : ConversionEngine)
  (simpleMode : bool) (w : World) : ExecState * Outcome :=
  let fileDataArray := List.map readFile inputFiles in
  let fromHandler := findHandlerForFormat inputFormat (ConversionEngine.handlers engine) in
  let toHandler := findHandlerForFormat outputFormat (ConversionEngine.handlers engine) in
  let fromNode :=
    ConvertPathNode.mk (anchorHandler fromHandler (ConversionEngine.handlers engine))
                       inputFormat in
  let toNode :=
    ConvertPathNode.mk (anchorHandler toHandler (ConversionEngine.handlers engine))
                       outputFormat in
  (* Clear dead ends from previous conversion attempts *)
  let g := TraversionGraph.clearDeadEndPaths (ConversionEngine.graph engine) in
  let pathIterator := searchPath g fromNode toNode simpleMode in
  tryPaths fuel inputFormat outputFormat fileDataArray pathIterator
    (mkExec w g ∅ [Reading; Finding]).

End Executor.

(** A path iterator that hands out a fixed list of candidates, used to run
    the executor on concrete inputs. *)
Definition listNext (it : list Path) (g : TraversionGraph) : option (Path * list Path) :=
  match it with
  | [] => None
  | p :: it' => Some (p, it')
  end.

(** ** getEngine and the module-level singleton

    [initializeEngine()] runs as an asynchronous task: [getEngine] starts it
    and returns its promise; the task later reaches its last statement, where
    it assigns [engineInstance] and its promise resolves, or it rejects (the
    dynamic import of the handler list can fail).  Objects are told apart by
    the call of [initializeEngine] that allocated them: call number [p] owns
    promise [p] and builds engine [p]. *)
Module Singleton.

Record EngineObj : Type := mkObj {
  ref : nat;
  ready : bool
}.

Record Runtime : Type := mk {
  engineInstance : option EngineObj;
  initPromise : option nat;
  started : nat;                       (* calls of initializeEngine() so far *)
  settled : list (nat * option nat)    (* promise, engine it resolved to *)
}.

Definition initial : Runtime := mk None None 0 [].

(** What a call of [getEngine] hands back: the instance itself, or the
    promise of a build. *)
Inductive Answer : Type :=
| Instance (e : EngineObj)
| InFlight (p : nat).

(** The last two statements of [getEngine]. *)
Definition joinOrStart (rt : Runtime) : Runtime * Answer :=
  match initPromise rt with
  | Some p => (rt, InFlight p)
  | None =>
      (mk (engineInstance rt) (Some (started rt)) (S (started rt)) (settled rt),
       InFlight (started rt))
  end.

Definition getEngine (rt : Runtime) : Runtime * Answer :=
  match engineInstance rt with
  | Some e => if ready e then (rt, Instance e) else joinOrStart rt
  | None => joinOrStart rt
  end.

Definition isSettled (p : nat) (rt : Runtime) : bool :=
  List.existsb (fun e => Nat.eqb (fst e) p) (settled rt).

Definition inFlight (p : nat) (rt : Runtime) : bool :=
  Nat.ltb p (started rt) && negb (isSettled p rt).

(** The last statements of [initializeEngine]: [engineInstance = {..., ready:
    true}; return engineInstance]. *)
Definition initResolves (p : nat) (rt : Runtime) : Runtime :=
  mk (Some (mkObj p true)) (initPromise rt) (started rt)
     ((p, Some p) :: settled rt).

Definition initRejects (p : nat) (rt : Runtime) : Runtime :=
  mk (engineInstance rt) (initPromise rt) (started rt)
     ((p, None) :: settled rt).

Inductive Action : Type :=
| CallGetEngine
| InitResolves (p : nat)
| InitRejects (p : nat).

(** One scheduling step; a build can only settle while it is in flight. *)
Definition step (rt : Runtime) (a : Action) : option (Runtime * list Answer) :=
  match a with
  | CallGetEngine => let '(rt', ans) := getEngine rt in Some (rt', [ans])
  | InitResolves p => if inFlight p rt then Some (initResolves p rt, []) else None
  | InitRejects p => if inFlight p rt then Some (initRejects p rt, []) else None
  end.

Fixpoint run (acts : list Action) (rt : Runtime) : option (Runtime * list Answer) :=
  match acts with
  | [] => Some (rt, [])
  | a :: acts' =>
      match step rt a with
      | None => None
      | Some (rt1, out1) =>
          match run acts' rt1 with
          | None => None
          | Some (rt2, out2) => Some (rt2, out1 ++ out2)
          end
      end
  end.

(** The engine a caller gets by awaiting the answer, if it has one yet. *)
Definition awaited (rt : Runtime) (ans : Answer) : option nat :=
  match ans with
  | Instance e => Some (ref e)
  | InFlight p =>
      match List.find (fun e => Nat.eqb (fst e) p) (settled rt) with
      | Some (_, v) => v
      | None => None
      end
  end.

End Singleton.

(** ** Specification-side vocabulary *)

(** The entries of [rawFormats] that fall under key [k]. *)
Definition contributors (k : string) (rawFormats : list FileFormat) : list FileFormat :=
  List.filter (fun f => String.eqb (formatKey f) k) rawFormats.

(** The identity of a Format: its display name and its internal id. *)
Definition identity (f : FileFormat) : string * string :=
  (FileFormat.format f, FileFormat.internal f).

(** The entries of [rawFormats] that have the identity [i]. *)
Definition sharing (i : string * string) (rawFormats : list FileFormat)
  : list FileFormat :=
  List.filter (fun f => bool_decide (identity f = i)) rawFormats.

(** The key strings tell the identities of a list apart: entries that fall
    under one key have one identity. *)
Definition KeysTellApart (l : list FileFormat) : Prop :=
  forall f g, f ∈ l -> g ∈ l -> formatKey f = formatKey g -> identity f = identity g.

(** The three flags that the merge assigns. *)
Definition flags (f : FileFormat) : bool * bool * bool :=
  (FileFormat.from f, FileFormat.to f, FileFormat.lossless f).

(** [f] is the first element of [l], in list order, that satisfies [P]. *)
Definition FirstIn {A : Type} (P : A -> Prop) (l : list A) (f : A) : Prop :=
  exists l1 l2, l = l1 ++ f :: l2 /\ P f /\ forall x, x ∈ l1 -> ~ P x.

(** The three tiers of format detection, in the words of the
    specification. *)
Definition ExtensionAndMime (toLowerCase : string -> string)
  (extension mime : string) (f : FileFormat) : Prop :=
  FileFormat.from f = true
  /\ toLowerCase (FileFormat.extension f) = extension
  /\ (FileFormat.mime f = mime \/ mime = EmptyString).

Definition ExtensionOnly (toLowerCase : string -> string)
  (extension : string) (f : FileFormat) : Prop :=
  FileFormat.from f = true /\ toLowerCase (FileFormat.extension f) = extension.

Definition MimeOnly (mime : string) (f : FileFormat) : Prop :=
  FileFormat.from f = true /\ FileFormat.mime f = mime.

(** What [initializeEngine] can owe to a call of [init]: handler [n] got
    the list [fs] from a call that resolved. *)
Definition ResolvedBy {World : Type}
  (handlerInit : FormatHandler -> World -> World * (option (list FileFormat) * bool))
  (hs : list FormatHandler) (n : string) (fs : list FileFormat) : Prop :=
  exists h w0 w1, h ∈ hs /\ FormatHandler.name h = n
                  /\ handlerInit h w0 = (w1, (Some fs, true)).

(** The state of the bootstrap when its handler loop has gone through
    [pre], the handlers at the front of the registry. *)
Definition reached {World : Type}
  (handlerInit : FormatHandler -> World -> World * (option (list FileFormat) * bool))
  (cacheJSON : option (list (string * list FileFormat))) (w : World)
  (pre : list FormatHandler) : BootState World :=
  fst (initHandlers handlerInit
         (mkBoot w (fst (loadCache cacheJSON)) (snd (loadCache cacheJSON)) []) pre).

(** What happens to a handler that the loop takes up in state [st]: the
    cache holds its name already; or [init] is called, in the world of
    that moment, and resolves leaving a format list, resolves leaving
    none, or rejects. *)
Inductive Fate : Type :=
| Adopted (cached : list FileFormat)
| Succeeded (supported : list FileFormat)
| Listless
| Failed.

Definition fate {World : Type}
  (handlerInit : FormatHandler -> World -> World * (option (list FileFormat) * bool))
  (st : BootState World) (h : FormatHandler) : Fate :=
  match OMap.get (FormatHandler.name h) (bootCache st) with
  | Some cached => Adopted cached
  | None =>
      match snd (handlerInit h (bootWorld st)) with
      | (Some supported, true) => Succeeded supported
      | (None, true) => Listless
      | (_, false) => Failed
      end
  end.

(** What a handler adds to the raw format list: its list when its [init]
    succeeds, nothing otherwise. *)
Definition contribution {World : Type}
  (handlerInit : FormatHandler -> World -> World * (option (list FileFormat) * bool))
  (st : BootState World) (h : FormatHandler) : list FileFormat :=
  match fate handlerInit st h with
  | Succeeded supported => supported
  | _ => []
  end.

(** What the merge holds under key [k]: the first contributor, with the
    flags of the later ones folded in. *)
Definition mergedUnder (k : string) (rawFormats : list FileFormat) : option FileFormat :=
  match contributors k rawFormats with
  | [] => None
  | f :: rest => Some (List.fold_left mergeFlags rest f)
  end.

(** Every entry of the map sits under its own key, and no key is held
    twice. *)
Definition WellKeyed (m : OMap.t FileFormat) : Prop :=
  NoDup (OMap.keys m) /\ forall k g, (k, g) ∈ m -> formatKey g = k.

(** A string without colon: for such display names the key
    [format::internal] determines the pair (format, internal). *)
Fixpoint noColon (s : string) : bool :=
  match s with
  | EmptyString => true
  | String c s' => negb (Ascii.eqb c ":") && noColon s'
  end.

(** What holds in every state the module can reach: [initializeEngine] has
    been called at most once, and every promise and every engine object
    stems from that call. *)
Definition singletonInv (rt : Singleton.Runtime) : Prop :=
  Singleton.started rt <= 1
  /\ (forall p, Singleton.initPromise rt = Some p -> p = 0 /\ Singleton.started rt = 1)
  /\ (Singleton.initPromise rt = None -> Singleton.started rt = 0)
  /\ (forall e, Singleton.engineInstance rt = Some e ->
        e = Singleton.mkObj 0 true /\ Singleton.isSettled 0 rt = true)
  /\ (forall p v, (p, v) ∈ Singleton.settled rt -> p = 0 /\ (v = None \/ v = Some 0)).

Definition answerOfFirstBuild (a : Singleton.Answer) : Prop :=
  a = Singleton.InFlight 0 \/ a = Singleton.Instance (Singleton.mkObj 0 true).

(** *** Reading the event log of an attempt *)

(** The keys reported failed in a log, in order. *)
Fixpoint failedIn (l : list Event) : list string :=
  match l with
  | [] => []
  | PathFailed key :: l' => key :: failedIn l'
  | _ :: l' => failedIn l'
  end.

(** The set of failed keys after reading [l], starting from [seen]. *)
Fixpoint scan (seen : gset string) (l : list Event) : gset string :=
  match l with
  | [] => seen
  | PathFailed key :: l' => scan ({[ key ]} ∪ seen) l'
  | _ :: l' => scan seen l'
  end.

(** No path is tried whose key has been reported failed before. *)
Fixpoint NoRetry (seen : gset string) (l : list Event) : Prop :=
  match l with
  | [] => True
  | Trying q :: l' =>
      (forall key, pathKey q = Some key -> key ∉ seen) /\ NoRetry seen l'
  | PathFailed key :: l' => NoRetry ({[ key ]} ∪ seen) l'
  | _ :: l' => NoRetry seen l'
  end.

(** Events of the hop loop. *)
Definition hopEvent (e : Event) : Prop :=
  match e with
  | Converting _ _ | InitCalled _ => True
  | _ => False
  end.

Section ExecutorSpec.

Variable World : Type.
Variable handlerReady : FormatHandler -> World -> bool.
Variable handlerInit :
  FormatHandler -> World -> World * (option (list FileFormat) * bool).
Variable doConvert :
  FormatHandler -> list FileData -> FileFormat -> FileFormat ->
  World -> World * option (list FileData).
Variable Iter : Type.
Variable next : Iter -> TraversionGraph -> option (Path * Iter).

(** The file lists that the handlers returned along the run of a path, hop
    by hop, up to the hop where the run stopped. *)
Fixpoint hopOutputs (prev : ConvertPathNode) (rest : Path)
  (currentFiles : list FileData) (w : World) : list (list FileData) :=
  match rest with
  | [] => []
  | node :: rest' =>
      match ConvertPathNode.handler node with
      | None => []
      | Some handler =>
          let '(w1, ok) :=
            if handlerReady handler w then (w, true)
            else let '(w', (_, ok)) := handlerInit handler w in (w', ok) in
          if ok then
            match doConvert handler currentFiles (ConvertPathNode.format prev)
                    (ConvertPathNode.format node) w1 with
            | (w2, None) => []
            | (w2, Some files) =>
                files :: (if List.existsb emptyBytes files then []
                          else hopOutputs node rest' files w2)
            end
          else []
      end
  end.

Definition pathOutputs (path : Path) (fileDataArray : list FileData) (w : World)
  : list (list FileData) :=
  match path with
  | [] => []
  | first :: rest => hopOutputs first rest fileDataArray w
  end.

(** The candidate sequence is exhausted without success: from iterator
    state [it] and executor state [st], every path the iterator yields is
    skipped, fails, or ends with no files, until the iterator is done;
    [st'] is the executor state at that point. *)
Inductive Exhausts (fileDataArray : list FileData)
  : Iter -> ExecState World -> ExecState World -> Prop :=
| exhausts_done it st :
    next it (graph World st) = None ->
    Exhausts fileDataArray it st st
| exhausts_skip it st path it' key st' :
    next it (graph World st) = Some (path, it') ->
    pathKey path = Some key ->
    key ∈ failedPaths World st ->
    Exhausts fileDataArray it' st st' ->
    Exhausts fileDataArray it st st'
| exhausts_fail it st path it' key w lg err st' :
    next it (graph World st) = Some (path, it') ->
    pathKey path = Some key ->
    key ∉ failedPaths World st ->
    runPath World handlerReady handlerInit doConvert path fileDataArray
      (world World st) (log World st ++ [Trying path]) = (w, lg, Threw err) ->
    Exhausts fileDataArray it'
      (mkExec World w (TraversionGraph.addDeadEndPath path (graph World st))
         ({[ key ]} ∪ failedPaths World st) (lg ++ [PathFailed key])) st' ->
    Exhausts fileDataArray it st st'
| exhausts_empty it st path it' key w lg st' :
    next it (graph World st) = Some (path, it') ->
    pathKey path = Some key ->
    key ∉ failedPaths World st ->
    runPath World handlerReady handlerInit doConvert path fileDataArray
      (world World st) (log World st ++ [Trying path]) = (w, lg, Finished []) ->
    Exhausts fileDataArray it'
      (mkExec World w (graph World st) (failedPaths World st) lg) st' ->
    Exhausts fileDataArray it st st'.

End ExecutorSpec.

Arguments mkExec {World}.
Arguments world {World}.
Arguments graph {World}.
Arguments failedPaths {World}.
Arguments log {World}.
Arguments runHops {World}.
Arguments runPath {World}.
Arguments tryPaths {World} _ _ _ {Iter}.
Arguments convertFiles {World} _ _ _ {Iter}.
Arguments hopOutputs {World}.
Arguments pathOutputs {World}.
Arguments Exhausts {World} _ _ _ {Iter}.

(** ** A small installation, for running the definitions

    The scenario of the specification: an SVG input and a PNG target;
    handler H1 declares svg to png but always fails at run time; handler H2
    goes through PDF and works.  H3 answers with a zero-length file and H4
    with no file at all. *)
Module Sample.

Definition svg : FileFormat :=
  FileFormat.mk "Scalable Vector Graphics" "SVG" "svg" "image/svg+xml"
                true false "svg" ["image"] true.
Definition pdf : FileFormat :=
  FileFormat.mk "Portable Document Format" "PDF" "pdf" "application/pdf"
                true true "pdf" ["document"] false.
Definition png : FileFormat :=
  FileFormat.mk "Portable Network Graphics" "PNG" "png" "image/png"
                true true "png" ["image"] true.
(** A second reader of the [svg] extension, with another mime. *)
Definition svgz : FileFormat :=
  FileFormat.mk "Compressed SVG" "SVGZ" "svg" "image/svg+xml-compressed"
                true false "svgz" ["image"] true.
(** A format no handler declares. *)
Definition tiff : FileFormat :=
  FileFormat.mk "Tagged Image File Format" "TIFF" "tiff" "image/tiff"
                true true "tiff" ["image"] true.

(** Two handlers describing JPEG differently. *)
Definition jpegA : FileFormat :=
  FileFormat.mk "JPEG image" "JPEG" "jpg" "image/jpeg"
                true false "jpeg" ["image"] false.
Definition jpegB : FileFormat :=
  FileFormat.mk "Joint Photographic Experts Group" "JPEG" "jpeg" "image/jpg"
                false true "jpeg" ["image"] true.

Definition H1 : FormatHandler := FormatHandler.mk "H1" (Some [svg; png]).
Definition H2 : FormatHandler := FormatHandler.mk "H2" (Some [svg; pdf; png]).
Definition H3 : FormatHandler := FormatHandler.mk "H3" (Some [svg; png]).
Definition H4 : FormatHandler := FormatHandler.mk "H4" (Some [svg; png]).
Definition handlers : list FormatHandler := [H1; H2; H3; H4].

(** The outside world: the names of the handlers initialised so far. *)
Definition World : Type := list string.

Definition handlerReady (h : FormatHandler) (w : World) : bool :=
  List.existsb (String.eqb (FormatHandler.name h)) w.

(** Handler "broken" rejects [init]; every other one resolves and keeps its
    format list. *)
Definition handlerInit (h : FormatHandler) (w : World)
  : World * (option (list FileFormat) * bool) :=
  if String.eqb (FormatHandler.name h) "broken"
  then (w, (None, false))
  else (FormatHandler.name h :: w, (FormatHandler.supportedFormats h, true)).

Definition converted (target : FileFormat) (f : FileData) : FileData :=
  FileData.mk (FileData.name f +:+ "." +:+ FileFormat.extension target)
              (FileData.bytes f).

Definition doConvert (h : FormatHandler) (files : list FileData)
  (source target : FileFormat) (w : World) : World * option (list FileData) :=
  if String.eqb (FormatHandler.name h) "H1" then (w, None)
  else if String.eqb (FormatHandler.name h) "H3" then
    (w, Some [FileData.mk "empty" []])
  else if String.eqb (FormatHandler.name h) "H4" then (w, Some [])
  else (w, Some (List.map (converted target) files)).

Definition node (h : FormatHandler) (f : FileFormat) : ConvertPathNode :=
  ConvertPathNode.mk (Some h) f.

Definition direct1 : Path := [node H1 svg; node H1 png].
Definition viaPdf : Path := [node H2 svg; node H2 pdf; node H2 png].
Definition direct3 : Path := [node H3 svg; node H3 png].
Definition direct4 : Path := [node H4 svg; node H4 png].

Definition input : File := File.mk "a.svg" "image/svg+xml" ["<"%byte; "s"%byte].

Definition engine : ConversionEngine :=
  ConversionEngine.mk handlers
    (TraversionGraph.mk [] handlers [direct3]) (* a dead end left by an earlier call *)
    [svg; pdf; png] [] true.

(** A search that yields a fixed candidate list. *)
Definition searching (candidates : list Path)
  (g : TraversionGraph) (source target : ConvertPathNode) (simpleMode : bool)
  : list Path := candidates.


Definition run (candidates : list Path) (fuel : nat) :=
  convertFiles handlerReady handlerInit doConvert (searching candidates) listNext
    fuel [input] svg png engine true [].

Definition files : list FileData := [readFile input].
Definition graph0 : TraversionGraph :=
  TraversionGraph.clearDeadEndPaths (ConversionEngine.graph engine).
(** The executor state on entry to the loop. *)
Definition st0 : ExecState World := mkExec [] graph0 ∅ [Reading; Finding].


(** Handlers before bootstrap: no format list yet. *)
Definition fresh (n : string) : FormatHandler := FormatHandler.mk n None.

(** [init] as a plug-in would do it: "broken" rejects, "H2" resolves with
    its three formats, any other handler resolves with SVG and PNG. *)
Definition bootInit (h : FormatHandler) (w : World)
  : World * (option (list FileFormat) * bool) :=
  if String.eqb (FormatHandler.name h) "broken" then (w, (None, false))
  else if String.eqb (FormatHandler.name h) "H2"
  then (FormatHandler.name h :: w, (Some [svg; pdf; png], true))
  else (FormatHandler.name h :: w, (Some [svg; png], true)).

(** The mime normaliser of the examples leaves its argument as it is. *)
Definition sameMime (s : string) : string := s.

(** Lower-casing in the examples, whose names are ASCII: there
    [String.prototype.toLowerCase] maps A-Z to a-z, byte by byte, and
    leaves the other bytes. *)
Definition lowerAscii (c : ascii) : ascii :=
  let n := nat_of_ascii c in
  if Nat.leb 65 n && Nat.leb n 90 then ascii_of_nat (n + 32) else c.

Fixpoint toLowerCase (s : string) : string :=
  match s with
  | EmptyString => EmptyString
  | String c s' => String (lowerAscii c) (toLowerCase s')
  end.

End Sample.

(** ** Further vocabulary *)

(** Handler [h] lists a format with the internal id and display name of
    [format]. *)
Definition Lists (format : FileFormat) (h : FormatHandler) : Prop :=
  exists fs f, FormatHandler.supportedFormats h = Some fs /\ f ∈ fs
    /\ FileFormat.internal f = FileFormat.internal format
    /\ FileFormat.format f = FileFormat.format format.

(** Character [c] does not occur in [s]. *)
Fixpoint lacks (c : ascii) (s : string) : bool :=
  match s with
  | EmptyString => true
  | String d s' => negb (Ascii.eqb d c) && lacks c s'
  end.

(** The distinct elements of a list, in the order of their first
    occurrence. *)
Definition addOnce (acc : list string) (k : string) : list string :=
  if bool_decide (k ∈ acc) then acc else acc ++ [k].

Definition firstOccurrences (l : list string) : list string :=
  List.fold_left addOnce l [].

(** The fields that the merge never assigns. *)
Definition sameDescription (g f : FileFormat) : Prop :=
  FileFormat.name g = FileFormat.name f
  /\ FileFormat.format g = FileFormat.format f
  /\ FileFormat.extension g = FileFormat.extension f
  /\ FileFormat.mime g = FileFormat.mime f
  /\ FileFormat.internal g = FileFormat.internal f
  /\ FileFormat.category g = FileFormat.category f.

(** ** printSupportedFormatCache *)

Section Snapshot.

(** [JSON.stringify(entries, null, 2)] on an array of [name, formats]
    pairs. *)
Variable stringify : list (string * list FileFormat) -> string.

(** The loop pushes every entry of the map, in the order the map iterates
    them, and the array is serialised. *)
Definition printSupportedFormatCache (engine : ConversionEngine) : string :=
  let entries :=
    List.fold_left (fun acc entry => acc ++ [entry])
      (ConversionEngine.supportedFormatCache engine) [] in
  stringify entries.

End Snapshot.

(** ** The states of the engine singleton *)

(** No call of [getEngine] yet. *)
Definition singletonIdle : Singleton.Runtime := Singleton.initial.
(** The build has been started and has not settled. *)
Definition singletonBuilding : Singleton.Runtime := Singleton.mk None (Some 0) 1 [].
(** The build has resolved. *)
Definition singletonReady : Singleton.Runtime :=
  Singleton.mk (Some (Singleton.mkObj 0 true)) (Some 0) 1 [(0, Some 0)].
(** The build has rejected. *)
Definition singletonFailed : Singleton.Runtime :=
  Singleton.mk None (Some 0) 1 [(0, None)].

(** ** The conversion page: the callers of the engine

    [ConvertPage] keeps its state in React state variables; the model holds
    the ones its handlers [handleFilesSelected] and [handleConvert] read or
    write, as one record.  The progress percentage and the progress message
    are left out, as in the event log of [convertFiles]; [alert] is the
    boolean the handler returns. *)
Module Page.

Inductive ConversionStatus : Type :=
| StIdle | StInitializing | StConverting | StSuccess | StError.

Record OutputFile : Type := mkOutput {
  name : string;
  url : string
}.

Record t : Type := mk {
  files : list File;
  inputFormat : option FileFormat;
  outputFormat : option FileFormat;
  simpleMode : bool;
  engine : option ConversionEngine;
  allFormats : list FileFormat;
  status : ConversionStatus;
  error : string;
  conversionPath : string;
  outputFiles : list OutputFile;
  blobUrls : list string          (* blobUrlsRef.current *)
}.

End Page.
Abbreviation Page := Page.t.

(** [selectedFiles.some(f => f.type !== selectedFiles[0].type)]; on an
    empty array the callback is never run. *)
Definition mixedTypes (selectedFiles : list File) : bool :=
  match selectedFiles with
  | [] => false
  | first :: _ =>
      List.existsb (fun f => negb (String.eqb (File.type f) (File.type first)))
        selectedFiles
  end.

Section PageHandlers.

Variable toLowerCase : string -> string.
Variable normalizeMimeType : string -> string.

Definition handleFilesSelected (selectedFiles : list File) (page : Page)
  : Page * bool :=
  (* Ensure all files are of the same type *)
  if mixedTypes selectedFiles then (page, true)
  else
    let detected :=
      match selectedFiles, Page.allFormats page with
      | first :: _, _ :: _ =>
          detectInputFormat toLowerCase normalizeMimeType first (Page.allFormats page)
      | _, _ => None
      end in
    (Page.mk selectedFiles
       (match detected with
        | Some f => Some f
        | None => Page.inputFormat page
        end)
       (Page.outputFormat page) (Page.simpleMode page) (Page.engine page)
       (Page.allFormats page) Page.StIdle (Page.error page)
       EmptyString [] (Page.blobUrls page),
     false).

Variable World : Type.
Variable handlerReady : FormatHandler -> World -> bool.
Variable handlerInit :
  FormatHandler -> World -> World * (option (list FileFormat) * bool).
Variable doConvert :
  FormatHandler -> list FileData -> FileFormat -> FileFormat ->
  World -> World * option (list FileData).
Variable Iter : Type.
Variable searchPath :
  TraversionGraph -> ConvertPathNode -> ConvertPathNode -> bool -> Iter.
Variable next : Iter -> TraversionGraph -> option (Path * Iter).

(** The object URLs of the browser: [URL.createObjectURL(new Blob([bytes]))]
    and [URL.revokeObjectURL(url)], over the browser's registry of URLs. *)
Variable Urls : Type.
Variable createObjectURL : list byte -> Urls -> Urls * string.
Variable revokeObjectURL : string -> Urls -> Urls.

(** The [message] of the TypeError that reading a member of [undefined]
    throws. *)
Variable typeErrorMessage : string.

(** [err instanceof Error ? err.message : ...]; both kinds of error that
    [convertFiles] rejects with are instances of [Error]. *)
Definition errorText (e : Error) : string :=
  match e with
  | ErrorMessage m => m
  | TypeError => typeErrorMessage
  end.

(** [result.files.map(...)]: one object URL per file, each pushed onto
    [blobUrlsRef.current]. *)
Fixpoint makeOutputs (files : list FileData) (u : Urls)
  : Urls * list Page.OutputFile :=
  match files with
  | [] => (u, [])
  | f :: rest =>
      let '(u1, url) := createObjectURL (FileData.bytes f) u in
      let '(u2, outs) := makeOutputs rest u1 in
      (u2, Page.mkOutput (FileData.name f) url :: outs)
  end.

(** [result.path.map((n) => n.format.format).join(" -> ")] *)
Definition pathString (path : Path) : string :=
  String.concat " -> "
    (List.map (fun n => FileFormat.format (ConvertPathNode.format n)) path).

(** [engine.graph] after the call: the engine object the page holds is the
    one [convertFiles] has worked on. *)
Definition withGraph (engine : ConversionEngine) (g : TraversionGraph)
  : ConversionEngine :=
  ConversionEngine.mk (ConversionEngine.handlers engine) g
    (ConversionEngine.allFormats engine)
    (ConversionEngine.supportedFormatCache engine)
    (ConversionEngine.ready engine).

Definition handleConvert (fuel : nat) (page : Page) (w : World) (u : Urls)
  : Page * World * Urls :=
  match Page.engine page, Page.inputFormat page, Page.outputFormat page with
  | Some engine, Some inputFormat, Some outputFormat =>
      if Nat.eqb (length (Page.files page)) 0 then (page, w, u)
      else
        let '(st, outcome) :=
          convertFiles handlerReady handlerInit doConvert searchPath next
            fuel (Page.files page) inputFormat outputFormat engine
            (Page.simpleMode page) w in
        let engine' := withGraph engine (graph st) in
        match outcome with
        | Resolved result =>
            let u1 := List.fold_left (fun u url => revokeObjectURL url u)
                        (Page.blobUrls page) u in
            let '(u2, outputs) := makeOutputs (ConversionResult.files result) u1 in
            (Page.mk (Page.files page) (Page.inputFormat page) (Page.outputFormat page)
               (Page.simpleMode page) (Some engine') (Page.allFormats page)
               Page.StSuccess EmptyString
               (pathString (ConversionResult.path result)) outputs
               (List.map Page.url outputs),
             world st, u2)
        | Rejected e =>
            (Page.mk (Page.files page) (Page.inputFormat page) (Page.outputFormat page)
               (Page.simpleMode page) (Some engine') (Page.allFormats page)
               Page.StError (errorText e) EmptyString [] (Page.blobUrls page),
             world st, u)
        | Pending =>
            (Page.mk (Page.files page) (Page.inputFormat page) (Page.outputFormat page)
               (Page.simpleMode page) (Some engine') (Page.allFormats page)
               Page.StConverting EmptyString EmptyString [] (Page.blobUrls page),
             world st, u)
        end
  | _, _, _ => (page, w, u)
  end.

End PageHandlers.

Arguments handleConvert {World} _ _ _ {Iter} _ _ {Urls}.

(** ** A second installation, for the bootstrap *)
Module Demo.

Definition registry : list FormatHandler := [Sample.fresh "H1"; Sample.fresh "H2"].
Definition snapshot : option (list (string * list FileFormat)) :=
  Some [("H1", [Sample.png])].
Definition booted : ConversionEngine :=
  snd (initializeEngine Sample.bootInit registry snapshot []).

(** Two registered handlers under one name. *)
Definition twins : list FormatHandler := [Sample.fresh "H1"; Sample.fresh "H1"].

(** A path of one node. *)
Definition alone : Path := [Sample.node Sample.H2 Sample.svg].

(** Stand-ins for [JSON.stringify] and [JSON.parse] that agree on the cache
    of [booted]. *)
Definition stringify (entries : list (string * list FileFormat)) : string :=
  "[[H1,[PNG]],[H2,[SVG,PDF,PNG]]]".
Definition parse (text : string) : option (list (string * list FileFormat)) :=
  Some [("H1", [Sample.png]); ("H2", [Sample.svg; Sample.pdf; Sample.png])].

(** A browser whose object URLs are numbered in the order of their
    creation; the registry holds the live ones. *)
Definition Urls : Type := list string.
Definition createObjectURL (bytes : list byte) (u : Urls) : Urls * string :=
  let url := "blob:" +:+ String.concat "-" (List.repeat "u" (S (length u))) in
  (u ++ [url], url).
Definition revokeObjectURL (url : string) (u : Urls) : Urls :=
  List.filter (fun x => negb (String.eqb x url)) u.

(** A second file, of another type. *)
Definition photo : File := File.mk "b.png" "image/png" ["P"%byte].

(** A file for which the catalog of [Sample.engine] has no format. *)
Definition unknown : File := File.mk "notes.xyz" "text/x-notes" ["n"%byte].

(** The page with the engine loaded, PNG chosen as the output and nothing
    selected yet; and the page after [Sample.input] was selected. *)
Definition page : Page :=
  Page.mk [] None (Some Sample.png) true (Some Sample.engine)
    (ConversionEngine.allFormats Sample.engine) Page.StIdle EmptyString EmptyString
    [] [].
Definition selected : Page :=
  fst (handleFilesSelected Sample.toLowerCase Sample.sameMime [Sample.input] page).

(** Pressing Convert on a page, the search yielding [candidates]. *)
Definition press (candidates : list Path) (fuel : nat) (p : Page)
  : Page * Sample.World * Urls :=
  handleConvert Sample.handlerReady Sample.handlerInit Sample.doConvert
    (Sample.searching candidates) listNext createObjectURL revokeObjectURL
    "Cannot read properties of undefined" fuel p [] [].

End Demo.

(** * Properties *)

(** ** Insertion-ordered maps *)

Section OMapFacts.
Context {V : Type}.
Implicit Types (m : OMap.t V) (k : string) (v : V).

Lemma omap_get_set_eq m k v : OMap.get k (OMap.set k v m) = Some v.
Proof.
  induction m as [|[k' v'] m IH]; simpl.
  - by rewrite String.eqb_refl.
  - destruct (String.eqb k' k) eqn:E; simpl; rewrite E; auto.
Qed.

Lemma omap_get_set_ne m k k' v :
  k <> k' -> OMap.get k' (OMap.set k v m) = OMap.get k' m.
Proof.
  intros Hne. induction m as [|[k0 v0] m IH]; simpl.
  - destruct (String.eqb_spec k k'); congruence.
  - destruct (String.eqb_spec k0 k) as [->|Hk]; simpl.
    + destruct (String.eqb_spec k k'); congruence.
    + destruct (String.eqb_spec k0 k'); auto.
Qed.

Lemma omap_keys_set m k v :
  OMap.keys (OMap.set k v m)
  = if OMap.has k m then OMap.keys m else OMap.keys m ++ [k].
Proof.
  unfold OMap.has. induction m as [|[k0 v0] m IH]; simpl; auto.
  destruct (String.eqb_spec k0 k) as [->|Hk]; simpl; auto.
  rewrite IH. destruct (OMap.get k m); auto.
Qed.

Lemma omap_has_keys m k : OMap.has k m = true <-> k ∈ OMap.keys m.
Proof.
  unfold OMap.has. induction m as [|[k0 v0] m IH]; simpl.
  - split; [discriminate | intros H; inversion H].
  - destruct (String.eqb_spec k0 k) as [->|Hk].
    + split; auto. intros _. left.
    + rewrite IH. split; [by right|].
      intros H. inversion H; subst; congruence.
Qed.

Lemma omap_get_elem m k v : OMap.get k m = Some v -> (k, v) ∈ m.
Proof.
  induction m as [|[k0 v0] m IH]; simpl; [discriminate|].
  destruct (String.eqb_spec k0 k) as [->|Hk].
  - intros [= ->]. left.
  - intros H. right. auto.
Qed.

Lemma omap_elem_get m k v :
  NoDup (OMap.keys m) -> (k, v) ∈ m -> OMap.get k m = Some v.
Proof.
  induction m as [|[k0 v0] m IH]; simpl; intros Hnd Hin.
  - inversion Hin.
  - apply NoDup_cons in Hnd as [Hk0 Hnd].
    apply elem_of_cons in Hin as [[= -> ->]|Hin].
    + by rewrite String.eqb_refl.
    + destruct (String.eqb_spec k0 k) as [->|Hk]; auto.
      exfalso. apply Hk0. apply (list_elem_of_fmap_2 fst) in Hin. exact Hin.
Qed.

Lemma omap_keys_set_NoDup m k v :
  NoDup (OMap.keys m) -> NoDup (OMap.keys (OMap.set k v m)).
Proof.
  intros Hnd. rewrite omap_keys_set.
  destruct (OMap.has k m) eqn:E; auto.
  apply NoDup_app. split; [auto|]. split.
  - intros x Hx Hx'. apply list_elem_of_singleton in Hx'. subst.
    apply omap_has_keys in Hx. congruence.
  - apply NoDup_singleton.
Qed.

Lemma omap_of_entries_NoDup (es : list (string * V)) :
  NoDup (OMap.keys (OMap.of_entries es)).
Proof.
  unfold OMap.of_entries.
  assert (G : forall m, NoDup (OMap.keys m) ->
    NoDup (OMap.keys (List.fold_left (fun m e => OMap.set (fst e) (snd e) m) es m))).
  { induction es as [|e es IH]; simpl; auto.
    intros m Hm. apply IH. by apply omap_keys_set_NoDup. }
  apply G. constructor.
Qed.

End OMapFacts.

(** ** Catalog merge *)

Lemma mergeFlags_key existing f : formatKey (mergeFlags existing f) = formatKey existing.
Proof. reflexivity. Qed.

Lemma mergeFlags_fold_key fs e :
  formatKey (List.fold_left mergeFlags fs e) = formatKey e.
Proof. revert e. induction fs as [|f fs IH]; simpl; intros e; [done|by rewrite IH]. Qed.

Lemma mergeFlags_fold_from fs e :
  FileFormat.from (List.fold_left mergeFlags fs e)
  = FileFormat.from e || List.existsb FileFormat.from fs.
Proof.
  revert e. induction fs as [|f fs IH]; simpl; intros e.
  - by rewrite orb_false_r.
  - rewrite IH. simpl. by rewrite orb_assoc.
Qed.

Lemma mergeFlags_fold_to fs e :
  FileFormat.to (List.fold_left mergeFlags fs e)
  = FileFormat.to e || List.existsb FileFormat.to fs.
Proof.
  revert e. induction fs as [|f fs IH]; simpl; intros e.
  - by rewrite orb_false_r.
  - rewrite IH. simpl. by rewrite orb_assoc.
Qed.

Lemma mergeFlags_fold_lossless fs e :
  FileFormat.lossless (List.fold_left mergeFlags fs e)
  = FileFormat.lossless e || List.existsb FileFormat.lossless fs.
Proof.
  revert e. induction fs as [|f fs IH]; simpl; intros e.
  - by rewrite orb_false_r.
  - rewrite IH. simpl. destruct (FileFormat.lossless f), (FileFormat.lossless e); done.
Qed.

(** The fields the merge never assigns stay those of the first contributor. *)
Lemma mergeFlags_fold_rest fs e :
  let g := List.fold_left mergeFlags fs e in
  FileFormat.name g = FileFormat.name e
  /\ FileFormat.format g = FileFormat.format e
  /\ FileFormat.extension g = FileFormat.extension e
  /\ FileFormat.mime g = FileFormat.mime e
  /\ FileFormat.internal g = FileFormat.internal e
  /\ FileFormat.category g = FileFormat.category e.
Proof.
  revert e. induction fs as [|f fs IH]; simpl; intros e; [done|].
  destruct (IH (mergeFlags e f)) as (?&?&?&?&?&?). simpl in *. done.
Qed.

Lemma mergeStep_get_same m f :
  OMap.get (formatKey f) (mergeStep m f)
  = Some (match OMap.get (formatKey f) m with
          | Some existing => mergeFlags existing f
          | None => f
          end).
Proof.
  unfold mergeStep. destruct (OMap.get (formatKey f) m); apply omap_get_set_eq.
Qed.

Lemma mergeStep_get_other m f k :
  formatKey f <> k -> OMap.get k (mergeStep m f) = OMap.get k m.
Proof.
  intros Hne. unfold mergeStep.
  destruct (OMap.get (formatKey f) m); by apply omap_get_set_ne.
Qed.

Lemma merge_fold_get raw : forall m k,
  OMap.get k (List.fold_left mergeStep raw m)
  = match OMap.get k m with
    | Some e => Some (List.fold_left mergeFlags (contributors k raw) e)
    | None => mergedUnder k raw
    end.
Proof.
  unfold mergedUnder, contributors.
  induction raw as [|f raw IH]; intros m k; simpl.
  - by destruct (OMap.get k m).
  - rewrite IH. destruct (String.eqb_spec (formatKey f) k) as [<-|Hne].
    + rewrite mergeStep_get_same. by destruct (OMap.get (formatKey f) m).
    + by rewrite mergeStep_get_other.
Qed.

Lemma elem_of_omap_set {V : Type} (m : OMap.t V) k v k' v' :
  (k', v') ∈ OMap.set k v m -> (k', v') = (k, v) \/ (k', v') ∈ m.
Proof.
  induction m as [|[k0 v0] m IH]; simpl.
  - intros H. apply list_elem_of_singleton in H. by left.
  - destruct (String.eqb_spec k0 k) as [->|Hk]; intros H;
      apply elem_of_cons in H as [H|H].
    + by left.
    + right. by right.
    + right. rewrite H. left.
    + destruct (IH H); [by left|right; by right].
Qed.

Lemma mergeStep_WellKeyed m f : WellKeyed m -> WellKeyed (mergeStep m f).
Proof.
  intros [Hnd Hk]. unfold mergeStep.
  destruct (OMap.get (formatKey f) m) as [e|] eqn:E; split;
    try (by apply omap_keys_set_NoDup).
  - intros k g Hin. apply elem_of_omap_set in Hin as [[= -> ->]|Hin]; auto.
    rewrite mergeFlags_key. apply Hk. by apply omap_get_elem.
  - intros k g Hin. apply elem_of_omap_set in Hin as [[= -> ->]|Hin]; auto.
Qed.

Lemma merge_fold_WellKeyed raw : forall m,
  WellKeyed m -> WellKeyed (List.fold_left mergeStep raw m).
Proof.
  induction raw as [|f raw IH]; simpl; intros m Hm; auto.
  apply IH. by apply mergeStep_WellKeyed.
Qed.

Lemma WellKeyed_empty : WellKeyed OMap.empty.
Proof. split; [constructor|]. intros k g H. inversion H. Qed.

Lemma WellKeyed_values_keys m :
  WellKeyed m -> List.map formatKey (OMap.values m) = OMap.keys m.
Proof.
  intros [_ Hk]. unfold OMap.values, OMap.keys.
  induction m as [|[k g] m IH]; simpl; [done|].
  f_equal.
  - apply Hk. left.
  - apply IH. intros k' g' H. apply Hk. by right.
Qed.

(** The catalog entry with key [k] is exactly what the merge holds under
    [k]. *)
Lemma mergeFormats_elem raw g :
  g ∈ mergeFormats raw <-> mergedUnder (formatKey g) raw = Some g.
Proof.
  unfold mergeFormats.
  pose proof (merge_fold_WellKeyed raw _ WellKeyed_empty) as HW.
  pose proof (merge_fold_get raw OMap.empty) as HG. simpl in HG.
  set (m := List.fold_left mergeStep raw OMap.empty) in *.
  destruct HW as [Hnd Hk]. split.
  - intros Hin. unfold OMap.values in Hin.
    apply list_elem_of_fmap in Hin as [[k g'] [-> Hin]]. simpl.
    rewrite <- HG. apply omap_elem_get; auto.
    by rewrite (Hk _ _ Hin).
  - intros H. rewrite <- HG in H. apply omap_get_elem in H.
    unfold OMap.values. apply list_elem_of_fmap. by exists (formatKey g, g).
Qed.

Lemma contributors_elem k raw f :
  f ∈ contributors k raw <-> f ∈ raw /\ formatKey f = k.
Proof.
  unfold contributors. rewrite !list_elem_of_In, filter_In.
  by destruct (String.eqb_spec (formatKey f) k); intuition.
Qed.

Lemma existsb_elem {A : Type} (P : A -> bool) (l : list A) :
  List.existsb P l = true <-> exists x, x ∈ l /\ P x = true.
Proof.
  rewrite existsb_exists. split; intros [x [H1 H2]]; exists x;
    by rewrite ?list_elem_of_In in *.
Qed.

Lemma existsb_contributors_perm (P : FileFormat -> bool) k raw raw' :
  raw ≡ₚ raw' ->
  List.existsb P (contributors k raw) = List.existsb P (contributors k raw').
Proof.
  intros Hp. apply eq_true_iff_eq. rewrite !existsb_elem.
  split; intros [x [Hx HP]]; exists x; split; auto;
    apply contributors_elem; apply contributors_elem in Hx as [Hx Hk];
    split; auto; [by rewrite <- Hp | by rewrite Hp].
Qed.

Lemma mergedUnder_flags k raw g :
  mergedUnder k raw = Some g ->
  formatKey g = k
  /\ FileFormat.from g = List.existsb FileFormat.from (contributors k raw)
  /\ FileFormat.to g = List.existsb FileFormat.to (contributors k raw)
  /\ FileFormat.lossless g = List.existsb FileFormat.lossless (contributors k raw).
Proof.
  unfold mergedUnder. destruct (contributors k raw) as [|f rest] eqn:E; [done|].
  intros [= <-]. rewrite mergeFlags_fold_key, mergeFlags_fold_from,
    mergeFlags_fold_to, mergeFlags_fold_lossless. simpl.
  split; [|done].
  assert (H : f ∈ contributors k raw) by (rewrite E; left).
  by apply contributors_elem in H as [_ H].
Qed.

Lemma mergedUnder_is_Some k raw :
  is_Some (mergedUnder k raw) <-> k ∈ List.map formatKey raw.
Proof.
  unfold mergedUnder. split.
  - destruct (contributors k raw) as [|f rest] eqn:E; [by intros [? ?]|].
    intros _. assert (H : f ∈ contributors k raw) by (rewrite E; left).
    apply contributors_elem in H as [H <-]. by apply list_elem_of_fmap_2.
  - intros H. apply list_elem_of_fmap in H as [f [-> Hf]].
    assert (H : f ∈ contributors (formatKey f) raw) by by apply contributors_elem.
    destruct (contributors (formatKey f) raw); [inversion H|eauto].
Qed.

Lemma mergeFormats_pair a b :
  formatKey a = formatKey b -> mergeFormats [a; b] = [mergeFlags a b].
Proof.
  intros Hk. unfold mergeFormats.
  change (List.fold_left mergeStep [a; b] OMap.empty)
    with (mergeStep (mergeStep OMap.empty a) b).
  change (mergeStep OMap.empty a) with [(formatKey a, a)].
  unfold mergeStep. cbn [OMap.get]. rewrite Hk, String.eqb_refl.
  cbn [OMap.set]. by rewrite String.eqb_refl.
Qed.

(** For display names without colon, entries share a key exactly when they
    share the pair of display name and internal id. *)
Lemma formatKey_pair a b :
  noColon (FileFormat.format a) = true -> noColon (FileFormat.format b) = true ->
  formatKey a = formatKey b ->
  FileFormat.format a = FileFormat.format b
  /\ FileFormat.internal a = FileFormat.internal b.
Proof.
  unfold formatKey.
  generalize (FileFormat.internal a) (FileFormat.internal b). intros ia ib.
  generalize (FileFormat.format b). generalize (FileFormat.format a).
  induction s as [|c s IH]; intros [|d t] Hc Hd Hk; cbn in Hc, Hd, Hk.
  - by simplify_eq.
  - injection Hk as <- _. by rewrite Ascii.eqb_refl in Hd.
  - injection Hk as -> _. by rewrite Ascii.eqb_refl in Hc.
  - injection Hk as -> Hk.
    apply andb_true_iff in Hc as [_ Hc]. apply andb_true_iff in Hd as [_ Hd].
    destruct (IH t Hc Hd Hk) as [-> ->]. done.
Qed.

(** The merge, key by key: one entry per key [format::internal], its flags
    the disjunction of the flags of the raw entries under that key, and
    these flags the same for every order of the raw list. *)
Lemma mergeFormats_flags_by_key (rawFormats : list FileFormat) :
  NoDup (List.map formatKey (mergeFormats rawFormats))
  /\ (forall k, k ∈ List.map formatKey (mergeFormats rawFormats)
                <-> k ∈ List.map formatKey rawFormats)
  /\ (forall g, g ∈ mergeFormats rawFormats ->
        let cs := contributors (formatKey g) rawFormats in
        FileFormat.from g = List.existsb FileFormat.from cs
        /\ FileFormat.to g = List.existsb FileFormat.to cs
        /\ FileFormat.lossless g = List.existsb FileFormat.lossless cs)
  /\ (forall rawFormats' g, rawFormats ≡ₚ rawFormats' -> g ∈ mergeFormats rawFormats ->
        exists g', g' ∈ mergeFormats rawFormats'
          /\ formatKey g' = formatKey g
          /\ FileFormat.from g' = FileFormat.from g
          /\ FileFormat.to g' = FileFormat.to g
          /\ FileFormat.lossless g' = FileFormat.lossless g)
  /\ (forall a b, formatKey a = formatKey b ->
        (FileFormat.from a, FileFormat.to a, FileFormat.lossless a) = (true, false, false) ->
        (FileFormat.from b, FileFormat.to b, FileFormat.lossless b) = (false, true, true) ->
        forall l, l = [a; b] \/ l = [b; a] ->
        exists g, mergeFormats l = [g]
          /\ (FileFormat.from g, FileFormat.to g, FileFormat.lossless g) = (true, true, true)).
Proof.
  pose proof (merge_fold_WellKeyed rawFormats _ WellKeyed_empty) as HW.
  split; [|split; [|split; [|split]]].
  - unfold mergeFormats. rewrite (WellKeyed_values_keys _ HW). apply HW.
  - intros k. rewrite <- (mergedUnder_is_Some k rawFormats). split.
    + intros H. apply list_elem_of_fmap in H as [g [-> Hg]].
      apply mergeFormats_elem in Hg. eauto.
    + intros [g Hg]. destruct (mergedUnder_flags _ _ _ Hg) as [Hk _].
      subst k. apply list_elem_of_fmap_2. by apply mergeFormats_elem.
  - intros g Hg. apply mergeFormats_elem in Hg.
    by destruct (mergedUnder_flags _ _ _ Hg) as (_ & ? & ? & ?).
  - intros raw' g Hp Hg. apply mergeFormats_elem in Hg.
    destruct (mergedUnder_flags _ _ _ Hg) as (_ & Hf & Ht & Hl).
    assert (Hs : is_Some (mergedUnder (formatKey g) raw')).
    { apply mergedUnder_is_Some. rewrite <- Hp. apply mergedUnder_is_Some. eauto. }
    destruct Hs as [g' Hg'].
    destruct (mergedUnder_flags _ _ _ Hg') as (Hk' & Hf' & Ht' & Hl').
    exists g'. split.
    { apply mergeFormats_elem. by rewrite Hk'. }
    split; [done|].
    rewrite Hf, Ht, Hl, Hf', Ht', Hl'.
    by rewrite !(existsb_contributors_perm _ _ _ _ Hp).
  - intros a b Hk [= Ha1 Ha2 Ha3] [= Hb1 Hb2 Hb3] l [->| ->].
    + exists (mergeFlags a b). split; [by apply mergeFormats_pair|].
      simpl. by rewrite Ha1, Ha2, Hb2, Hb3.
    + exists (mergeFlags b a). split; [apply mergeFormats_pair; congruence|].
      simpl. by rewrite Hb1, Hb2, Hb3, Ha1, Ha3.
Qed.

Lemma formatKey_identity f g : identity f = identity g -> formatKey f = formatKey g.
Proof. unfold identity, formatKey. by intros [= -> ->]. Qed.

Lemma formatKey_of_identity (l : list FileFormat) :
  List.map formatKey l
  = (fun i : string * string => fst i +:+ "::" +:+ snd i) <$> (identity <$> l).
Proof. by rewrite <- list_fmap_compose. Qed.

Lemma sameDescription_identity g f : sameDescription g f -> identity g = identity f.
Proof. intros (_ & Hf & _ & _ & Hi & _). unfold identity. by rewrite Hf, Hi. Qed.

(** A catalog entry is the first raw entry under its key, with the flags of
    the later ones folded in. *)
Lemma mergeFormats_first raw g :
  g ∈ mergeFormats raw ->
  exists f rest, contributors (formatKey g) raw = f :: rest
    /\ g = List.fold_left mergeFlags rest f
    /\ f ∈ raw /\ formatKey f = formatKey g /\ sameDescription g f.
Proof.
  intros Hg. apply mergeFormats_elem in Hg. unfold mergedUnder in Hg.
  destruct (contributors (formatKey g) raw) as [|f rest] eqn:E; [done|].
  injection Hg as Hg. exists f, rest. split; [done|]. split; [done|].
  assert (Hf : f ∈ contributors (formatKey g) raw) by (rewrite E; left).
  apply contributors_elem in Hf as [Hf Hk].
  split; [done|]. split; [done|]. subst g. apply mergeFlags_fold_rest.
Qed.

(** Where the keys tell the identities apart, the raw entries under the key
    of an entry are the raw entries with its identity. *)
Lemma KeysTellApart_sharing raw f :
  KeysTellApart raw -> f ∈ raw ->
  contributors (formatKey f) raw = sharing (identity f) raw.
Proof.
  intros Hkeys Hf. unfold contributors, sharing. apply filter_ext_in.
  intros x Hx. apply list_elem_of_In in Hx.
  destruct (String.eqb_spec (formatKey x) (formatKey f)) as [Hk|Hk];
    case_bool_decide as Hi; try done.
  - destruct Hi. by apply Hkeys.
  - destruct Hk. by apply formatKey_identity.
Qed.

(** Display names without colon give keys that tell the identities apart. *)
Lemma KeysTellApart_noColon l :
  List.forallb (fun f => noColon (FileFormat.format f)) l = true -> KeysTellApart l.
Proof.
  intros Hall f g Hf Hg Hk. rewrite forallb_forall in Hall.
  apply list_elem_of_In in Hf, Hg.
  destruct (formatKey_pair f g (Hall _ Hf) (Hall _ Hg) Hk) as [E1 E2].
  unfold identity. by rewrite E1, E2.
Qed.

(** C5 (as amended).  The catalog merge keeps exactly one Format per
    identity (display name, internal id); its [from], [to] and [lossless]
    flags are the disjunction of the flags of all contributing entries with
    that identity, so [lossless] is true iff some contributor claims it;
    its other fields are those of the first contributor with that identity;
    the three flags do not depend on the order of the contributing list;
    and merging {from, not to, not lossless} with {not from, to, lossless}
    of one identity gives a single Format with all three flags set, in
    either order, described as the first of the two.  The statement is for
    contributing lists whose keys [format::internal] tell the identities
    apart. *)
Theorem mergeFormats_by_identity (rawFormats : list FileFormat) :
  (KeysTellApart rawFormats ->
   NoDup (List.map identity (mergeFormats rawFormats))
   /\ (forall i, i ∈ List.map identity (mergeFormats rawFormats)
                 <-> i ∈ List.map identity rawFormats)
   /\ (forall g, g ∈ mergeFormats rawFormats ->
         let cs := sharing (identity g) rawFormats in
         FileFormat.from g = List.existsb FileFormat.from cs
         /\ FileFormat.to g = List.existsb FileFormat.to cs
         /\ FileFormat.lossless g = List.existsb FileFormat.lossless cs
         /\ (FileFormat.lossless g = true
             <-> exists c, c ∈ rawFormats /\ identity c = identity g
                           /\ FileFormat.lossless c = true)
         /\ exists first, head cs = Some first /\ sameDescription g first)
   /\ (forall rawFormats' g, rawFormats ≡ₚ rawFormats' -> g ∈ mergeFormats rawFormats ->
         exists g', g' ∈ mergeFormats rawFormats'
           /\ identity g' = identity g /\ flags g' = flags g))
  /\ (forall a b, identity a = identity b ->
        flags a = (true, false, false) -> flags b = (false, true, true) ->
        forall l first, l = [a; b] \/ l = [b; a] -> head l = Some first ->
        exists g, mergeFormats l = [g]
          /\ flags g = (true, true, true) /\ sameDescription g first).
Proof.
  split.
  - intros Hkeys.
    assert (Hown : forall raw g, KeysTellApart raw -> g ∈ mergeFormats raw ->
              contributors (formatKey g) raw = sharing (identity g) raw).
    { intros raw g Hraw Hg.
      destruct (mergeFormats_first _ _ Hg) as (f & rest & _ & _ & Hf & Hk & Hd).
      rewrite <- Hk, (sameDescription_identity _ _ Hd).
      by apply KeysTellApart_sharing. }
    assert (Hcover : forall raw f, KeysTellApart raw -> f ∈ raw ->
              exists g, g ∈ mergeFormats raw /\ identity g = identity f).
    { intros raw f Hraw Hf.
      assert (Hk : formatKey f ∈ List.map formatKey (mergeFormats raw)).
      { apply (proj1 (proj2 (mergeFormats_flags_by_key raw))).
        by apply list_elem_of_fmap_2. }
      apply list_elem_of_fmap in Hk as (g & Hk & Hg).
      exists g. split; [done|].
      destruct (mergeFormats_first _ _ Hg) as (f0 & rest & _ & _ & Hf0 & Hk0 & Hd).
      rewrite (sameDescription_identity _ _ Hd).
      apply Hraw; [done|done|congruence]. }
    split; [|split; [|split]].
    + pose proof (proj1 (mergeFormats_flags_by_key rawFormats)) as Hnd.
      rewrite formatKey_of_identity in Hnd. by apply NoDup_fmap_1 in Hnd.
    + intros i. split.
      * intros Hi. apply list_elem_of_fmap in Hi as (g & -> & Hg).
        destruct (mergeFormats_first _ _ Hg) as (f & rest & _ & _ & Hf & _ & Hd).
        rewrite (sameDescription_identity _ _ Hd). by apply list_elem_of_fmap_2.
      * intros Hi. apply list_elem_of_fmap in Hi as (f & -> & Hf).
        destruct (Hcover _ _ Hkeys Hf) as (g & Hg & <-). by apply list_elem_of_fmap_2.
    + intros g Hg cs. subst cs. rewrite <- (Hown _ _ Hkeys Hg).
      destruct (proj1 (proj2 (proj2 (mergeFormats_flags_by_key rawFormats))) g Hg)
        as (Hfrom & Hto & Hloss).
      split; [done|]. split; [done|]. split; [done|]. split.
      * rewrite Hloss, existsb_elem, (Hown _ _ Hkeys Hg). split.
        -- intros (c & Hc & Hl). unfold sharing in Hc.
           apply list_elem_of_In, filter_In in Hc as [Hc Hi].
           apply bool_decide_eq_true in Hi. apply list_elem_of_In in Hc. by exists c.
        -- intros (c & Hc & Hi & Hl). exists c. split; [|done]. unfold sharing.
           apply list_elem_of_In, filter_In. split; [by apply list_elem_of_In|].
           by apply bool_decide_eq_true.
      * destruct (mergeFormats_first _ _ Hg) as (f & rest & -> & _ & _ & _ & Hd).
        by exists f.
    + intros raw' g Hperm Hg.
      destruct (proj1 (proj2 (proj2 (proj2 (mergeFormats_flags_by_key rawFormats))))
                  raw' g Hperm Hg) as (g' & Hg' & Hk & Hfrom & Hto & Hloss).
      exists g'. split; [done|]. split; [|unfold flags; by rewrite Hfrom, Hto, Hloss].
      destruct (mergeFormats_first _ _ Hg) as (f & ? & _ & _ & Hf & Hkf & Hd).
      destruct (mergeFormats_first _ _ Hg') as (f' & ? & _ & _ & Hf' & Hkf' & Hd').
      rewrite (sameDescription_identity _ _ Hd), (sameDescription_identity _ _ Hd').
      rewrite <- Hperm in Hf'. apply Hkeys; [done|done|congruence].
  - intros a b Hi [= Ha1 Ha2 Ha3] [= Hb1 Hb2 Hb3] l first [->| ->] [= <-].
    + exists (mergeFlags a b). split; [by apply mergeFormats_pair, formatKey_identity|].
      split; [|done]. unfold flags. simpl. by rewrite Ha1, Ha2, Hb2, Hb3.
    + exists (mergeFlags b a).
      split; [by apply mergeFormats_pair, formatKey_identity|].
      split; [|done]. unfold flags. simpl. by rewrite Hb1, Hb2, Hb3, Ha1, Ha3.
Qed.

(** ** Format detection *)

Section FindFacts.
Context {A : Type} (p : A -> bool) (P : A -> Prop).
Hypothesis p_spec : forall x, p x = true <-> P x.

Lemma find_FirstIn l f : List.find p l = Some f <-> FirstIn P l f.
Proof.
  split.
  - induction l as [|a l IH]; simpl; [discriminate|].
    destruct (p a) eqn:E.
    + intros [= ->]. exists [], l. split; [done|]. split; [by apply p_spec|].
      intros x Hx. inversion Hx.
    + intros H. destruct (IH H) as (l1 & l2 & -> & Hf & Hn).
      exists (a :: l1), l2. split; [done|]. split; [done|].
      intros x Hx. apply elem_of_cons in Hx as [->|Hx]; [|by apply Hn].
      rewrite <- p_spec. congruence.
  - intros (l1 & l2 & -> & Hf & Hn).
    induction l1 as [|a l1 IH]; simpl.
    + apply p_spec in Hf. by rewrite Hf.
    + destruct (p a) eqn:E.
      * exfalso. apply (Hn a); [left|by apply p_spec].
      * apply IH. intros x Hx. apply Hn. by right.
Qed.

Lemma find_None_iff l : List.find p l = None <-> forall x, x ∈ l -> ~ P x.
Proof.
  induction l as [|a l IH]; simpl.
  - split; [|done]. intros _ x Hx. inversion Hx.
  - destruct (p a) eqn:E.
    + split; [discriminate|]. intros H. exfalso.
      apply (H a); [left|by apply p_spec].
    + rewrite IH. split.
      * intros H x Hx. apply elem_of_cons in Hx as [->|Hx]; [|by apply H].
        rewrite <- p_spec. congruence.
      * intros H x Hx. apply H. by right.
Qed.

Lemma FirstIn_exists l g : g ∈ l -> P g -> exists f, FirstIn P l f.
Proof.
  intros Hg HP. destruct (List.find p l) as [f|] eqn:E.
  - exists f. by apply find_FirstIn.
  - exfalso. by apply (proj1 (find_None_iff l) E g).
Qed.

End FindFacts.

Lemma FirstIn_elem {A : Type} (P : A -> Prop) l f : FirstIn P l f -> f ∈ l /\ P f.
Proof.
  intros (l1 & l2 & -> & Hf & _). split; [|done].
  apply elem_of_app. right. left.
Qed.

Lemma truthy_spec s : truthy s = true <-> s <> EmptyString.
Proof. unfold truthy. destruct (String.eqb_spec s EmptyString); simpl; split; congruence. Qed.

Lemma byExtensionAndMime_spec toLowerCase extension mime f :
  byExtensionAndMime toLowerCase extension mime f = true <-> ExtensionAndMime toLowerCase extension mime f.
Proof.
  unfold byExtensionAndMime, ExtensionAndMime, truthy.
  rewrite !andb_true_iff, orb_true_iff, negb_true_iff, negb_false_iff.
  rewrite !String.eqb_eq. tauto.
Qed.

Lemma byExtension_spec toLowerCase extension f :
  byExtension toLowerCase extension f = true <-> ExtensionOnly toLowerCase extension f.
Proof.
  unfold byExtension, ExtensionOnly. by rewrite andb_true_iff, String.eqb_eq.
Qed.

Lemma byMime_spec mime f : byMime mime f = true <-> MimeOnly mime f.
Proof. unfold byMime, MimeOnly. by rewrite andb_true_iff, String.eqb_eq. Qed.

(** C6.  Detection goes through three tiers, each over the from-capable
    formats and each returning its first match in catalog order: extension
    and mime (or no mime on the file), then extension alone, then, only when
    the file has a mime, mime alone.  An extension-and-mime match is
    returned in preference to a different format that matches by extension
    only, and the result is null when no tier matches. *)
Theorem detectInputFormat_tiers (toLowerCase normalizeMimeType : string -> string)
  (file : File) (allFormats : list FileFormat) :
  let extension := fileExtension toLowerCase file in
  let mime := normalizeMimeType (File.type file) in
  let detected := detectInputFormat toLowerCase normalizeMimeType file allFormats in
  (forall f, FirstIn (ExtensionAndMime toLowerCase extension mime) allFormats f -> detected = Some f)
  /\ ((forall x, x ∈ allFormats -> ~ ExtensionAndMime toLowerCase extension mime x) ->
      forall f, FirstIn (ExtensionOnly toLowerCase extension) allFormats f -> detected = Some f)
  /\ ((forall x, x ∈ allFormats -> ~ ExtensionOnly toLowerCase extension x) ->
      mime <> EmptyString ->
      forall f, FirstIn (MimeOnly mime) allFormats f -> detected = Some f)
  /\ ((forall x, x ∈ allFormats -> ~ ExtensionOnly toLowerCase extension x) ->
      (mime = EmptyString \/ forall x, x ∈ allFormats -> ~ MimeOnly mime x) ->
      detected = None)
  /\ (forall g g', g ∈ allFormats -> g' ∈ allFormats ->
      ExtensionOnly toLowerCase extension g -> FileFormat.mime g = mime ->
      ExtensionOnly toLowerCase extension g' -> FileFormat.mime g' <> mime ->
      mime <> EmptyString ->
      exists f, detected = Some f /\ ExtensionOnly toLowerCase extension f
                /\ FileFormat.mime f = mime /\ f <> g')
  /\ (forall f, detected = Some f ->
      f ∈ allFormats /\ FileFormat.from f = true
      /\ (toLowerCase (FileFormat.extension f) = extension
          \/ (mime <> EmptyString /\ FileFormat.mime f = mime))).
Proof.
  intros extension mime detected.
  pose proof (find_FirstIn _ _ (byExtensionAndMime_spec toLowerCase extension mime)) as F1.
  pose proof (find_FirstIn _ _ (byExtension_spec toLowerCase extension)) as F2.
  pose proof (find_FirstIn _ _ (byMime_spec mime)) as F3.
  pose proof (find_None_iff _ _ (byExtensionAndMime_spec toLowerCase extension mime)) as N1.
  pose proof (find_None_iff _ _ (byExtension_spec toLowerCase extension)) as N2.
  pose proof (find_None_iff _ _ (byMime_spec mime)) as N3.
  assert (Weak : forall x, ExtensionAndMime toLowerCase extension mime x -> ExtensionOnly toLowerCase extension x).
  { intros x (? & ? & _). by split. }
  subst detected. unfold detectInputFormat. fold extension mime.
  split; [|split; [|split; [|split; [|split]]]].
  - intros f Hf. apply F1 in Hf. by rewrite Hf.
  - intros Hno f Hf. apply N1 in Hno. apply F2 in Hf. by rewrite Hno, Hf.
  - intros Hno Hm f Hf.
    assert (Hno1 : forall x, x ∈ allFormats -> ~ ExtensionAndMime toLowerCase extension mime x)
      by (intros x Hx H; apply (Hno x Hx); auto).
    apply N1 in Hno1. apply N2 in Hno. apply F3 in Hf.
    apply truthy_spec in Hm. by rewrite Hno1, Hno, Hm, Hf.
  - intros Hno Hm.
    assert (Hno1 : forall x, x ∈ allFormats -> ~ ExtensionAndMime toLowerCase extension mime x)
      by (intros x Hx H; apply (Hno x Hx); auto).
    apply N1 in Hno1. apply N2 in Hno. rewrite Hno1, Hno.
    destruct Hm as [->|Hm]; [done|].
    apply N3 in Hm. rewrite Hm. by destruct (truthy mime).
  - intros g g' Hg Hg' [Hgf Hge] Hgm _ Hg'm Hm.
    assert (Hg1 : ExtensionAndMime toLowerCase extension mime g) by (split; auto).
    destruct (FirstIn_exists _ _ (byExtensionAndMime_spec toLowerCase extension mime) _ _ Hg Hg1)
      as [f Hf].
    exists f. pose proof (FirstIn_elem _ _ _ Hf) as [_ (Hff & Hfe & [Hfm|Hfm])];
      [|done].
    apply F1 in Hf. rewrite Hf. repeat split; auto. congruence.
  - destruct (List.find (byExtensionAndMime toLowerCase extension mime) allFormats) as [f1|] eqn:E1.
    { intros f [= <-]. apply F1, FirstIn_elem in E1.
      destruct E1 as [? (? & ? & _)]. auto. }
    destruct (List.find (byExtension toLowerCase extension) allFormats) as [f2|] eqn:E2.
    { intros f [= <-]. apply F2, FirstIn_elem in E2.
      destruct E2 as [? [? ?]]. auto. }
    destruct (truthy mime) eqn:Em; [|done].
    intros f H. apply F3, FirstIn_elem in H. destruct H as [? [? ?]].
    apply truthy_spec in Em. auto.
Qed.

(** ** Bootstrap *)

Lemma omap_get_not_key {V : Type} (m : OMap.t V) k :
  k ∉ OMap.keys m -> OMap.get k m = None.
Proof.
  intros Hk. destruct (OMap.get k m) as [v|] eqn:E; [|done].
  exfalso. apply Hk. apply omap_get_elem in E.
  by apply (list_elem_of_fmap_2 fst) in E.
Qed.

(** Copying a map entry by entry, as [cacheMap.forEach] does, gives a map
    with the same lookups. *)
Lemma copy_get (m : OMap.t (list FileFormat)) : forall m0 r0 k,
  NoDup (OMap.keys m) ->
  OMap.get k (fst (List.fold_left
    (fun acc e => (OMap.set (fst e) (snd e) (fst acc), snd acc ++ snd e)) m (m0, r0)))
  = match OMap.get k m with
    | Some v => Some v
    | None => OMap.get k m0
    end.
Proof.
  induction m as [|[k0 v0] m IH]; intros m0 r0 k Hnd; simpl; [done|].
  apply NoDup_cons in Hnd as [Hk0 Hnd]. rewrite IH by done.
  destruct (String.eqb_spec k0 k) as [->|Hne].
  - rewrite (omap_get_not_key m k Hk0). apply omap_get_set_eq.
  - by rewrite omap_get_set_ne.
Qed.

Lemma loadCache_get entries k :
  OMap.get k (fst (loadCache (Some entries))) = OMap.get k (OMap.of_entries entries).
Proof.
  unfold loadCache. rewrite copy_get by apply omap_of_entries_NoDup.
  by destruct (OMap.get k (OMap.of_entries entries)).
Qed.

Section BootstrapFacts.

Variable World : Type.
Variable handlerInit :
  FormatHandler -> World -> World * (option (list FileFormat) * bool).

Implicit Types (st : BootState World) (hs : list FormatHandler).

Lemma ResolvedBy_cons h hs n fs : ResolvedBy handlerInit hs n fs -> ResolvedBy handlerInit (h :: hs) n fs.
Proof. intros (h' & w0 & w1 & ? & ? & ?). exists h', w0, w1. split; [by right|done]. Qed.

(** One iteration on a handler that the cache already lists. *)
Lemma initHandler_cached st handler fs :
  OMap.get (FormatHandler.name handler) (bootCache st) = Some fs ->
  initHandler handlerInit st handler = (st, FormatHandler.mk (FormatHandler.name handler) (Some fs)).
Proof. unfold initHandler. by intros ->. Qed.

(** One iteration on a handler whose [init] rejects: only the outside world
    and the call log move. *)
Lemma initHandler_rejected st handler w supported :
  OMap.get (FormatHandler.name handler) (bootCache st) = None ->
  handlerInit handler (bootWorld st) = (w, (supported, false)) ->
  initHandler handlerInit st handler
  = (mkBoot w (bootCache st) (bootRaw st)
       (bootLog st ++ [InitCalled (FormatHandler.name handler)]),
     FormatHandler.mk (FormatHandler.name handler) supported).
Proof. unfold initHandler. by intros -> ->. Qed.

Lemma initHandler_cache_grows st handler k v :
  OMap.get k (bootCache st) = Some v ->
  OMap.get k (bootCache (fst (initHandler handlerInit st handler))) = Some v.
Proof.
  intros Hk. unfold initHandler.
  destruct (OMap.get (FormatHandler.name handler) (bootCache st)) eqn:E; [done|].
  destruct (handlerInit handler (bootWorld st)) as [w [[fs|] [|]]]; simpl; auto.
  rewrite omap_get_set_ne; [done|]. congruence.
Qed.

Lemma initHandlers_cache_grows hs : forall st k v,
  OMap.get k (bootCache st) = Some v ->
  OMap.get k (bootCache (fst (initHandlers handlerInit st hs))) = Some v.
Proof.
  induction hs as [|h hs IH]; intros st k v Hk; simpl; [done|].
  pose proof (initHandler_cache_grows st h k v Hk) as H1.
  destruct (initHandler handlerInit st h) as [st1 h1]. simpl in H1.
  specialize (IH st1 k v H1).
  by destruct (initHandlers handlerInit st1 hs) as [st2 hs2].
Qed.

(** A handler listed in the cache gets the cached list, whatever its place
    in the registry. *)
Lemma initHandlers_adopts hs : forall st i h fs,
  hs !! i = Some h ->
  OMap.get (FormatHandler.name h) (bootCache st) = Some fs ->
  snd (initHandlers handlerInit st hs) !! i = Some (FormatHandler.mk (FormatHandler.name h) (Some fs)).
Proof.
  induction hs as [|h0 hs IH]; intros st i h fs Hi Hk; [done|]. simpl.
  destruct i as [|i]; simpl in Hi.
  - injection Hi as ->. rewrite (initHandler_cached st h fs Hk).
    by destruct (initHandlers handlerInit st hs).
  - pose proof (initHandler_cache_grows st h0 _ _ Hk) as H1.
    destruct (initHandler handlerInit st h0) as [st1 h1]. simpl in H1.
    specialize (IH st1 i h fs Hi H1).
    by destruct (initHandlers handlerInit st1 hs).
Qed.

(** [init] is only called on handlers the cache does not list. *)
Lemma initHandlers_log hs : forall st,
  exists l, bootLog (fst (initHandlers handlerInit st hs)) = bootLog st ++ l
    /\ forall e, e ∈ l -> exists h, e = InitCalled (FormatHandler.name h) /\ h ∈ hs
         /\ OMap.get (FormatHandler.name h) (bootCache st) = None.
Proof.
  induction hs as [|h hs IH]; intros st; simpl.
  - exists []. split; [by rewrite app_nil_r|]. intros e He. inversion He.
  - destruct (initHandler handlerInit st h) as [st1 h1] eqn:E1.
    destruct (IH st1) as (l & Hl & Hev).
    destruct (initHandlers handlerInit st1 hs) as [st2 hs2]. simpl in *.
    assert (Hmono : forall k, OMap.get k (bootCache st1) = None ->
                              OMap.get k (bootCache st) = None).
    { intros k Hk. destruct (OMap.get k (bootCache st)) eqn:E; [|done].
      pose proof (initHandler_cache_grows st h k _ E) as H.
      rewrite E1 in H. simpl in H. congruence. }
    unfold initHandler in E1.
    destruct (OMap.get (FormatHandler.name h) (bootCache st)) eqn:Ec.
    + injection E1 as <- <-. exists l. split; [done|].
      intros e He. destruct (Hev e He) as (h' & -> & Hh' & Hn).
      exists h'. split; [done|]. split; [by right|done].
    + exists (InitCalled (FormatHandler.name h) :: l). split.
      * rewrite Hl.
        destruct (handlerInit h (bootWorld st)) as [w [[fs|] [|]]];
          injection E1 as <- <-; simpl; by rewrite <- app_assoc.
      * intros e He. apply elem_of_cons in He as [->|He].
        { exists h. split; [done|]. split; [left|done]. }
        destruct (Hev e He) as (h' & -> & Hh' & Hn).
        exists h'. split; [done|]. split; [by right|auto].
Qed.

(** Where the cache and the raw format list come from. *)
Lemma initHandlers_origin hs : forall st,
  let st' := fst (initHandlers handlerInit st hs) in
  (forall n fs, OMap.get n (bootCache st') = Some fs ->
     OMap.get n (bootCache st) = Some fs \/ ResolvedBy handlerInit hs n fs)
  /\ exists extra, bootRaw st' = bootRaw st ++ extra
       /\ forall f, f ∈ extra -> exists n fs, ResolvedBy handlerInit hs n fs /\ f ∈ fs.
Proof.
  induction hs as [|h hs IH]; intros st; simpl.
  - split; [auto|]. exists []. split; [by rewrite app_nil_r|].
    intros f Hf. inversion Hf.
  - destruct (initHandler handlerInit st h) as [st1 h1] eqn:E1.
    destruct (IH st1) as (Hc & extra & Hr & Hex).
    destruct (initHandlers handlerInit st1 hs) as [st2 hs2]. simpl in *.
    unfold initHandler in E1.
    destruct (OMap.get (FormatHandler.name h) (bootCache st)) eqn:Ec.
    { injection E1 as <- <-. split.
      - intros n fs Hn. destruct (Hc n fs Hn); [by left|right; by apply ResolvedBy_cons].
      - exists extra. split; [done|]. intros f Hf.
        destruct (Hex f Hf) as (n & fs & ? & ?). exists n, fs.
        split; [by apply ResolvedBy_cons|done]. }
    destruct (handlerInit h (bootWorld st)) as [w [[fs0|] [|]]] eqn:Ei;
      injection E1 as <- <-; simpl in *.
    2-4: split;
      [ intros n fs Hn; destruct (Hc n fs Hn); [by left|right; by apply ResolvedBy_cons]
      | exists extra; split; [done|]; intros f Hf;
        destruct (Hex f Hf) as (n & fs & ? & ?); exists n, fs;
        split; [by apply ResolvedBy_cons|done] ].
    assert (Hme : ResolvedBy handlerInit (h :: hs) (FormatHandler.name h) fs0).
    { exists h, (bootWorld st), w. split; [left|done]. }
    split.
    + intros n fs Hn. destruct (Hc n fs Hn) as [Hs|Hs];
        [|right; by apply ResolvedBy_cons].
      destruct (String.eqb_spec (FormatHandler.name h) n) as [<-|Hne].
      * rewrite omap_get_set_eq in Hs. injection Hs as <-. by right.
      * rewrite omap_get_set_ne in Hs by done. by left.
    + exists (fs0 ++ extra). split; [by rewrite Hr, app_assoc|].
      intros f Hf. apply elem_of_app in Hf as [Hf|Hf].
      * by exists (FormatHandler.name h), fs0.
      * destruct (Hex f Hf) as (n & fs & ? & ?). exists n, fs.
        split; [by apply ResolvedBy_cons|done].
Qed.

Lemma initHandlers_all_rejected hs : forall st,
  (forall h w0, h ∈ hs -> snd (snd (handlerInit h w0)) = false) ->
  bootCache (fst (initHandlers handlerInit st hs)) = bootCache st
  /\ bootRaw (fst (initHandlers handlerInit st hs)) = bootRaw st.
Proof.
  induction hs as [|h hs IH]; intros st Hrej; simpl; [done|].
  assert (E1 : bootCache (fst (initHandler handlerInit st h)) = bootCache st
               /\ bootRaw (fst (initHandler handlerInit st h)) = bootRaw st).
  { unfold initHandler.
    destruct (OMap.get (FormatHandler.name h) (bootCache st)); [done|].
    pose proof (Hrej h (bootWorld st) ltac:(left)) as Hr.
    destruct (handlerInit h (bootWorld st)) as [w [[fs|] [|]]];
      simpl in *; done. }
  destruct (initHandler handlerInit st h) as [st1 h1]. simpl in E1. destruct E1 as [Ec Er].
  destruct (IH st1) as [Hc Hr]; [intros; apply Hrej; by right|].
  destruct (initHandlers handlerInit st1 hs) as [st2 hs2]. simpl in *. by rewrite Hc, Hr.
Qed.

Lemma initHandlers_length hs : forall st,
  length (snd (initHandlers handlerInit st hs)) = length hs.
Proof.
  induction hs as [|h hs IH]; intros st; simpl; [done|].
  destruct (initHandler handlerInit st h) as [st1 h1]. specialize (IH st1).
  destruct (initHandlers handlerInit st1 hs). simpl in *. by rewrite IH.
Qed.

End BootstrapFacts.

Lemma mergeFormats_contributor raw g :
  g ∈ mergeFormats raw -> exists f, f ∈ raw /\ formatKey f = formatKey g.
Proof.
  intros Hg. apply mergeFormats_elem in Hg.
  assert (Hs : is_Some (mergedUnder (formatKey g) raw)) by eauto.
  apply mergedUnder_is_Some, list_elem_of_fmap in Hs as [f [Hk Hf]]. eauto.
Qed.

(** C7.  A handler that the loaded snapshot lists is never initialised
    during bootstrap and ends up with exactly the snapshot's format list;
    [init] is invoked only on handlers the snapshot does not list. *)
Theorem snapshot_handlers_adopt_cache {World : Type}
  (handlerInit : FormatHandler -> World -> World * (option (list FileFormat) * bool))
  (registry : list FormatHandler) (entries : list (string * list FileFormat))
  (w : World) :
  let r := initializeEngine handlerInit registry (Some entries) w in
  let calls := snd (fst r) in
  let engine := snd r in
  (forall i h fs,
     registry !! i = Some h ->
     OMap.get (FormatHandler.name h) (OMap.of_entries entries) = Some fs ->
     ConversionEngine.handlers engine !! i
       = Some (FormatHandler.mk (FormatHandler.name h) (Some fs))
     /\ InitCalled (FormatHandler.name h) ∉ calls)
  /\ (forall n, InitCalled n ∈ calls ->
        OMap.get n (OMap.of_entries entries) = None
        /\ exists h, h ∈ registry /\ FormatHandler.name h = n).
Proof.
  unfold initializeEngine.
  pose proof (loadCache_get entries) as Hget.
  destruct (loadCache (Some entries)) as [cache0 raw0]. simpl in Hget.
  set (st0 := mkBoot w cache0 raw0 []).
  pose proof (initHandlers_adopts World handlerInit registry st0) as Hadopt.
  destruct (initHandlers_log World handlerInit registry st0) as (l & Hl & Hev).
  destruct (initHandlers handlerInit st0 registry) as [st hs]. simpl in *.
  subst l.
  assert (Hcalls : forall n, InitCalled n ∈ bootLog st ->
            OMap.get n (OMap.of_entries entries) = None
            /\ exists h, h ∈ registry /\ FormatHandler.name h = n).
  { intros n Hn. destruct (Hev _ Hn) as (h & [= ->] & Hh & Hnone).
    rewrite <- Hget. eauto. }
  split; [|done].
  intros i h fs Hi Hfs. split.
  - apply Hadopt; [done|]. by rewrite Hget.
  - intros Hin. destruct (Hcalls _ Hin) as [Hnone _]. congruence.
Qed.

(** ** Event logs *)

Lemma scan_app seen l1 l2 : scan seen (l1 ++ l2) = scan (scan seen l1) l2.
Proof.
  revert seen. induction l1 as [|e l1 IH]; intros seen; simpl; [done|].
  destruct e; auto.
Qed.

Lemma failedIn_app l1 l2 : failedIn (l1 ++ l2) = failedIn l1 ++ failedIn l2.
Proof.
  induction l1 as [|e l1 IH]; simpl; [done|].
  destruct e; simpl; auto. by rewrite IH.
Qed.

Lemma scan_spec l : forall seen key, key ∈ scan seen l <-> key ∈ seen \/ key ∈ failedIn l.
Proof.
  induction l as [|e l IH]; intros seen key; simpl.
  - split; [by left|]. intros [H|H]; [done|inversion H].
  - destruct e; rewrite ?IH; try tauto.
    rewrite elem_of_union, elem_of_singleton, elem_of_cons. tauto.
Qed.

Lemma NoRetry_app l1 : forall seen l2,
  NoRetry seen (l1 ++ l2) <-> NoRetry seen l1 /\ NoRetry (scan seen l1) l2.
Proof.
  induction l1 as [|e l1 IH]; intros seen l2; simpl; [tauto|].
  destruct e; rewrite ?IH; tauto.
Qed.

Lemma NoRetry_trying l : forall seen q key,
  NoRetry seen l -> Trying q ∈ l -> pathKey q = Some key -> key ∉ seen.
Proof.
  induction l as [|e l IH]; intros seen q key Hn Hin Hk; [inversion Hin|].
  apply elem_of_cons in Hin as [<-|Hin].
  - simpl in Hn. by apply Hn.
  - destruct e; simpl in Hn; try (by eapply IH).
    + destruct Hn as [_ Hn]. by eapply IH.
    + intros Hseen. eapply IH; [exact Hn|exact Hin|exact Hk|].
      apply elem_of_union. by right.
Qed.

(** Once a key is reported failed, no later attempt has that key. *)
Lemma NoRetry_after_failure seen l1 key l2 q :
  NoRetry seen (l1 ++ PathFailed key :: l2) -> Trying q ∈ l2 -> pathKey q <> Some key.
Proof.
  intros Hn Hin Hk. apply NoRetry_app in Hn as [_ Hn]. simpl in Hn.
  eapply NoRetry_trying; [exact Hn|exact Hin|exact Hk|].
  apply elem_of_union. left. by apply elem_of_singleton.
Qed.

Lemma hopEvents_quiet l seen :
  Forall hopEvent l -> NoRetry seen l /\ scan seen l = seen /\ failedIn l = [].
Proof.
  induction 1 as [|e l He Hl IH]; simpl; [done|].
  destruct e; simpl in He; try done.
Qed.

(** ** Path signatures *)

Lemma mapM_nodeKey (path : Path) :
  mapM nodeKey path
  = List.map (fun s => fst s +:+ ":" +:+ snd s) <$> mapM nodeSignature path.
Proof.
  induction path as [|n path IH]; [done|].
  assert (Hn : nodeKey n = (fun s => fst s +:+ ":" +:+ snd s) <$> nodeSignature n).
  { unfold nodeKey, nodeSignature. by destruct (ConvertPathNode.handler n). }
  cbn [mapM]. rewrite IH, Hn.
  destruct (nodeSignature n); [|done].
  by destruct (mapM nodeSignature path).
Qed.

(** Paths with one signature have one key, so a key test can only skip
    more. *)
Lemma signature_pathKey (p q : Path) : signature p = signature q -> pathKey p = pathKey q.
Proof.
  unfold signature, pathKey. rewrite !mapM_nodeKey. by intros ->.
Qed.

(** ** The executor *)

Section ExecutorFacts.

Context {World : Type}.
Variable handlerReady : FormatHandler -> World -> bool.
Variable handlerInit :
  FormatHandler -> World -> World * (option (list FileFormat) * bool).
Variable doConvert :
  FormatHandler -> list FileData -> FileFormat -> FileFormat ->
  World -> World * option (list FileData).
Context {Iter : Type}.
Variable searchPath :
  TraversionGraph -> ConvertPathNode -> ConvertPathNode -> bool -> Iter.
Variable next : Iter -> TraversionGraph -> option (Path * Iter).

#[local] Abbreviation hops := (runHops handlerReady handlerInit doConvert).
#[local] Abbreviation attempt := (runPath handlerReady handlerInit doConvert).
#[local] Abbreviation loop := (tryPaths handlerReady handlerInit doConvert next).

Implicit Types (st : ExecState World) (it : Iter) (path : Path).

(** The hop loop only reports hop events. *)
Lemma runHops_log rest : forall prev files w lg,
  exists l, snd (fst (hops prev rest files w lg)) = lg ++ l /\ Forall hopEvent l.
Proof.
  induction rest as [|node rest IH]; intros prev files w lg; simpl.
  - exists []. by rewrite app_nil_r.
  - set (ev := Converting (ConvertPathNode.format prev) (ConvertPathNode.format node)).
    assert (Hev : hopEvent ev) by done.
    destruct (ConvertPathNode.handler node) as [h|].
    2: { exists [ev]. split; [done|]. by repeat constructor. }
    destruct (handlerReady h w).
    + destruct (doConvert h files _ _ w) as [w2 [out|]].
      2: { exists [ev]. split; [done|]. by repeat constructor. }
      destruct (List.existsb emptyBytes out).
      { exists [ev]. split; [done|]. by repeat constructor. }
      destruct (IH node out w2 (lg ++ [ev])) as (l & -> & Hl).
      exists (ev :: l). split; [by rewrite <- app_assoc|]. by constructor.
    + set (ev2 := InitCalled (FormatHandler.name h)).
      assert (Hev2 : hopEvent ev2) by done.
      destruct (handlerInit h w) as [w' [sf [|]]].
      2: { exists [ev; ev2]. split; [by rewrite <- app_assoc|]. by repeat constructor. }
      destruct (doConvert h files _ _ w') as [w2 [out|]].
      2: { exists [ev; ev2]. split; [by rewrite <- app_assoc|]. by repeat constructor. }
      destruct (List.existsb emptyBytes out).
      { exists [ev; ev2]. split; [by rewrite <- app_assoc|]. by repeat constructor. }
      destruct (IH node out w2 ((lg ++ [ev]) ++ [ev2])) as (l & -> & Hl).
      exists (ev :: ev2 :: l). split; [by rewrite <- !app_assoc|].
      by repeat constructor.
Qed.

Lemma runPath_log path files w lg :
  exists l, snd (fst (attempt path files w lg)) = lg ++ l /\ Forall hopEvent l.
Proof.
  destruct path as [|first rest]; simpl.
  - exists []. by rewrite app_nil_r.
  - apply runHops_log.
Qed.

(** What a run of the [for await] loop adds to the log, to the local set
    of failed keys and to the dead-end memory of the graph. *)
Lemma tryPaths_inv inputFormat outputFormat files fuel : forall it st st' out,
  loop fuel inputFormat outputFormat files it st = (st', out) ->
  exists l ps,
    log st' = log st ++ l
    /\ NoRetry (failedPaths st) l
    /\ scan (failedPaths st) l = failedPaths st'
    /\ TraversionGraph.deadEndPaths (graph st')
       = TraversionGraph.deadEndPaths (graph st) ++ ps
    /\ List.map pathKey ps = List.map Some (failedIn l).
Proof.
  induction fuel as [|fuel IH]; intros it st st' out Hrun; simpl in Hrun.
  { injection Hrun as <- <-. exists [], []. by rewrite !app_nil_r. }
  destruct (next it (graph st)) as [[path it']|] eqn:En.
  2: { injection Hrun as <- <-. exists [], []. by rewrite !app_nil_r. }
  destruct (pathKey path) as [key|] eqn:Ek.
  2: { injection Hrun as <- <-. exists [], []. by rewrite !app_nil_r. }
  case_bool_decide as Hseen; [by apply IH in Hrun|].
  destruct (runPath_log path files (world st) (log st ++ [Trying path]))
    as (lh & Hlg & Hq).
  destruct (attempt path files (world st) (log st ++ [Trying path]))
    as [[w lg] [err|cur]]; simpl in Hlg; subst lg.
  - apply IH in Hrun as (l & ps & Hl & Hn & Hs & Hd & Hk). simpl in *.
    destruct (hopEvents_quiet lh (failedPaths st) Hq) as (Hq1 & Hq2 & Hq3).
    exists (Trying path :: lh ++ PathFailed key :: l), (path :: ps).
    split; [|split; [|split; [|split]]].
    + rewrite Hl. by rewrite <- !app_assoc.
    + simpl. split; [intros k; congruence|].
      apply NoRetry_app. split; [done|]. by rewrite Hq2.
    + simpl. by rewrite scan_app, Hq2.
    + rewrite Hd. by rewrite <- app_assoc.
    + simpl. rewrite failedIn_app, Hq3. simpl. by rewrite Hk, Ek.
  - destruct (Nat.ltb 0 (length cur)).
    + injection Hrun as <- <-. simpl.
      destruct (hopEvents_quiet lh (failedPaths st) Hq) as (Hq1 & Hq2 & Hq3).
      exists (Trying path :: lh ++ [Complete]), [].
      split; [by rewrite <- !app_assoc|].
      simpl. rewrite app_nil_r, failedIn_app, scan_app, Hq2, Hq3.
      split; [|done]. split; [intros k; congruence|].
      apply NoRetry_app. by rewrite Hq2.
    + apply IH in Hrun as (l & ps & Hl & Hn & Hs & Hd & Hk). simpl in *.
      destruct (hopEvents_quiet lh (failedPaths st) Hq) as (Hq1 & Hq2 & Hq3).
      exists (Trying path :: lh ++ l), ps.
      split; [|split; [|split; [|split]]]; auto.
      * rewrite Hl. by rewrite <- !app_assoc.
      * simpl. split; [intros k; congruence|].
        apply NoRetry_app. split; [done|]. by rewrite Hq2.
      * simpl. by rewrite scan_app, Hq2.
      * simpl. by rewrite failedIn_app, Hq3.
Qed.

End ExecutorFacts.
Example sample_run_log :
  log (fst (Sample.run [Sample.direct1; Sample.direct1; Sample.viaPdf] 5))
  = [Reading; Finding; Trying Sample.direct1; Converting Sample.svg Sample.png;
     InitCalled "H1"; PathFailed "H1:svg->H1:png";
     Trying Sample.viaPdf; Converting Sample.svg Sample.pdf; InitCalled "H2";
     Converting Sample.pdf Sample.png; Complete].
Proof. vm_compute. reflexivity. Qed.

Section ExecutorProperties.

Context {World : Type}.
Variable handlerReady : FormatHandler -> World -> bool.
Variable handlerInit :
  FormatHandler -> World -> World * (option (list FileFormat) * bool).
Variable doConvert :
  FormatHandler -> list FileData -> FileFormat -> FileFormat ->
  World -> World * option (list FileData).
Context {Iter : Type}.
Variable searchPath :
  TraversionGraph -> ConvertPathNode -> ConvertPathNode -> bool -> Iter.
Variable next : Iter -> TraversionGraph -> option (Path * Iter).

#[local] Abbreviation hops := (runHops handlerReady handlerInit doConvert).
#[local] Abbreviation attempt := (runPath handlerReady handlerInit doConvert).
#[local] Abbreviation loop := (tryPaths handlerReady handlerInit doConvert next).
#[local] Abbreviation convert :=
  (convertFiles handlerReady handlerInit doConvert searchPath next).
#[local] Abbreviation exhausts :=
  (Exhausts handlerReady handlerInit doConvert next).

Implicit Types (st : ExecState World) (it : Iter) (path : Path).

(** *** Single steps of the loop *)

Lemma tryPaths_skip fuel inputFormat outputFormat files it st path it' key :
  next it (graph st) = Some (path, it') ->
  pathKey path = Some key ->
  key ∈ failedPaths st ->
  loop (S fuel) inputFormat outputFormat files it st
  = loop fuel inputFormat outputFormat files it' st.
Proof.
  intros Hn Hk Hs. cbn [tryPaths]. rewrite Hn, Hk.
  by rewrite bool_decide_eq_true_2.
Qed.

Lemma tryPaths_threw fuel inputFormat outputFormat files it st path it' key w lg err :
  next it (graph st) = Some (path, it') ->
  pathKey path = Some key ->
  key ∉ failedPaths st ->
  attempt path files (world st) (log st ++ [Trying path]) = (w, lg, Threw err) ->
  loop (S fuel) inputFormat outputFormat files it st
  = loop fuel inputFormat outputFormat files it'
      (mkExec w (TraversionGraph.addDeadEndPath path (graph st))
         ({[ key ]} ∪ failedPaths st) (lg ++ [PathFailed key])).
Proof.
  intros Hn Hk Hs Hr. cbn [tryPaths]. rewrite Hn, Hk.
  by rewrite bool_decide_eq_false_2, Hr.
Qed.

Lemma tryPaths_no_files fuel inputFormat outputFormat files it st path it' key w lg :
  next it (graph st) = Some (path, it') ->
  pathKey path = Some key ->
  key ∉ failedPaths st ->
  attempt path files (world st) (log st ++ [Trying path]) = (w, lg, Finished []) ->
  loop (S fuel) inputFormat outputFormat files it st
  = loop fuel inputFormat outputFormat files it'
      (mkExec w (graph st) (failedPaths st) lg).
Proof.
  intros Hn Hk Hs Hr. cbn [tryPaths]. rewrite Hn, Hk.
  by rewrite bool_decide_eq_false_2, Hr.
Qed.

Lemma tryPaths_success fuel inputFormat outputFormat files it st path it' key w lg cur :
  next it (graph st) = Some (path, it') ->
  pathKey path = Some key ->
  key ∉ failedPaths st ->
  attempt path files (world st) (log st ++ [Trying path]) = (w, lg, Finished cur) ->
  cur <> [] ->
  loop (S fuel) inputFormat outputFormat files it st
  = (mkExec w (graph st) (failedPaths st) (lg ++ [Complete]),
     Resolved (ConversionResult.mk cur path)).
Proof.
  intros Hn Hk Hs Hr Hc. cbn [tryPaths]. rewrite Hn, Hk.
  rewrite bool_decide_eq_false_2, Hr by done.
  by destruct cur.
Qed.

(** *** Exhaustion *)

Lemma tryPaths_rejected fuel inputFormat outputFormat files : forall it st st' e,
  loop fuel inputFormat outputFormat files it st = (st', Rejected e) ->
  (e = ErrorMessage (noPathMessage inputFormat outputFormat)
   /\ exhausts files it st st')
  \/ (e = TypeError /\ exists it0 g path it1,
        next it0 g = Some (path, it1) /\ pathKey path = None).
Proof.
  induction fuel as [|fuel IH]; intros it st st' e Hrun; [done|].
  cbn [tryPaths] in Hrun.
  destruct (next it (graph st)) as [[path it']|] eqn:En.
  2: { injection Hrun as <- <-. left. split; [done|]. by constructor. }
  destruct (pathKey path) as [key|] eqn:Ek.
  2: { injection Hrun as <- <-. right. split; [done|]. by exists it, (graph st), path, it'. }
  case_bool_decide as Hseen.
  { apply IH in Hrun as [[-> Hex]|Hty]; [left|by right].
    split; [done|]. by eapply exhausts_skip. }
  destruct (attempt path files (world st) (log st ++ [Trying path]))
    as [[w lg] [err|cur]] eqn:Er.
  - apply IH in Hrun as [[-> Hex]|Hty]; [left|by right].
    split; [done|]. by eapply exhausts_fail.
  - destruct cur as [|f cur]; [|done]. simpl in Hrun.
    apply IH in Hrun as [[-> Hex]|Hty]; [left|by right].
    split; [done|]. by eapply exhausts_empty.
Qed.

Lemma exhausts_rejected inputFormat outputFormat files it st st' :
  exhausts files it st st' ->
  exists n, forall fuel, n <= fuel ->
    loop fuel inputFormat outputFormat files it st
    = (st', Rejected (ErrorMessage (noPathMessage inputFormat outputFormat))).
Proof.
  induction 1 as [it st Hn
                 |it st path it' key st' Hn Hk Hs _ [n IH]
                 |it st path it' key w lg err st' Hn Hk Hs Hr _ [n IH]
                 |it st path it' key w lg st' Hn Hk Hs Hr _ [n IH]].
  - exists 1. intros [|fuel] Hf; [lia|]. cbn [tryPaths]. by rewrite Hn.
  - exists (S n). intros [|fuel] Hf; [lia|].
    rewrite (tryPaths_skip _ _ _ _ _ _ _ _ _ Hn Hk Hs). apply IH. lia.
  - exists (S n). intros [|fuel] Hf; [lia|].
    rewrite (tryPaths_threw _ _ _ _ _ _ _ _ _ _ _ _ Hn Hk Hs Hr). apply IH. lia.
  - exists (S n). intros [|fuel] Hf; [lia|].
    rewrite (tryPaths_no_files _ _ _ _ _ _ _ _ _ _ _ Hn Hk Hs Hr). apply IH. lia.
Qed.

(** *** Zero-length output *)

Lemma hopOutputs_empty_throws rest : forall prev files w lg,
  (exists out, out ∈ hopOutputs handlerReady handlerInit doConvert prev rest files w
               /\ List.existsb emptyBytes out = true) ->
  snd (hops prev rest files w lg) = Threw OutputIsEmpty.
Proof.
  induction rest as [|node rest IH]; intros prev files w lg [out [Hin Hz]];
    simpl in *; [inversion Hin|].
  destruct (ConvertPathNode.handler node) as [h|]; [|inversion Hin].
  destruct (handlerReady h w).
  - destruct (doConvert h files _ _ w) as [w2 [o|]]; [|inversion Hin].
    destruct (List.existsb emptyBytes o) eqn:Eo; [done|].
    apply elem_of_cons in Hin as [->|Hin]; [congruence|].
    apply IH. eauto.
  - destruct (handlerInit h w) as [w' [sf [|]]]; [|inversion Hin].
    destruct (doConvert h files _ _ w') as [w2 [o|]]; [|inversion Hin].
    destruct (List.existsb emptyBytes o) eqn:Eo; [done|].
    apply elem_of_cons in Hin as [->|Hin]; [congruence|].
    apply IH. eauto.
Qed.

Lemma emptyBytes_spec f : emptyBytes f = true <-> length (FileData.bytes f) = 0.
Proof. unfold emptyBytes. apply Nat.eqb_eq. Qed.

(** *** Properties of [convertFiles] *)

(** C1.  Within one call of [convertFiles] a path whose signature has been
    recorded as failed is never attempted again.  The call starts from an
    empty dead-end memory, whatever the graph held before: at any moment the
    memory holds exactly the paths reported failed in this call, in order,
    and the local set holds exactly their keys; and once a path has been
    reported failed, no path with the same signature is tried later in the
    call. *)
Theorem no_retry_of_failed_path (fuel : nat) (inputFiles : list File)
  (inputFormat outputFormat : FileFormat) (engine : ConversionEngine)
  (simpleMode : bool) (w : World) :
  let st := fst (convert fuel inputFiles inputFormat outputFormat engine simpleMode w) in
  List.map pathKey (TraversionGraph.deadEndPaths (graph st))
    = List.map Some (failedIn (log st))
  /\ (forall key, key ∈ failedPaths st <-> key ∈ failedIn (log st))
  /\ (forall l1 l2 p q key,
        log st = l1 ++ l2 ->
        pathKey p = Some key -> PathFailed key ∈ l1 ->
        signature q = signature p ->
        Trying q ∉ l2).
Proof.
  unfold convertFiles.
  match goal with |- context [tryPaths _ _ _ _ ?f ?i ?o ?fs ?it ?s0] =>
    destruct (tryPaths handlerReady handlerInit doConvert next f i o fs it s0)
      as [st out] eqn:Hrun end.
  apply tryPaths_inv in Hrun as (l & ps & Hl & Hn & Hs & Hd & Hk).
  simpl in *. split; [|split].
  - by rewrite Hd, Hl.
  - intros key. rewrite <- Hs, scan_spec, Hl. simpl.
    split; [intros [H|H]; [by apply not_elem_of_empty in H|done]|by right].
  - intros l1 l2 p q key Hsplit Hp Hf Hsig Hq.
    apply list_elem_of_split in Hf as (a & b & ->).
    assert (Hall : NoRetry ∅ (a ++ PathFailed key :: (b ++ l2))).
    { replace (a ++ PathFailed key :: b ++ l2)
        with ((a ++ PathFailed key :: b) ++ l2) by by rewrite <- app_assoc.
      by rewrite <- Hsplit, Hl. }
    eapply (NoRetry_after_failure _ _ _ _ q Hall).
    + apply elem_of_app. by right.
    + by rewrite (signature_pathKey q p Hsig).
Qed.

(** C2.  When some hop of a candidate path returns a file of zero length,
    the attempt ends with the "Output is empty" error although no handler
    threw; the path is added to the dead-end memory, its key is added to
    the local failed set, and the loop goes on with the next candidate
    instead of returning. *)
Theorem zero_length_output_fails_path (fuel : nat)
  (inputFormat outputFormat : FileFormat) (files : list FileData)
  it st path it' key :
  next it (graph st) = Some (path, it') ->
  pathKey path = Some key ->
  key ∉ failedPaths st ->
  (exists out f,
     out ∈ pathOutputs handlerReady handlerInit doConvert path files (world st)
     /\ f ∈ out /\ length (FileData.bytes f) = 0) ->
  exists w lg,
    attempt path files (world st) (log st ++ [Trying path]) = (w, lg, Threw OutputIsEmpty)
    /\ loop (S fuel) inputFormat outputFormat files it st
       = loop fuel inputFormat outputFormat files it'
           (mkExec w (TraversionGraph.addDeadEndPath path (graph st))
              ({[ key ]} ∪ failedPaths st) (lg ++ [PathFailed key])).
Proof.
  intros Hn Hk Hs (out & f & Hout & Hf & Hz).
  assert (Hthrow : snd (attempt path files (world st) (log st ++ [Trying path]))
                   = Threw OutputIsEmpty).
  { destruct path as [|first rest]; [inversion Hout|]. simpl in *.
    apply hopOutputs_empty_throws. exists out. split; [done|].
    apply existsb_elem. exists f. split; [done|]. by apply emptyBytes_spec. }
  destruct (attempt path files (world st) (log st ++ [Trying path]))
    as [[w lg] a] eqn:Er. simpl in Hthrow. subst a.
  exists w, lg. split; [done|]. by eapply tryPaths_threw.
Qed.

(** C3.  A failure inside a path is never surfaced by itself: the loop
    records it and goes on.  A path that finishes its hops with at least one
    file makes the call resolve at once with these files and this path.  The
    call rejects with the terminal error exactly when the candidate sequence
    is exhausted without success, and the message of that error names the
    requested input and output formats. *)
Theorem only_exhaustion_is_surfaced (inputFiles : list File)
  (inputFormat outputFormat : FileFormat) (engine : ConversionEngine)
  (simpleMode : bool) (w : World) :
  let files := List.map readFile inputFiles in
  let hs := ConversionEngine.handlers engine in
  let g := TraversionGraph.clearDeadEndPaths (ConversionEngine.graph engine) in
  let it0 :=
    searchPath g
      (ConvertPathNode.mk (anchorHandler (findHandlerForFormat inputFormat hs) hs) inputFormat)
      (ConvertPathNode.mk (anchorHandler (findHandlerForFormat outputFormat hs) hs) outputFormat)
      simpleMode in
  let st0 := mkExec w g ∅ [Reading; Finding] in
  let call fuel := convert fuel inputFiles inputFormat outputFormat engine simpleMode w in
  (* a failing path does not end the call *)
  (forall fuel it st path it' key w' lg err,
     next it (graph st) = Some (path, it') -> pathKey path = Some key ->
     key ∉ failedPaths st ->
     attempt path files (world st) (log st ++ [Trying path]) = (w', lg, Threw err) ->
     loop (S fuel) inputFormat outputFormat files it st
     = loop fuel inputFormat outputFormat files it'
         (mkExec w' (TraversionGraph.addDeadEndPath path (graph st))
            ({[ key ]} ∪ failedPaths st) (lg ++ [PathFailed key])))
  (* a path that ends with files does *)
  /\ (forall fuel it st path it' key w' lg cur,
     next it (graph st) = Some (path, it') -> pathKey path = Some key ->
     key ∉ failedPaths st ->
     attempt path files (world st) (log st ++ [Trying path]) = (w', lg, Finished cur) ->
     cur <> [] ->
     loop (S fuel) inputFormat outputFormat files it st
     = (mkExec w' (graph st) (failedPaths st) (lg ++ [Complete]),
        Resolved (ConversionResult.mk cur path)))
  (* the terminal error means exhaustion, and names both formats *)
  /\ (forall fuel st' m,
     call fuel = (st', Rejected (ErrorMessage m)) ->
     m = "Could not find a working conversion path from "
         +:+ FileFormat.format inputFormat +:+ " to " +:+ FileFormat.format outputFormat
     /\ exhausts files it0 st0 st')
  (* exhaustion gives the terminal error *)
  /\ (forall st', exhausts files it0 st0 st' ->
     exists n, forall fuel, n <= fuel ->
       call fuel = (st', Rejected (ErrorMessage (noPathMessage inputFormat outputFormat))))
  (* and it is the only error, when every yielded node has its handler *)
  /\ ((forall it g path it', next it g = Some (path, it') -> pathKey path <> None) ->
     forall fuel st' e, call fuel = (st', Rejected e) ->
       e = ErrorMessage (noPathMessage inputFormat outputFormat)).
Proof.
  intros files hs g it0 st0 call. split; [|split; [|split; [|split]]].
  - intros. by eapply tryPaths_threw.
  - intros. by eapply tryPaths_success.
  - intros fuel st' m Hc. unfold call, convertFiles in Hc.
    apply tryPaths_rejected in Hc as [[[= ->] Hex]|[[=] _]]. by split.
  - intros st' Hex. unfold call, convertFiles.
    by apply exhausts_rejected.
  - intros Hty fuel st' e Hc. unfold call, convertFiles in Hc.
    apply tryPaths_rejected in Hc as [[-> _]|[_ (i & g' & p & i' & Hn & Hk)]]; [done|].
    by apply Hty in Hn.
Qed.

(** C10.  A path that finishes its hops without error but with an empty
    file list is neither returned nor recorded: the dead-end memory and the
    local failed set stay as they were and the loop goes on; if the iterator
    yields the same path once more, it is run once more. *)
Theorem empty_result_not_recorded (fuel : nat)
  (inputFormat outputFormat : FileFormat) (files : list FileData)
  it st path it' key w lg :
  next it (graph st) = Some (path, it') ->
  pathKey path = Some key ->
  key ∉ failedPaths st ->
  attempt path files (world st) (log st ++ [Trying path]) = (w, lg, Finished []) ->
  loop (S fuel) inputFormat outputFormat files it st
  = loop fuel inputFormat outputFormat files it' (mkExec w (graph st) (failedPaths st) lg)
  /\ forall it'' w2 lg2,
       next it' (graph st) = Some (path, it'') ->
       attempt path files w (lg ++ [Trying path]) = (w2, lg2, Finished []) ->
       loop (S (S fuel)) inputFormat outputFormat files it st
       = loop fuel inputFormat outputFormat files it''
           (mkExec w2 (graph st) (failedPaths st) lg2)
       /\ exists l1 l2, lg2 = log st ++ Trying path :: l1 ++ Trying path :: l2.
Proof.
  intros Hn Hk Hs Hr. split; [by eapply tryPaths_no_files|].
  intros it'' w2 lg2 Hn2 Hr2.
  rewrite (tryPaths_no_files _ _ _ _ _ _ _ _ _ _ _ Hn Hk Hs Hr).
  split.
  - by rewrite (tryPaths_no_files _ _ _ _ it'
                  (mkExec w (graph st) (failedPaths st) lg) _ _ _ _ _ Hn2 Hk Hs Hr2).
  - destruct (runPath_log handlerReady handlerInit doConvert
                path files (world st) (log st ++ [Trying path])) as (l1 & H1 & _).
    destruct (runPath_log handlerReady handlerInit doConvert
                path files w (lg ++ [Trying path])) as (l2 & H2 & _).
    rewrite Hr in H1. rewrite Hr2 in H2. simpl in *. subst.
    exists l1, l2. by rewrite <- !app_assoc.
Qed.


End ExecutorProperties.


(** ** The engine singleton *)

Lemma singletonInv_initial : singletonInv Singleton.initial.
Proof.
  unfold singletonInv. simpl. split; [lia|]. split; [done|]. split; [done|].
  split; [done|]. intros p v H. inversion H.
Qed.

Lemma inFlight_lt p rt : Singleton.inFlight p rt = true -> p < Singleton.started rt.
Proof.
  unfold Singleton.inFlight. intros H. apply andb_true_iff in H as [H _].
  by apply Nat.ltb_lt in H.
Qed.

Lemma singleton_call rt rt' ans :
  singletonInv rt -> Singleton.getEngine rt = (rt', ans) ->
  singletonInv rt' /\ answerOfFirstBuild ans.
Proof.
  intros Hinv Hcall. pose proof Hinv as (Hs & Hp & Hnone & He & Hset).
  unfold Singleton.getEngine, Singleton.joinOrStart in Hcall.
  destruct (Singleton.engineInstance rt) as [e|] eqn:Ee.
  { destruct (He e eq_refl) as [-> _]. simpl in Hcall. injection Hcall as <- <-.
    split; [done|by right]. }
  destruct (Singleton.initPromise rt) as [p|] eqn:Ep.
  { destruct (Hp p eq_refl) as [-> _]. injection Hcall as <- <-.
    split; [done|by left]. }
  rewrite (Hnone eq_refl) in *. injection Hcall as <- <-.
  split; [|by left].
  unfold singletonInv. simpl. split; [lia|]. split; [by intros p [= <-]|].
  split; [done|]. split; done.
Qed.

Lemma singleton_settle rt p v :
  singletonInv rt -> Singleton.inFlight p rt = true -> v = None \/ v = Some 0 ->
  p = 0
  /\ singletonInv (Singleton.mk (Singleton.engineInstance rt) (Singleton.initPromise rt)
                     (Singleton.started rt) ((p, v) :: Singleton.settled rt))
  /\ singletonInv (Singleton.mk (Some (Singleton.mkObj 0 true)) (Singleton.initPromise rt)
                     (Singleton.started rt) ((p, Some 0) :: Singleton.settled rt)).
Proof.
  intros (Hs & Hp & Hnone & He & Hset) Hf Hv.
  apply inFlight_lt in Hf. assert (p = 0) as -> by lia.
  split; [done|].
  assert (Hset' : forall v', v' = None \/ v' = Some 0 -> forall q u,
            (q, u) ∈ (0, v') :: Singleton.settled rt -> q = 0 /\ (u = None \/ u = Some 0)).
  { intros v' Hv' q u H. apply elem_of_cons in H as [[= -> ->]|H]; [done|by apply Hset]. }
  split.
  - unfold singletonInv. simpl. split; [done|]. split; [done|]. split; [done|].
    split; [|by apply Hset'].
    intros e Hee. destruct (He e Hee) as [-> _]. done.
  - unfold singletonInv. simpl. split; [done|]. split; [done|]. split; [done|].
    split; [by intros e [= <-]|]. apply Hset'. by right.
Qed.

Lemma singleton_step rt a rt' out :
  singletonInv rt -> Singleton.step rt a = Some (rt', out) ->
  singletonInv rt' /\ Forall answerOfFirstBuild out.
Proof.
  intros Hinv Hstep. destruct a as [|p|p]; simpl in Hstep.
  - destruct (Singleton.getEngine rt) as [rt1 ans] eqn:Ec.
    injection Hstep as <- <-.
    destruct (singleton_call _ _ _ Hinv Ec). split; [done|].
    constructor; [done|constructor].
  - destruct (Singleton.inFlight p rt) eqn:Ef; [|done]. injection Hstep as <- <-.
    destruct (singleton_settle rt p (Some 0) Hinv Ef) as (-> & _ & H); [by right|].
    split; [done|constructor].
  - destruct (Singleton.inFlight p rt) eqn:Ef; [|done]. injection Hstep as <- <-.
    destruct (singleton_settle rt p None Hinv Ef) as (-> & H & _); [by left|].
    split; [done|constructor].
Qed.

Lemma singleton_run acts : forall rt rt' out,
  singletonInv rt -> Singleton.run acts rt = Some (rt', out) ->
  singletonInv rt' /\ Forall answerOfFirstBuild out.
Proof.
  induction acts as [|a acts IH]; intros rt rt' out Hinv Hrun; simpl in Hrun.
  - injection Hrun as <- <-. by split.
  - destruct (Singleton.step rt a) as [[rt1 out1]|] eqn:Es; [|done].
    destruct (Singleton.run acts rt1) as [[rt2 out2]|] eqn:Er; [|done].
    injection Hrun as <- <-.
    destruct (singleton_step _ _ _ _ Hinv Es) as [Hinv1 Hout1].
    destruct (IH _ _ _ Hinv1 Er) as [Hinv2 Hout2].
    split; [done|]. by apply Forall_app.
Qed.

Lemma awaited_first rt a e :
  singletonInv rt -> answerOfFirstBuild a -> Singleton.awaited rt a = Some e -> e = 0.
Proof.
  intros (_ & _ & _ & _ & Hset) [-> | ->]; simpl; [|congruence].
  destruct (List.find _ (Singleton.settled rt)) as [[p v]|] eqn:Ef; [|done].
  intros ->. apply find_some in Ef as [Hin _].
  apply list_elem_of_In, Hset in Hin as [_ [?|?]]; congruence.
Qed.

(** C9.  [getEngine] is memoized for the whole process.  From the initial
    module state, along any interleaving of calls and of builds settling:
    the first call starts the build; a call made while the build is in
    flight gets the promise of that build and starts nothing; a call made
    once the engine is ready gets that instance and starts nothing;
    [initializeEngine] is started at most once; and any two calls that come
    to a result get the same engine object. *)
Theorem getEngine_memoized (acts : list Singleton.Action)
  (rt : Singleton.Runtime) (answers : list Singleton.Answer) :
  Singleton.run acts Singleton.initial = Some (rt, answers) ->
  Singleton.getEngine Singleton.initial
    = (Singleton.mk None (Some 0) 1 [], Singleton.InFlight 0)
  /\ Singleton.started rt <= 1
  /\ (Singleton.inFlight 0 rt = true ->
        Singleton.getEngine rt = (rt, Singleton.InFlight 0))
  /\ (forall e, Singleton.engineInstance rt = Some e ->
        Singleton.getEngine rt = (rt, Singleton.Instance e))
  /\ (forall a1 a2 e1 e2, a1 ∈ answers -> a2 ∈ answers ->
        Singleton.awaited rt a1 = Some e1 -> Singleton.awaited rt a2 = Some e2 ->
        e1 = e2).
Proof.
  intros Hrun.
  destruct (singleton_run _ _ _ _ singletonInv_initial Hrun) as [Hinv Hout].
  pose proof Hinv as (Hs & Hp & Hnone & He & Hset).
  split; [done|]. split; [done|]. split; [|split].
  - intros Hf. unfold Singleton.getEngine, Singleton.joinOrStart.
    destruct (Singleton.engineInstance rt) as [e|] eqn:Ee.
    + destruct (He e eq_refl) as [_ Hsettled].
      unfold Singleton.inFlight in Hf. rewrite Hsettled in Hf.
      by rewrite andb_false_r in Hf.
    + destruct (Singleton.initPromise rt) as [p|] eqn:Ep.
      * by destruct (Hp p eq_refl) as [-> _].
      * apply inFlight_lt in Hf. rewrite (Hnone eq_refl) in Hf. lia.
  - intros e Hee. unfold Singleton.getEngine. rewrite Hee.
    by destruct (He e Hee) as [-> _].
  - intros a1 a2 e1 e2 H1 H2 Ha1 Ha2.
    rewrite Forall_forall in Hout.
    rewrite (awaited_first rt a1 e1), (awaited_first rt a2 e2); auto.
Qed.

(** ** The definitions at work *)

Example fileExtension_upper :
  fileExtension Sample.toLowerCase (File.mk "Photo.Final.JPG" "image/jpeg" []) = "jpg".
Proof. reflexivity. Qed.

Example fileExtension_no_dot : fileExtension Sample.toLowerCase (File.mk "README" EmptyString []) = "readme".
Proof. reflexivity. Qed.

Example detect_by_mime_only :
  detectInputFormat Sample.toLowerCase Sample.sameMime (File.mk "scan" "application/pdf" [])
    [Sample.svg; Sample.pdf; Sample.png] = Some Sample.pdf.
Proof. reflexivity. Qed.

Example findHandler_first : findHandlerForFormat Sample.png Sample.handlers = Some Sample.H1.
Proof. reflexivity. Qed.

Example bootstrap_mixed :
  let r := initializeEngine Sample.bootInit
             [Sample.fresh "H1"; Sample.fresh "broken"; Sample.fresh "H2"]
             (Some [("H1", [Sample.png])]) [] in
  snd (fst r) = [InitCalled "broken"; InitCalled "H2"]
  /\ OMap.keys (ConversionEngine.supportedFormatCache (snd r)) = ["H1"; "H2"]
  /\ ConversionEngine.allFormats (snd r) = [Sample.png; Sample.svg; Sample.pdf].
Proof. vm_compute. done. Qed.

(** C5, counterexample.  Two descriptions of JPEG under one key, merged in
    the two orders: the catalog entry takes its extension, mime and long
    name from whichever came first, so the result of the merge does depend
    on the order of the contributing list. *)
Lemma merge_result_depends_on_order :
  [Sample.jpegA; Sample.jpegB] ≡ₚ [Sample.jpegB; Sample.jpegA]
  /\ formatKey Sample.jpegA = formatKey Sample.jpegB
  /\ mergeFormats [Sample.jpegA; Sample.jpegB]
     = [FileFormat.mk "JPEG image" "JPEG" "jpg" "image/jpeg"
                      true true "jpeg" ["image"] true]
  /\ mergeFormats [Sample.jpegB; Sample.jpegA]
     = [FileFormat.mk "Joint Photographic Experts Group" "JPEG" "jpeg" "image/jpg"
                      true true "jpeg" ["image"] true]
  /\ mergeFormats [Sample.jpegA; Sample.jpegB] <> mergeFormats [Sample.jpegB; Sample.jpegA].
Proof.
  split; [apply perm_swap|]. split; [reflexivity|].
  split; [reflexivity|]. split; [reflexivity|].
  vm_compute. discriminate.
Qed.

(** Two identities under one key: display name [A::B] with internal id [C],
    and display name [A] with internal id [B::C].  The merge holds one
    entry for the two. *)
Example merge_key_collision :
  let a := FileFormat.mk "first" "A::B" "ab" "x/ab" true false "C" [] false in
  let b := FileFormat.mk "second" "A" "a" "x/a" false true "B::C" [] false in
  identity a <> identity b
  /\ formatKey a = formatKey b
  /\ ~ KeysTellApart [a; b]
  /\ mergeFormats [a; b]
     = [FileFormat.mk "first" "A::B" "ab" "x/ab" true true "C" [] false].
Proof.
  intros a b. split; [discriminate|]. split; [reflexivity|]. split; [|reflexivity].
  intros Hkeys.
  specialize (Hkeys a b ltac:(left) ltac:(right; left) eq_refl). discriminate.
Qed.


(** ** The theorems at the sample installation *)

Lemma no_retry_of_failed_path_witness :
  Trying Sample.direct1
  ∉ [Trying Sample.viaPdf; Converting Sample.svg Sample.pdf; InitCalled "H2";
     Converting Sample.pdf Sample.png; Complete].
Proof.
  apply (proj2 (proj2 (no_retry_of_failed_path
           Sample.handlerReady Sample.handlerInit Sample.doConvert
           (Sample.searching [Sample.direct1; Sample.direct1; Sample.viaPdf]) listNext
           5 [Sample.input] Sample.svg Sample.png Sample.engine true []))
         [Reading; Finding; Trying Sample.direct1; Converting Sample.svg Sample.png;
          InitCalled "H1"; PathFailed "H1:svg->H1:png"]
         _ Sample.direct1 Sample.direct1 "H1:svg->H1:png").
  - vm_compute. reflexivity.
  - reflexivity.
  - do 5 apply list_elem_of_further. apply list_elem_of_here.
  - reflexivity.
Defined.

Lemma zero_length_output_fails_path_witness :
  exists w lg,
    runPath Sample.handlerReady Sample.handlerInit Sample.doConvert
      Sample.direct3 Sample.files (world Sample.st0)
      (log Sample.st0 ++ [Trying Sample.direct3]) = (w, lg, Threw OutputIsEmpty)
    /\ tryPaths Sample.handlerReady Sample.handlerInit Sample.doConvert listNext
         (S 3) Sample.svg Sample.png Sample.files
         [Sample.direct3; Sample.viaPdf] Sample.st0
       = tryPaths Sample.handlerReady Sample.handlerInit Sample.doConvert listNext
           3 Sample.svg Sample.png Sample.files [Sample.viaPdf]
           (mkExec w (TraversionGraph.addDeadEndPath Sample.direct3 (graph Sample.st0))
              ({[ "H3:svg->H3:png" ]} ∪ failedPaths Sample.st0)
              (lg ++ [PathFailed "H3:svg->H3:png"])).
Proof.
  apply (zero_length_output_fails_path
           Sample.handlerReady Sample.handlerInit Sample.doConvert listNext
           3 Sample.svg Sample.png Sample.files
           [Sample.direct3; Sample.viaPdf] Sample.st0 Sample.direct3 [Sample.viaPdf]
           "H3:svg->H3:png").
  - reflexivity.
  - reflexivity.
  - apply not_elem_of_empty.
  - exists [FileData.mk "empty" []], (FileData.mk "empty" []).
    split; [apply list_elem_of_here|]. split; [apply list_elem_of_here|reflexivity].
Defined.

Lemma only_exhaustion_is_surfaced_witness :
  "Could not find a working conversion path from SVG to PNG"
  = "Could not find a working conversion path from "
    +:+ FileFormat.format Sample.svg +:+ " to " +:+ FileFormat.format Sample.png
  /\ Exhausts Sample.handlerReady Sample.handlerInit Sample.doConvert listNext
       (List.map readFile [Sample.input])
       [Sample.direct1; Sample.direct3; Sample.direct4]
       (mkExec [] (TraversionGraph.clearDeadEndPaths (ConversionEngine.graph Sample.engine))
               ∅ [Reading; Finding])
       (fst (Sample.run [Sample.direct1; Sample.direct3; Sample.direct4] 5)).
Proof.
  apply (proj1 (proj2 (proj2 (only_exhaustion_is_surfaced
           Sample.handlerReady Sample.handlerInit Sample.doConvert
           (Sample.searching [Sample.direct1; Sample.direct3; Sample.direct4]) listNext
           [Sample.input] Sample.svg Sample.png Sample.engine true []))) 5).
  vm_compute. reflexivity.
Defined.

Lemma empty_result_not_recorded_witness :
  tryPaths Sample.handlerReady Sample.handlerInit Sample.doConvert listNext
    (S 3) Sample.svg Sample.png Sample.files
    [Sample.direct4; Sample.direct4; Sample.viaPdf] Sample.st0
  = tryPaths Sample.handlerReady Sample.handlerInit Sample.doConvert listNext
      3 Sample.svg Sample.png Sample.files [Sample.direct4; Sample.viaPdf]
      (mkExec ["H4"] (graph Sample.st0) (failedPaths Sample.st0)
         [Reading; Finding; Trying Sample.direct4;
          Converting Sample.svg Sample.png; InitCalled "H4"]).
Proof.
  apply (proj1 (empty_result_not_recorded
           Sample.handlerReady Sample.handlerInit Sample.doConvert listNext
           3 Sample.svg Sample.png Sample.files
           [Sample.direct4; Sample.direct4; Sample.viaPdf] Sample.st0
           Sample.direct4 [Sample.direct4; Sample.viaPdf] "H4:svg->H4:png"
           ["H4"] _ eq_refl eq_refl (not_elem_of_empty _) eq_refl)).
Defined.


Lemma mergeFormats_by_identity_witness :
  NoDup (List.map identity (mergeFormats [Sample.jpegA; Sample.svg; Sample.jpegB]))
  /\ exists g, mergeFormats [Sample.jpegB; Sample.jpegA] = [g]
       /\ flags g = (true, true, true) /\ sameDescription g Sample.jpegB.
Proof.
  destruct (mergeFormats_by_identity [Sample.jpegA; Sample.svg; Sample.jpegB])
    as [Hone Hpair].
  split.
  - apply Hone. apply KeysTellApart_noColon. reflexivity.
  - apply (Hpair Sample.jpegA Sample.jpegB eq_refl eq_refl eq_refl
             [Sample.jpegB; Sample.jpegA] Sample.jpegB (or_intror eq_refl) eq_refl).
Defined.

Lemma detectInputFormat_tiers_witness :
  exists f,
    detectInputFormat Sample.toLowerCase Sample.sameMime Sample.input [Sample.svgz; Sample.svg] = Some f
    /\ ExtensionOnly Sample.toLowerCase "svg" f /\ FileFormat.mime f = "image/svg+xml" /\ f <> Sample.svgz.
Proof.
  apply (proj1 (proj2 (proj2 (proj2 (proj2
           (detectInputFormat_tiers Sample.toLowerCase Sample.sameMime Sample.input
              [Sample.svgz; Sample.svg])))))
           Sample.svg Sample.svgz).
  - apply list_elem_of_further, list_elem_of_here.
  - apply list_elem_of_here.
  - split; reflexivity.
  - reflexivity.
  - split; reflexivity.
  - discriminate.
  - discriminate.
Defined.

Lemma snapshot_handlers_adopt_cache_witness :
  ConversionEngine.handlers
    (snd (initializeEngine Sample.bootInit [Sample.fresh "H1"; Sample.fresh "H2"]
            (Some [("H1", [Sample.png])]) [])) !! 0
  = Some (FormatHandler.mk "H1" (Some [Sample.png]))
  /\ InitCalled "H1"
     ∉ snd (fst (initializeEngine Sample.bootInit [Sample.fresh "H1"; Sample.fresh "H2"]
                   (Some [("H1", [Sample.png])]) [])).
Proof.
  apply (proj1 (snapshot_handlers_adopt_cache Sample.bootInit
                  [Sample.fresh "H1"; Sample.fresh "H2"] [("H1", [Sample.png])] [])
           0 (Sample.fresh "H1") [Sample.png]); reflexivity.
Defined.

Lemma getEngine_memoized_witness :
  let rt := Singleton.mk (Some (Singleton.mkObj 0 true)) (Some 0) 1 [(0, Some 0)] in
  let answers := [Singleton.InFlight 0; Singleton.InFlight 0;
                  Singleton.Instance (Singleton.mkObj 0 true)] in
  Singleton.getEngine Singleton.initial
    = (Singleton.mk None (Some 0) 1 [], Singleton.InFlight 0)
  /\ Singleton.started rt <= 1
  /\ (Singleton.inFlight 0 rt = true ->
        Singleton.getEngine rt = (rt, Singleton.InFlight 0))
  /\ (forall e, Singleton.engineInstance rt = Some e ->
        Singleton.getEngine rt = (rt, Singleton.Instance e))
  /\ (forall a1 a2 e1 e2, a1 ∈ answers -> a2 ∈ answers ->
        Singleton.awaited rt a1 = Some e1 -> Singleton.awaited rt a2 = Some e2 ->
        e1 = e2).
Proof.
  apply (getEngine_memoized
           [Singleton.CallGetEngine; Singleton.CallGetEngine;
            Singleton.InitResolves 0; Singleton.CallGetEngine]).
  reflexivity.
Defined.

(** * Further properties of the engine module *)

(** ** Handler lookup *)

Lemma supports_spec format h : supports format h = true <-> Lists format h.
Proof.
  unfold supports, Lists. destruct (FormatHandler.supportedFormats h) as [fs|].
  - rewrite existsb_elem. split.
    + intros (f & Hf & Hs). unfold sameFormat in Hs.
      apply andb_true_iff in Hs as [H1 H2].
      apply String.eqb_eq in H1, H2. by exists fs, f.
    + intros (fs' & f & [= <-] & Hf & H1 & H2). exists f. split; [done|].
      unfold sameFormat. by rewrite H1, H2, !String.eqb_refl.
  - split; [done|]. by intros (fs & f & [=] & _).
Qed.

(** X1.  [findHandlerForFormat] returns the first handler, in registration
    order, that lists a format with the internal id and display name asked
    for, and null exactly when no handler does.  A handler that has no
    format list yet is never returned, and nothing but these two fields of
    the requested format matters. *)
Theorem findHandlerForFormat_first (format : FileFormat) (handlers : list FormatHandler) :
  (forall h, findHandlerForFormat format handlers = Some h
             <-> FirstIn (Lists format) handlers h)
  /\ (findHandlerForFormat format handlers = None
      <-> forall h, h ∈ handlers -> ~ Lists format h)
  /\ (forall h, findHandlerForFormat format handlers = Some h ->
        FormatHandler.supportedFormats h <> None)
  /\ (forall format',
        FileFormat.internal format' = FileFormat.internal format ->
        FileFormat.format format' = FileFormat.format format ->
        findHandlerForFormat format' handlers = findHandlerForFormat format handlers).
Proof.
  unfold findHandlerForFormat. split; [|split; [|split]].
  - intros h. apply find_FirstIn, supports_spec.
  - apply find_None_iff, supports_spec.
  - intros h Hh. apply (find_FirstIn _ _ (supports_spec format)), FirstIn_elem in Hh.
    destruct Hh as [_ (fs & f & -> & _)]. done.
  - intros format' Hi Hf.
    assert (E : forall h, supports format' h = supports format h).
    { intros h. unfold supports, sameFormat. by rewrite Hi, Hf. }
    induction handlers as [|h hs IH]; [done|]. simpl. by rewrite E, IH.
Qed.

(** ** File extensions *)

Lemma split_nonempty sep s : split sep s <> [].
Proof.
  destruct s as [|c s]; simpl; [done|].
  destruct (Ascii.eqb c sep); [done|]. by destruct (split sep s).
Qed.

Lemma split_app sep a e :
  split sep (a +:+ String sep e) = split sep a ++ split sep e.
Proof.
  induction a as [|c a IH]; simpl.
  - by rewrite Ascii.eqb_refl.
  - destruct (Ascii.eqb c sep); [by rewrite IH|].
    rewrite IH. pose proof (split_nonempty sep a). by destruct (split sep a).
Qed.

Lemma split_lacks sep s : lacks sep s = true -> split sep s = [s].
Proof.
  induction s as [|c s IH]; simpl; [done|].
  intros H. apply andb_true_iff in H as [Hc Hs].
  apply negb_true_iff in Hc. rewrite Hc, (IH Hs). done.
Qed.

Lemma split_segments_lack sep s : Forall (fun seg => lacks sep seg = true) (split sep s).
Proof.
  induction s as [|c s IH]; simpl; [by repeat constructor|].
  destruct (Ascii.eqb c sep) eqn:E; [by constructor|].
  destruct (split sep s) as [|seg rest]; [by repeat constructor; simpl; rewrite E|].
  inversion IH; subst. constructor; [|done]. simpl. by rewrite E.
Qed.

Lemma lacks_false_decompose sep s :
  lacks sep s = false ->
  exists stem e, s = stem +:+ String sep e /\ lacks sep e = true.
Proof.
  induction s as [|c s IH]; simpl; [done|].
  destruct (lacks sep s) eqn:Es.
  - rewrite andb_true_r. intros Hc. apply negb_false_iff, Ascii.eqb_eq in Hc as ->.
    by exists EmptyString, s.
  - intros _. destruct (IH eq_refl) as (stem & e & -> & He).
    by exists (String c stem), e.
Qed.

(** The last segment of a name: free of the separator, and the name ends
    with it, after a separator unless it is the whole name. *)
Lemma split_last sep s :
  exists e, last (split sep s) = Some e
    /\ lacks sep e = true
    /\ (s = e \/ exists stem, s = stem +:+ String sep e).
Proof.
  destruct (lacks sep s) eqn:Es.
  - exists s. rewrite (split_lacks _ _ Es). auto.
  - destruct (lacks_false_decompose _ _ Es) as (stem & e & -> & He).
    exists e. rewrite split_app, (split_lacks _ _ He), last_snoc. eauto.
Qed.

Lemma lowerAscii_dot c : Ascii.eqb (Sample.lowerAscii c) "." = Ascii.eqb c ".".
Proof.
  destruct c as [[] [] [] [] [] [] [] []]; reflexivity.
Qed.

Lemma toLowerCase_lacks_dot s : lacks "." (Sample.toLowerCase s) = lacks "." s.
Proof. induction s as [|c s IH]; simpl; [done|]. by rewrite lowerAscii_dot, IH. Qed.

(** X2.  The extension taken from a file name is the lower-casing of the
    part of the name that follows its last dot, and of the whole name when
    it has no dot; that part holds no dot.  Where lower-casing brings in no
    dot, the extension holds none either. *)
Theorem fileExtension_last_segment (toLowerCase : string -> string) :
  (forall file, exists e,
      fileExtension toLowerCase file = toLowerCase e
      /\ lacks "." e = true
      /\ (File.name file = e \/ exists stem, File.name file = stem +:+ String "." e))
  /\ (forall stem e type content,
        lacks "." e = true ->
        fileExtension toLowerCase (File.mk (stem +:+ String "." e) type content)
        = toLowerCase e)
  /\ (forall name type content,
        lacks "." name = true ->
        fileExtension toLowerCase (File.mk name type content) = toLowerCase name)
  /\ ((forall s, lacks "." s = true -> lacks "." (toLowerCase s) = true) ->
      forall file, lacks "." (fileExtension toLowerCase file) = true).
Proof.
  split; [|split; [|split]].
  - intros file. unfold fileExtension.
    destruct (split_last "." (File.name file)) as (e & -> & He & Hname).
    by exists e.
  - intros stem e type content He. unfold fileExtension. simpl.
    by rewrite split_app, (split_lacks _ _ He), last_snoc.
  - intros name type content Hn. unfold fileExtension. simpl.
    by rewrite (split_lacks _ _ Hn).
  - intros Hlower file. unfold fileExtension.
    destruct (split_last "." (File.name file)) as (e & -> & He & _).
    by apply Hlower.
Qed.

(** ** More on the catalog merge *)

Lemma omap_set_fresh {V : Type} (m : OMap.t V) k v :
  OMap.get k m = None -> OMap.set k v m = m ++ [(k, v)].
Proof.
  induction m as [|[k0 v0] m IH]; simpl; [done|].
  destruct (String.eqb k0 k); [done|]. intros H. by rewrite IH.
Qed.

Lemma merge_fold_distinct l : forall m,
  NoDup (OMap.keys m ++ List.map formatKey l) ->
  List.fold_left mergeStep l m = m ++ List.map (fun f => (formatKey f, f)) l.
Proof.
  induction l as [|f l IH]; intros m Hnd; simpl; [by rewrite app_nil_r|].
  assert (Hfresh : OMap.get (formatKey f) m = None).
  { apply omap_get_not_key. intros Hin.
    apply NoDup_app in Hnd as (_ & Hdis & _). apply (Hdis _ Hin). left. }
  unfold mergeStep at 2. rewrite Hfresh, (omap_set_fresh _ _ _ Hfresh).
  rewrite IH.
  - by rewrite <- app_assoc.
  - unfold OMap.keys in *. rewrite map_app. simpl. rewrite <- app_assoc. exact Hnd.
Qed.

Lemma mergeFormats_distinct l :
  NoDup (List.map formatKey l) -> mergeFormats l = l.
Proof.
  intros Hnd. unfold mergeFormats. rewrite merge_fold_distinct by done.
  unfold OMap.values, OMap.empty. simpl. rewrite map_map. simpl. apply map_id.
Qed.

Lemma mergeFormats_keys_NoDup raw : NoDup (List.map formatKey (mergeFormats raw)).
Proof.
  pose proof (merge_fold_WellKeyed raw _ WellKeyed_empty) as HW.
  unfold mergeFormats. rewrite (WellKeyed_values_keys _ HW). apply HW.
Qed.

(** X3.  The merge is idempotent: merging a catalog again changes nothing,
    and a list that holds every key once is returned as it is, entries and
    order. *)
Theorem mergeFormats_idempotent (rawFormats : list FileFormat) :
  mergeFormats (mergeFormats rawFormats) = mergeFormats rawFormats
  /\ (NoDup (List.map formatKey rawFormats) -> mergeFormats rawFormats = rawFormats).
Proof.
  split; [|apply mergeFormats_distinct].
  apply mergeFormats_distinct, mergeFormats_keys_NoDup.
Qed.

Lemma mergeStep_keys m f :
  OMap.keys (mergeStep m f) = addOnce (OMap.keys m) (formatKey f).
Proof.
  unfold addOnce.
  assert (E : OMap.keys (mergeStep m f)
              = if OMap.has (formatKey f) m then OMap.keys m
                else OMap.keys m ++ [formatKey f]).
  { unfold mergeStep. destruct (OMap.get (formatKey f) m); apply omap_keys_set. }
  rewrite E. pose proof (omap_has_keys m (formatKey f)) as H.
  destruct (OMap.has (formatKey f) m); case_bool_decide; try done.
  - exfalso. tauto.
  - exfalso. destruct H as [_ H]. by specialize (H ltac:(done)).
Qed.

Lemma merge_fold_keys raw : forall m,
  OMap.keys (List.fold_left mergeStep raw m)
  = List.fold_left addOnce (List.map formatKey raw) (OMap.keys m).
Proof.
  induction raw as [|f raw IH]; intros m; simpl; [done|].
  by rewrite IH, mergeStep_keys.
Qed.

Lemma filter_head {A : Type} (p : A -> bool) (l : list A) f rest :
  List.filter p l = f :: rest -> FirstIn (fun x => p x = true) l f.
Proof.
  induction l as [|a l IH]; simpl; [done|].
  destruct (p a) eqn:E.
  - intros [= -> _]. exists [], l. split; [done|]. split; [done|].
    intros x Hx. inversion Hx.
  - intros H. destruct (IH H) as (l1 & l2 & -> & Hf & Hn).
    exists (a :: l1), l2. split; [done|]. split; [done|].
    intros x Hx. apply elem_of_cons in Hx as [->|Hx]; [congruence|by apply Hn].
Qed.

(** X4.  The catalog lists the keys in the order in which they first occur
    in the raw list, and each entry keeps the long name, display name,
    extension, mime, internal id and category of the first raw entry with
    its key; only the three flags take part in the merge. *)
Theorem mergeFormats_first_contributor (rawFormats : list FileFormat) :
  List.map formatKey (mergeFormats rawFormats)
    = firstOccurrences (List.map formatKey rawFormats)
  /\ (forall g, g ∈ mergeFormats rawFormats ->
        exists f, FirstIn (fun x => formatKey x = formatKey g) rawFormats f
                  /\ sameDescription g f).
Proof.
  split.
  - pose proof (merge_fold_WellKeyed rawFormats _ WellKeyed_empty) as HW.
    unfold mergeFormats, firstOccurrences.
    by rewrite (WellKeyed_values_keys _ HW), merge_fold_keys.
  - intros g Hg. apply mergeFormats_elem in Hg. unfold mergedUnder in Hg.
    destruct (contributors (formatKey g) rawFormats) as [|f rest] eqn:E; [done|].
    injection Hg as <-. exists f. split.
    + apply filter_head in E. destruct E as (l1 & l2 & -> & Hf & Hn).
      rewrite mergeFlags_fold_key. apply String.eqb_eq in Hf.
      rewrite mergeFlags_fold_key in Hf.
      exists l1, l2. split; [done|]. split.
      * assert (Hin : f ∈ contributors (formatKey f) (l1 ++ f :: l2)).
        { apply contributors_elem. split; [|done]. apply elem_of_app. right. left. }
        done.
      * intros x Hx Hk. apply (Hn x Hx). rewrite mergeFlags_fold_key.
        by apply String.eqb_eq.
    + apply mergeFlags_fold_rest.
Qed.

(** ** More on the bootstrap *)

Section BootstrapMore.

Context {World : Type}.
Variable handlerInit :
  FormatHandler -> World -> World * (option (list FileFormat) * bool).

Implicit Types (st : BootState World) (hs : list FormatHandler).

(** The three ways one iteration of the handler loop can go. *)
Lemma initHandler_cases st h :
  (exists c, OMap.get (FormatHandler.name h) (bootCache st) = Some c
     /\ initHandler handlerInit st h
        = (st, FormatHandler.mk (FormatHandler.name h) (Some c)))
  \/ (OMap.get (FormatHandler.name h) (bootCache st) = None
      /\ exists w fs,
        handlerInit h (bootWorld st) = (w, (Some fs, true))
        /\ initHandler handlerInit st h
           = (mkBoot w (OMap.set (FormatHandler.name h) fs (bootCache st))
                (bootRaw st ++ fs)
                (bootLog st ++ [InitCalled (FormatHandler.name h)]),
              FormatHandler.mk (FormatHandler.name h) (Some fs)))
  \/ (OMap.get (FormatHandler.name h) (bootCache st) = None
      /\ exists w sup ok,
        handlerInit h (bootWorld st) = (w, (sup, ok))
        /\ (ok = false \/ sup = None)
        /\ initHandler handlerInit st h
           = (mkBoot w (bootCache st) (bootRaw st)
                (bootLog st ++ [InitCalled (FormatHandler.name h)]),
              FormatHandler.mk (FormatHandler.name h) sup)).
Proof.
  unfold initHandler.
  destruct (OMap.get (FormatHandler.name h) (bootCache st)) as [c|] eqn:E.
  { left. by exists c. }
  right. destruct (handlerInit h (bootWorld st)) as [w [[fs|] [|]]] eqn:Ei.
  - left. split; [done|]. by exists w, fs.
  - right. split; [done|]. exists w, (Some fs), false. auto.
  - right. split; [done|]. exists w, None, true. auto.
  - right. split; [done|]. exists w, None, false. auto.
Qed.

Lemma initHandlers_cons st h hs :
  initHandlers handlerInit st (h :: hs)
  = (fst (initHandlers handlerInit (fst (initHandler handlerInit st h)) hs),
     snd (initHandler handlerInit st h)
     :: snd (initHandlers handlerInit (fst (initHandler handlerInit st h)) hs)).
Proof.
  simpl. destruct (initHandler handlerInit st h) as [st1 h1]. simpl.
  by destruct (initHandlers handlerInit st1 hs).
Qed.

Lemma initHandler_name st h :
  FormatHandler.name (snd (initHandler handlerInit st h)) = FormatHandler.name h.
Proof.
  destruct (initHandler_cases st h)
    as [(c & _ & ->)|[(_ & w & fs & _ & ->)|(_ & w & sup & ok & _ & _ & ->)]]; done.
Qed.

Lemma initHandlers_names hs : forall st,
  List.map FormatHandler.name (snd (initHandlers handlerInit st hs))
  = List.map FormatHandler.name hs.
Proof.
  induction hs as [|h hs IH]; intros st; [done|].
  rewrite initHandlers_cons. simpl. by rewrite initHandler_name, IH.
Qed.

Lemma initHandlers_calls hs : forall st,
  exists l, bootLog (fst (initHandlers handlerInit st hs)) = bootLog st ++ l
    /\ l `sublist_of` List.map (fun h => InitCalled (FormatHandler.name h)) hs.
Proof.
  induction hs as [|h hs IH]; intros st.
  - exists []. simpl. by rewrite app_nil_r.
  - rewrite initHandlers_cons. simpl.
    destruct (IH (fst (initHandler handlerInit st h))) as (l & -> & Hl).
    destruct (initHandler_cases st h)
      as [(c & _ & ->)|[(_ & w & fs & _ & ->)|(_ & w & sup & ok & _ & _ & ->)]]; simpl.
    + exists l. split; [done|]. by apply sublist_cons.
    + exists (InitCalled (FormatHandler.name h) :: l).
      split; [by rewrite <- app_assoc|]. by apply sublist_skip.
    + exists (InitCalled (FormatHandler.name h) :: l).
      split; [by rewrite <- app_assoc|]. by apply sublist_skip.
Qed.

(** The cache and the raw list cover each other: every list in the cache is
    part of the raw list, and every raw format sits in some list of the
    cache. *)
Lemma initHandler_cover st h :
  (forall n fs f, OMap.get n (bootCache st) = Some fs -> f ∈ fs -> f ∈ bootRaw st) ->
  (forall f, f ∈ bootRaw st ->
     exists n fs, OMap.get n (bootCache st) = Some fs /\ f ∈ fs) ->
  let st1 := fst (initHandler handlerInit st h) in
  (forall n fs f, OMap.get n (bootCache st1) = Some fs -> f ∈ fs -> f ∈ bootRaw st1)
  /\ (forall f, f ∈ bootRaw st1 ->
        exists n fs, OMap.get n (bootCache st1) = Some fs /\ f ∈ fs).
Proof.
  intros H1 H2.
  destruct (initHandler_cases st h)
    as [(c & _ & ->)|[(Hnone & w & fs0 & _ & ->)|(_ & w & sup & ok & _ & _ & ->)]];
    simpl; [done| |done].
  split.
  - intros n fs f Hn Hf. apply elem_of_app.
    destruct (String.eqb_spec (FormatHandler.name h) n) as [<-|Hne].
    + rewrite omap_get_set_eq in Hn. injection Hn as <-. by right.
    + rewrite omap_get_set_ne in Hn by done. left. eauto.
  - intros f Hf. apply elem_of_app in Hf as [Hf|Hf].
    + destruct (H2 f Hf) as (n & fs & Hn & Hin). exists n, fs. split; [|done].
      rewrite omap_get_set_ne; [done|]. congruence.
    + exists (FormatHandler.name h), fs0. by rewrite omap_get_set_eq.
Qed.

Lemma initHandlers_cover hs : forall st,
  (forall n fs f, OMap.get n (bootCache st) = Some fs -> f ∈ fs -> f ∈ bootRaw st) ->
  (forall f, f ∈ bootRaw st ->
     exists n fs, OMap.get n (bootCache st) = Some fs /\ f ∈ fs) ->
  let st' := fst (initHandlers handlerInit st hs) in
  (forall n fs f, OMap.get n (bootCache st') = Some fs -> f ∈ fs -> f ∈ bootRaw st')
  /\ (forall f, f ∈ bootRaw st' ->
        exists n fs, OMap.get n (bootCache st') = Some fs /\ f ∈ fs).
Proof.
  induction hs as [|h hs IH]; intros st H1 H2; [done|].
  rewrite initHandlers_cons. simpl.
  destruct (initHandler_cover st h H1 H2) as [H1' H2']. by apply IH.
Qed.

Lemma copy_raw (m : OMap.t (list FileFormat)) : forall m0 r0,
  snd (List.fold_left
         (fun acc e => (OMap.set (fst e) (snd e) (fst acc), snd acc ++ snd e)) m (m0, r0))
  = r0 ++ List.concat (OMap.values m).
Proof.
  induction m as [|[k v] m IH]; intros m0 r0; simpl; [by rewrite app_nil_r|].
  by rewrite IH, <- app_assoc.
Qed.

Lemma loadCache_cover cacheJSON :
  (forall n fs f, OMap.get n (fst (loadCache cacheJSON)) = Some fs -> f ∈ fs ->
     f ∈ snd (loadCache cacheJSON))
  /\ (forall f, f ∈ snd (loadCache cacheJSON) ->
        exists n fs, OMap.get n (fst (loadCache cacheJSON)) = Some fs /\ f ∈ fs).
Proof.
  destruct cacheJSON as [entries|]; simpl.
  2: { split; [done|]. intros f Hf. inversion Hf. }
  pose proof (omap_of_entries_NoDup entries) as Hnd.
  set (m := OMap.of_entries entries) in *.
  rewrite copy_raw. simpl. split.
  - intros n fs f Hn Hf. rewrite copy_get in Hn by done.
    destruct (OMap.get n m) as [v|] eqn:E; [|done]. injection Hn as ->.
    apply omap_get_elem in E. apply list_elem_of_In, in_concat. exists fs.
    split; [|by apply list_elem_of_In].
    apply list_elem_of_In. unfold OMap.values. by apply (list_elem_of_fmap_2 snd) in E.
  - intros f Hf. apply list_elem_of_In, in_concat in Hf as (fs & Hfs & Hf).
    apply list_elem_of_In in Hfs. unfold OMap.values in Hfs.
    apply list_elem_of_fmap in Hfs as ([k v] & -> & Hin). simpl in *.
    exists k, v. split; [|by apply list_elem_of_In].
    rewrite copy_get by done. by rewrite (omap_elem_get m k v Hnd Hin).
Qed.

(** A raw format is found in the catalog under its key, with at least its
    own capabilities. *)
Lemma mergeFormats_covers raw f :
  f ∈ raw ->
  exists g, g ∈ mergeFormats raw /\ formatKey g = formatKey f
    /\ (FileFormat.from f = true -> FileFormat.from g = true)
    /\ (FileFormat.to f = true -> FileFormat.to g = true)
    /\ (FileFormat.lossless f = true -> FileFormat.lossless g = true).
Proof.
  intros Hf.
  assert (Hs : is_Some (mergedUnder (formatKey f) raw)).
  { apply mergedUnder_is_Some. by apply list_elem_of_fmap_2. }
  destruct Hs as [g Hg].
  destruct (mergedUnder_flags _ _ _ Hg) as (Hk & Hfrom & Hto & Hl).
  assert (Hc : f ∈ contributors (formatKey f) raw) by by apply contributors_elem.
  exists g. split; [apply mergeFormats_elem; by rewrite Hk|]. split; [done|].
  rewrite Hfrom, Hto, Hl, !existsb_elem. repeat split; intros; by exists f.
Qed.

(** A catalog entry describes some raw entry. *)
Lemma mergeFormats_described raw g :
  g ∈ mergeFormats raw -> exists f, f ∈ raw /\ sameDescription g f.
Proof.
  intros Hg. apply mergeFormats_elem in Hg. unfold mergedUnder in Hg.
  destruct (contributors (formatKey g) raw) as [|f rest] eqn:E; [done|].
  injection Hg as <-. exists f. split; [|apply mergeFlags_fold_rest].
  assert (Hin : f ∈ contributors (formatKey (List.fold_left mergeFlags rest f)) raw)
    by (rewrite E; left).
  by apply contributors_elem in Hin as [Hin _].
Qed.

(** X5.  Bootstrap keeps the registry as it is, name by name and in order,
    and calls [init] on its handlers in registration order, at most once
    for each place in the registry. *)
Theorem bootstrap_calls_in_order (registry : list FormatHandler)
  (cacheJSON : option (list (string * list FileFormat))) (w : World) :
  let r := initializeEngine handlerInit registry cacheJSON w in
  List.map FormatHandler.name (ConversionEngine.handlers (snd r))
    = List.map FormatHandler.name registry
  /\ snd (fst r)
     `sublist_of` List.map (fun h => InitCalled (FormatHandler.name h)) registry.
Proof.
  unfold initializeEngine. destruct (loadCache cacheJSON) as [cache0 raw0].
  set (st0 := mkBoot w cache0 raw0 []).
  pose proof (initHandlers_names registry st0) as Hn.
  destruct (initHandlers_calls registry st0) as (l & Hl & Hsub).
  destruct (initHandlers handlerInit st0 registry) as [st hs]. simpl in *.
  by subst l.
Qed.

(** X6.  The catalog covers the cache: every format that the format cache
    lists for some handler has an entry in the catalog under its key, and
    that entry is from-capable, to-capable and lossless whenever the listed
    format is. *)
Theorem catalog_covers_cache (registry : list FormatHandler)
  (cacheJSON : option (list (string * list FileFormat))) (w : World) :
  let engine := snd (initializeEngine handlerInit registry cacheJSON w) in
  forall n fs f,
    OMap.get n (ConversionEngine.supportedFormatCache engine) = Some fs ->
    f ∈ fs ->
    exists g, g ∈ ConversionEngine.allFormats engine
      /\ formatKey g = formatKey f
      /\ (FileFormat.from f = true -> FileFormat.from g = true)
      /\ (FileFormat.to f = true -> FileFormat.to g = true)
      /\ (FileFormat.lossless f = true -> FileFormat.lossless g = true).
Proof.
  unfold initializeEngine.
  pose proof (loadCache_cover cacheJSON) as [H1 H2].
  destruct (loadCache cacheJSON) as [cache0 raw0]. simpl in H1, H2.
  set (st0 := mkBoot w cache0 raw0 []).
  pose proof (initHandlers_cover registry st0 H1 H2) as [H1' _].
  destruct (initHandlers handlerInit st0 registry) as [st hs]. simpl in *.
  intros n fs f Hn Hf. apply mergeFormats_covers. eauto.
Qed.

Lemma ResolvedBy_name hs n fs :
  ResolvedBy handlerInit hs n fs -> n ∈ List.map FormatHandler.name hs.
Proof.
  intros (h & w0 & w1 & Hh & <- & _). by apply list_elem_of_fmap_2.
Qed.

(** With unique names, a handler that the final cache lists carries the
    cached list. *)
Lemma initHandlers_consistent hs : forall st h' fs,
  NoDup (List.map FormatHandler.name hs) ->
  h' ∈ snd (initHandlers handlerInit st hs) ->
  OMap.get (FormatHandler.name h') (bootCache (fst (initHandlers handlerInit st hs)))
    = Some fs ->
  FormatHandler.supportedFormats h' = Some fs.
Proof.
  induction hs as [|h hs IH]; intros st h' fs Hnd Hin Hget.
  { inversion Hin. }
  rewrite initHandlers_cons in Hin, Hget. simpl in Hin, Hget.
  apply NoDup_cons in Hnd as [Hfresh Hnd].
  apply elem_of_cons in Hin as [->|Hin]; [|by eapply IH].
  set (st1 := fst (initHandler handlerInit st h)) in *.
  pose proof (initHandlers_cache_grows World handlerInit hs st1) as Hgrow.
  destruct (initHandlers_origin World handlerInit hs st1) as [Horigin _].
  rewrite initHandler_name in Hget.
  destruct (initHandler_cases st h)
    as [(c & Hc & E)|[(Hnone & w & fs0 & _ & E)|(Hnone & w & sup & ok & _ & _ & E)]];
    subst st1; rewrite E in *; simpl in *.
  - rewrite (Hgrow _ _ Hc) in Hget. congruence.
  - rewrite (Hgrow (FormatHandler.name h) fs0) in Hget by apply omap_get_set_eq.
    congruence.
  - destruct (Horigin _ _ Hget) as [H|H]; [congruence|].
    by apply ResolvedBy_name in H.
Qed.

(** X7.  When the registered handlers have distinct names, the format cache
    and the handlers agree after bootstrap: a handler for which the cache
    holds a list carries exactly that list. *)
Theorem cache_agrees_with_handlers (registry : list FormatHandler)
  (cacheJSON : option (list (string * list FileFormat))) (w : World) :
  NoDup (List.map FormatHandler.name registry) ->
  let engine := snd (initializeEngine handlerInit registry cacheJSON w) in
  forall h fs,
    h ∈ ConversionEngine.handlers engine ->
    OMap.get (FormatHandler.name h) (ConversionEngine.supportedFormatCache engine)
      = Some fs ->
    FormatHandler.supportedFormats h = Some fs.
Proof.
  intros Hnd. unfold initializeEngine.
  destruct (loadCache cacheJSON) as [cache0 raw0].
  set (st0 := mkBoot w cache0 raw0 []).
  pose proof (initHandlers_consistent registry st0) as Hc.
  destruct (initHandlers handlerInit st0 registry) as [st hs]. simpl in *.
  intros h fs Hh Hget. by eapply Hc.
Qed.

(** X8.  When the registered handlers have distinct names and every handler
    named in the snapshot is registered, every format of the catalog has a
    handler: [findHandlerForFormat] does not return null for it, and the
    handler found lists a format with its display name and internal id. *)
Theorem catalog_formats_have_handlers (registry : list FormatHandler)
  (cacheJSON : option (list (string * list FileFormat))) (w : World) :
  NoDup (List.map FormatHandler.name registry) ->
  (forall n, n ∈ OMap.keys (fst (loadCache cacheJSON)) ->
             n ∈ List.map FormatHandler.name registry) ->
  let engine := snd (initializeEngine handlerInit registry cacheJSON w) in
  forall g, g ∈ ConversionEngine.allFormats engine ->
    exists h, findHandlerForFormat g (ConversionEngine.handlers engine) = Some h
              /\ Lists g h.
Proof.
  intros Hnd Hsnap. unfold initializeEngine.
  pose proof (loadCache_cover cacheJSON) as [H1 H2].
  destruct (loadCache cacheJSON) as [cache0 raw0]. simpl in H1, H2, Hsnap.
  set (st0 := mkBoot w cache0 raw0 []).
  pose proof (initHandlers_cover registry st0 H1 H2) as [_ Hraw].
  pose proof (initHandlers_consistent registry st0) as Hcons.
  pose proof (initHandlers_names registry st0) as Hnames.
  destruct (initHandlers_origin World handlerInit registry st0) as [Horigin _].
  destruct (initHandlers handlerInit st0 registry) as [st hs]. simpl in *.
  intros g Hg.
  apply mergeFormats_described in Hg as (f & Hf & Hdesc).
  destruct (Hraw f Hf) as (n & fs & Hn & Hfs).
  assert (Hreg : n ∈ List.map FormatHandler.name hs).
  { rewrite Hnames. destruct (Horigin _ _ Hn) as [H|H].
    - apply Hsnap. apply omap_get_elem in H.
      by apply (list_elem_of_fmap_2 fst) in H.
    - by apply ResolvedBy_name in H. }
  apply list_elem_of_fmap in Hreg as (h & -> & Hh).
  assert (Hl : Lists g h).
  { exists fs, f. split; [by eapply Hcons|]. split; [done|].
    destruct Hdesc as (_ & Hfo & _ & _ & Hi & _). by rewrite Hfo, Hi. }
  destruct (findHandlerForFormat g hs) as [h0|] eqn:E.
  - exists h0. split; [done|].
    unfold findHandlerForFormat in E.
    apply (find_FirstIn _ _ (supports_spec g)), FirstIn_elem in E. tauto.
  - exfalso. unfold findHandlerForFormat in E.
    by apply (proj1 (find_None_iff _ _ (supports_spec g) hs) E h Hh).
Qed.

(** When every [init] resolves with a list. *)
Lemma initHandlers_all_resolve hs : forall st,
  (forall h w0, h ∈ hs -> exists w1 fs, handlerInit h w0 = (w1, (Some fs, true))) ->
  (forall h', h' ∈ snd (initHandlers handlerInit st hs) ->
     is_Some (FormatHandler.supportedFormats h')
     /\ FormatHandler.supportedFormats h'
        = OMap.get (FormatHandler.name h')
            (bootCache (fst (initHandlers handlerInit st hs))))
  /\ exists l, bootLog (fst (initHandlers handlerInit st hs)) = bootLog st ++ l
       /\ NoDup l.
Proof.
  induction hs as [|h hs IH]; intros st Hres.
  { split; [intros h' H; inversion H|]. exists []. simpl.
    split; [by rewrite app_nil_r|constructor]. }
  rewrite initHandlers_cons. simpl.
  set (st1 := fst (initHandler handlerInit st h)).
  destruct (IH st1) as [Hrest (l & Hl & Hnd)]; [intros; apply Hres; by right|].
  pose proof (initHandlers_cache_grows World handlerInit hs st1) as Hgrow.
  destruct (initHandlers_log World handlerInit hs st1) as (l' & Hl' & Hev).
  assert (l' = l) as -> by (rewrite Hl in Hl'; by apply app_inv_head in Hl').
  destruct (Hres h (bootWorld st) ltac:(left)) as (w1 & fs0 & Hinit).
  destruct (initHandler_cases st h)
    as [(c & Hc & E)|[(Hnone & w & fs & Hi & E)|(Hnone & w & sup & ok & Hi & Hbad & E)]].
  - subst st1. rewrite E in *. simpl in *. split; [|by exists l].
    intros h' Hin. apply elem_of_cons in Hin as [->|Hin]; [|by apply Hrest].
    simpl. split; [by eexists|]. by rewrite (Hgrow _ _ Hc).
  - subst st1. rewrite E in *. simpl in *. split.
    + intros h' Hin. apply elem_of_cons in Hin as [->|Hin]; [|by apply Hrest].
      simpl. split; [by eexists|].
      by rewrite (Hgrow (FormatHandler.name h) fs) by apply omap_get_set_eq.
    + exists (InitCalled (FormatHandler.name h) :: l).
      split; [by rewrite Hl, <- app_assoc|].
      constructor; [|done]. intros Hin.
      destruct (Hev _ Hin) as (h2 & [= Hname] & _ & Hget).
      rewrite <- Hname, omap_get_set_eq in Hget. done.
  - exfalso. rewrite Hinit in Hi. injection Hi as <- <- <-.
    by destruct Hbad.
Qed.

(** X9.  When every [init] resolves with a format list, bootstrap calls
    [init] at most once for each handler name, also when several registered
    handlers share a name, and afterwards every handler carries the list
    that the format cache holds under its name. *)
Theorem resolving_handlers_initialised_once (registry : list FormatHandler)
  (cacheJSON : option (list (string * list FileFormat))) (w : World) :
  (forall h w0, h ∈ registry ->
     exists w1 fs, handlerInit h w0 = (w1, (Some fs, true))) ->
  let r := initializeEngine handlerInit registry cacheJSON w in
  NoDup (snd (fst r))
  /\ forall h, h ∈ ConversionEngine.handlers (snd r) ->
       is_Some (FormatHandler.supportedFormats h)
       /\ FormatHandler.supportedFormats h
          = OMap.get (FormatHandler.name h)
              (ConversionEngine.supportedFormatCache (snd r)).
Proof.
  intros Hres. unfold initializeEngine.
  destruct (loadCache cacheJSON) as [cache0 raw0].
  set (st0 := mkBoot w cache0 raw0 []).
  destruct (initHandlers_all_resolve registry st0 Hres) as [Hh (l & Hl & Hnd)].
  destruct (initHandlers handlerInit st0 registry) as [st hs]. simpl in *.
  by subst l.
Qed.

End BootstrapMore.

(** ** More on the executor *)

Section ExecutorMore.

Context {World : Type}.
Variable handlerReady : FormatHandler -> World -> bool.
Variable handlerInit :
  FormatHandler -> World -> World * (option (list FileFormat) * bool).
Variable doConvert :
  FormatHandler -> list FileData -> FileFormat -> FileFormat ->
  World -> World * option (list FileData).
Context {Iter : Type}.
Variable searchPath :
  TraversionGraph -> ConvertPathNode -> ConvertPathNode -> bool -> Iter.
Variable next : Iter -> TraversionGraph -> option (Path * Iter).

#[local] Abbreviation hops := (runHops handlerReady handlerInit doConvert).
#[local] Abbreviation attempt := (runPath handlerReady handlerInit doConvert).
#[local] Abbreviation loop := (tryPaths handlerReady handlerInit doConvert next).
#[local] Abbreviation convert :=
  (convertFiles handlerReady handlerInit doConvert searchPath next).

Implicit Types (st : ExecState World) (it : Iter) (path : Path).

Lemma last_cons_default {A : Type} (l : list A) : forall a d,
  List.last (a :: l) d = List.last l a.
Proof.
  induction l as [|b l IH]; intros a d; [done|].
  change (List.last (a :: b :: l) d) with (List.last (b :: l) d).
  by rewrite !IH.
Qed.

(** X10.  Hops run one after the other, each on the output of the one
    before: running a path is running its first part and, when that part
    finishes, running the rest from the node, the files, the outside world
    and the log it ended with; when the first part throws, the rest is not
    run. *)
Theorem runHops_app (pre rest : Path) : forall prev files w lg,
  hops prev (pre ++ rest) files w lg
  = match hops prev pre files w lg with
    | (w1, lg1, Finished cur) => hops (List.last pre prev) rest cur w1 lg1
    | (w1, lg1, Threw err) => (w1, lg1, Threw err)
    end.
Proof.
  induction pre as [|node pre IH]; intros prev files w lg; [done|].
  cbn [app runHops].
  destruct (ConvertPathNode.handler node) as [h|]; [|done].
  destruct (handlerReady h w).
  - destruct (doConvert h files _ _ w) as [w2 [out|]]; [|done].
    destruct (List.existsb emptyBytes out); [done|].
    by rewrite IH, last_cons_default.
  - destruct (handlerInit h w) as [w' [sf [|]]]; [|done].
    destruct (doConvert h files _ _ w') as [w2 [out|]]; [|done].
    destruct (List.existsb emptyBytes out); [done|].
    by rewrite IH, last_cons_default.
Qed.

Lemma runHops_finished rest : forall prev files w lg w' lg' cur,
  hops prev rest files w lg = (w', lg', Finished cur) ->
  rest <> [] ->
  Forall (fun f => length (FileData.bytes f) <> 0) cur.
Proof.
  induction rest as [|node rest IH]; intros prev files w lg w' lg' cur Hrun Hne;
    [done|].
  cbn [runHops] in Hrun.
  destruct (ConvertPathNode.handler node) as [h|]; [|done].
  assert (Hstep : forall w1 lg1,
    match doConvert h files (ConvertPathNode.format prev) (ConvertPathNode.format node) w1 with
    | (w2, Some out) =>
        if List.existsb emptyBytes out then (w2, lg1, Threw OutputIsEmpty)
        else hops node rest out w2 lg1
    | (w2, None) => (w2, lg1, Threw ConvertRejected)
    end = (w', lg', Finished cur) ->
    Forall (fun f => length (FileData.bytes f) <> 0) cur).
  { intros w1 lg1 H. destruct (doConvert h files _ _ w1) as [w2 [out|]]; [|done].
    destruct (List.existsb emptyBytes out) eqn:Eo; [done|].
    destruct rest as [|n2 rest2]; [|by eapply IH].
    simpl in H. injection H as <- <- <-.
    apply Forall_forall. intros f Hf Hz.
    assert (List.existsb emptyBytes out = true); [|congruence].
    apply existsb_elem. exists f. split; [done|]. by apply Nat.eqb_eq. }
  destruct (handlerReady h w); [by eapply Hstep|].
  destruct (handlerInit h w) as [w1 [sf [|]]]; [by eapply Hstep|done].
Qed.

(** X11.  A path of fewer than two nodes has no hop: no handler is called
    and the outside world stays as it is.  When there are input files the
    call resolves at once with the input files themselves, whose length is
    not looked at; when there are none the loop goes on. *)
Theorem path_without_hops_returns_input (fuel : nat)
  (inputFormat outputFormat : FileFormat) (files : list FileData)
  it st path it' key :
  next it (graph st) = Some (path, it') ->
  pathKey path = Some key ->
  key ∉ failedPaths st ->
  length path <= 1 ->
  attempt path files (world st) (log st ++ [Trying path])
    = (world st, log st ++ [Trying path], Finished files)
  /\ (files <> [] ->
      loop (S fuel) inputFormat outputFormat files it st
      = (mkExec (world st) (graph st) (failedPaths st)
           ((log st ++ [Trying path]) ++ [Complete]),
         Resolved (ConversionResult.mk files path)))
  /\ (files = [] ->
      loop (S fuel) inputFormat outputFormat files it st
      = loop fuel inputFormat outputFormat files it'
          (mkExec (world st) (graph st) (failedPaths st) (log st ++ [Trying path]))).
Proof.
  intros Hn Hk Hs Hlen.
  assert (Hr : attempt path files (world st) (log st ++ [Trying path])
               = (world st, log st ++ [Trying path], Finished files)).
  { destruct path as [|n1 [|n2 rest]]; simpl in *; [done|done|lia]. }
  split; [done|]. split.
  - intros Hne. by eapply tryPaths_success.
  - intros ->. by eapply tryPaths_no_files.
Qed.

(** What a resolved run of the loop gives back. *)
Lemma tryPaths_resolved inputFormat outputFormat files fuel : forall it st st' r,
  loop fuel inputFormat outputFormat files it st = (st', Resolved r) ->
  ConversionResult.files r <> []
  /\ (2 <= length (ConversionResult.path r) ->
      Forall (fun f => length (FileData.bytes f) <> 0) (ConversionResult.files r))
  /\ (length (ConversionResult.path r) <= 1 -> ConversionResult.files r = files)
  /\ (exists key, pathKey (ConversionResult.path r) = Some key
                  /\ key ∉ failedPaths st')
  /\ exists l1 lh, log st' = l1 ++ Trying (ConversionResult.path r) :: lh ++ [Complete]
                    /\ Forall hopEvent lh.
Proof.
  induction fuel as [|fuel IH]; intros it st st' r Hrun; [done|].
  cbn [tryPaths] in Hrun.
  destruct (next it (graph st)) as [[path it']|] eqn:En; [|done].
  destruct (pathKey path) as [key|] eqn:Ek; [|done].
  case_bool_decide as Hseen; [by eapply IH|].
  destruct (runPath_log handlerReady handlerInit doConvert
              path files (world st) (log st ++ [Trying path])) as (lh & Hlg & Hq).
  destruct (attempt path files (world st) (log st ++ [Trying path]))
    as [[w lg] [err|cur]] eqn:Er; [by eapply IH|].
  simpl in Hlg. subst lg.
  destruct cur as [|f cur]; [simpl in Hrun; by eapply IH|].
  simpl in Hrun. injection Hrun as <- <-. simpl.
  split; [done|]. split; [|split; [|split]].
  - intros Hlen. destruct path as [|n1 [|n2 rest]]; simpl in Hlen; try lia.
    eapply runHops_finished; [exact Er|done].
  - intros Hlen. destruct path as [|n1 [|n2 rest]]; simpl in Hlen; try lia;
      simpl in Er; by injection Er as _ _ <-.
  - by exists key.
  - exists (log st), lh. split; [|done]. by rewrite <- !app_assoc.
Qed.

(** X12.  A call that resolves returns at least one file.  When the path
    used has a hop, none of the returned files is of zero length.  The
    returned path is the last one tried: after its hops the call reports
    completion and tries no further candidate; and it is not among the
    paths the call has recorded as failed. *)
Theorem resolved_result_is_sound (fuel : nat) (inputFiles : list File)
  (inputFormat outputFormat : FileFormat) (engine : ConversionEngine)
  (simpleMode : bool) (w : World) st' r :
  convert fuel inputFiles inputFormat outputFormat engine simpleMode w
    = (st', Resolved r) ->
  ConversionResult.files r <> []
  /\ (2 <= length (ConversionResult.path r) ->
      Forall (fun f => length (FileData.bytes f) <> 0) (ConversionResult.files r))
  /\ (length (ConversionResult.path r) <= 1 ->
      ConversionResult.files r = List.map readFile inputFiles)
  /\ (exists key, pathKey (ConversionResult.path r) = Some key
                  /\ (key ∉ failedPaths st') /\ (PathFailed key ∉ log st'))
  /\ exists l1 lh, log st' = l1 ++ Trying (ConversionResult.path r) :: lh ++ [Complete]
                    /\ Forall hopEvent lh.
Proof.
  intros Hrun. unfold convertFiles in Hrun.
  pose proof Hrun as Hinv. apply tryPaths_inv in Hinv as (l & ps & Hl & _ & Hs & _).
  apply tryPaths_resolved in Hrun as (H1 & H2 & H3 & (key & Hk & Hnot) & H5).
  split; [done|]. split; [done|]. split; [done|]. split; [|done].
  exists key. split; [done|]. split; [done|].
  intros Hin. apply Hnot. rewrite <- Hs. apply scan_spec. right.
  simpl in Hl. rewrite Hl in Hin. clear -Hin.
  assert (G : forall l0, PathFailed key ∈ l0 -> key ∈ failedIn l0).
  { induction l0 as [|e l0 IH]; intros H; [inversion H|].
    apply elem_of_cons in H as [<-|H]; [left|].
    destruct e; simpl; auto. right. auto. }
  by apply (G (Reading :: Finding :: l)).
Qed.

(** Keys are reported failed one time each. *)
Lemma tryPaths_failed_fresh inputFormat outputFormat files fuel : forall it st st' out,
  loop fuel inputFormat outputFormat files it st = (st', out) ->
  exists l, log st' = log st ++ l
    /\ NoDup (failedIn l)
    /\ forall k, k ∈ failedIn l -> k ∉ failedPaths st.
Proof.
  induction fuel as [|fuel IH]; intros it st st' out Hrun; cbn [tryPaths] in Hrun.
  { injection Hrun as <- <-. exists []. rewrite app_nil_r.
    split; [done|]. split; [constructor|]. intros k H. inversion H. }
  assert (Hstop : forall o, (st, o) = (st', out) ->
    exists l, log st' = log st ++ l /\ NoDup (failedIn l)
      /\ forall k, k ∈ failedIn l -> k ∉ failedPaths st).
  { intros o [= <- _]. exists []. rewrite app_nil_r.
    split; [done|]. split; [constructor|]. intros k H. inversion H. }
  destruct (next it (graph st)) as [[path it']|] eqn:En; [|by eapply Hstop].
  destruct (pathKey path) as [key|] eqn:Ek; [|by eapply Hstop].
  case_bool_decide as Hseen; [by eapply IH|].
  destruct (runPath_log handlerReady handlerInit doConvert
              path files (world st) (log st ++ [Trying path])) as (lh & Hlg & Hq).
  destruct (attempt path files (world st) (log st ++ [Trying path]))
    as [[w lg] [err|cur]]; simpl in Hlg; subst lg.
  - apply IH in Hrun as (l & Hl & Hnd & Hfresh). simpl in *.
    destruct (hopEvents_quiet lh ∅ Hq) as (_ & _ & Hq3).
    exists (Trying path :: lh ++ PathFailed key :: l).
    split; [rewrite Hl; by rewrite <- !app_assoc|].
    simpl. rewrite failedIn_app, Hq3. simpl. split.
    + constructor; [|done]. intros Hin. apply (Hfresh _ Hin).
      apply elem_of_union. left. by apply elem_of_singleton.
    + intros k Hk. apply elem_of_cons in Hk as [->|Hk]; [done|].
      intros Hin. apply (Hfresh _ Hk). apply elem_of_union. by right.
  - destruct (hopEvents_quiet lh ∅ Hq) as (_ & _ & Hq3).
    destruct (Nat.ltb 0 (length cur)).
    + injection Hrun as <- <-. simpl. exists (Trying path :: lh ++ [Complete]).
      split; [by rewrite <- !app_assoc|].
      simpl. rewrite failedIn_app, Hq3. simpl.
      split; [constructor|]. intros k H. inversion H.
    + apply IH in Hrun as (l & Hl & Hnd & Hfresh). simpl in *.
      exists (Trying path :: lh ++ l).
      split; [rewrite Hl; by rewrite <- !app_assoc|].
      simpl. by rewrite failedIn_app, Hq3.
Qed.

(** X13.  Within one call no key is reported failed twice, and the dead-end
    memory that the call leaves behind holds no two paths with one key. *)
Theorem failures_reported_once (fuel : nat) (inputFiles : list File)
  (inputFormat outputFormat : FileFormat) (engine : ConversionEngine)
  (simpleMode : bool) (w : World) :
  let st := fst (convert fuel inputFiles inputFormat outputFormat engine simpleMode w) in
  NoDup (failedIn (log st))
  /\ NoDup (List.map pathKey (TraversionGraph.deadEndPaths (graph st))).
Proof.
  unfold convertFiles.
  match goal with |- context [tryPaths _ _ _ _ ?f ?i ?o ?fs ?it ?s0] =>
    destruct (tryPaths handlerReady handlerInit doConvert next f i o fs it s0)
      as [st out] eqn:Hrun end.
  pose proof Hrun as Hinv.
  apply tryPaths_inv in Hinv as (l & ps & Hl & _ & _ & Hd & Hk).
  apply tryPaths_failed_fresh in Hrun as (l' & Hl' & Hnd & _).
  assert (l' = l) as -> by (rewrite Hl in Hl'; by apply app_inv_head in Hl').
  simpl in *. rewrite Hl, Hd, Hk. simpl. split; [done|].
  apply NoDup_fmap_2; [|done]. by intros x y [= ->].
Qed.

End ExecutorMore.

(** ** More on the engine singleton *)

Lemma singleton_step_four rt a rt' out :
  rt = singletonIdle \/ rt = singletonBuilding
  \/ rt = singletonReady \/ rt = singletonFailed ->
  Singleton.step rt a = Some (rt', out) ->
  rt' = singletonIdle \/ rt' = singletonBuilding
  \/ rt' = singletonReady \/ rt' = singletonFailed.
Proof.
  intros [-> | [-> | [-> | ->]]] Hstep; destruct a as [|[|p]|[|p]];
    vm_compute in Hstep; simplify_eq; vm_compute; tauto.
Qed.

Lemma singleton_failed_step a rt' out :
  Singleton.step singletonFailed a = Some (rt', out) ->
  rt' = singletonFailed /\ out = [Singleton.InFlight 0].
Proof.
  destruct a as [|[|p]|[|p]]; vm_compute; intros H; by simplify_eq.
Qed.

Lemma singleton_failed_run acts : forall rt' answers,
  Singleton.run acts singletonFailed = Some (rt', answers) ->
  rt' = singletonFailed /\ Forall (fun a => a = Singleton.InFlight 0) answers.
Proof.
  induction acts as [|a acts IH]; intros rt' answers Hrun; simpl in Hrun.
  - by injection Hrun as <- <-.
  - destruct (Singleton.step singletonFailed a) as [[rt1 out1]|] eqn:Es; [|done].
    apply singleton_failed_step in Es as [-> ->].
    destruct (Singleton.run acts singletonFailed) as [[rt2 out2]|] eqn:Er; [|done].
    injection Hrun as <- <-. destruct (IH _ _ eq_refl) as [-> Hall].
    split; [done|]. by constructor.
Qed.

(** X14.  The module is always in one of four states: idle, building,
    ready or failed.  A rejected build is final: from then on every call of
    [getEngine] hands back the promise of that build, which never yields
    an engine, and [initializeEngine] is not started again. *)
Theorem getEngine_never_retries (acts : list Singleton.Action)
  (rt : Singleton.Runtime) (answers : list Singleton.Answer) :
  Singleton.run acts Singleton.initial = Some (rt, answers) ->
  (rt = singletonIdle \/ rt = singletonBuilding
   \/ rt = singletonReady \/ rt = singletonFailed)
  /\ (rt = singletonFailed ->
      forall acts' rt' answers',
        Singleton.run acts' rt = Some (rt', answers') ->
        rt' = singletonFailed
        /\ Singleton.started rt' = 1
        /\ forall a, a ∈ answers' ->
             a = Singleton.InFlight 0 /\ Singleton.awaited rt' a = None).
Proof.
  intros Hrun. split.
  - assert (G : forall acts rt0 rt1 out,
      rt0 = singletonIdle \/ rt0 = singletonBuilding
      \/ rt0 = singletonReady \/ rt0 = singletonFailed ->
      Singleton.run acts rt0 = Some (rt1, out) ->
      rt1 = singletonIdle \/ rt1 = singletonBuilding
      \/ rt1 = singletonReady \/ rt1 = singletonFailed).
    { clear. induction acts as [|a acts IH]; intros rt0 rt1 out H0 Hrun; simpl in Hrun.
      - by injection Hrun as <- <-.
      - destruct (Singleton.step rt0 a) as [[rt2 out2]|] eqn:Es; [|done].
        destruct (Singleton.run acts rt2) as [[rt3 out3]|] eqn:Er; [|done].
        injection Hrun as <- <-.
        eapply IH; [|exact Er]. by eapply singleton_step_four. }
    eapply G; [|exact Hrun]. by left.
  - intros -> acts' rt' answers' Hrun'.
    apply singleton_failed_run in Hrun' as [-> Hall].
    split; [done|]. split; [done|].
    intros a Ha. rewrite Forall_forall in Hall. by rewrite (Hall a Ha).
Qed.

(** ** The snapshot *)

Lemma entries_fold {A : Type} (m acc : list A) :
  List.fold_left (fun acc entry => acc ++ [entry]) m acc = acc ++ m.
Proof.
  revert acc. induction m as [|e m IH]; intros acc; simpl; [by rewrite app_nil_r|].
  by rewrite IH, <- app_assoc.
Qed.

Lemma of_entries_fold {V : Type} (es : list (string * V)) : forall m,
  NoDup (OMap.keys m ++ OMap.keys es) ->
  List.fold_left (fun m e => OMap.set (fst e) (snd e) m) es m = m ++ es.
Proof.
  induction es as [|[k v] es IH]; intros m Hnd; simpl; [by rewrite app_nil_r|].
  assert (Hfresh : OMap.get k m = None).
  { apply omap_get_not_key. intros Hin.
    apply NoDup_app in Hnd as (_ & Hdis & _). apply (Hdis _ Hin). left. }
  rewrite (omap_set_fresh _ _ _ Hfresh), IH; [by rewrite <- app_assoc|].
  unfold OMap.keys in *. rewrite map_app. simpl. by rewrite <- app_assoc.
Qed.

Lemma of_entries_id {V : Type} (es : list (string * V)) :
  NoDup (OMap.keys es) -> OMap.of_entries es = es.
Proof. intros Hnd. unfold OMap.of_entries. by rewrite of_entries_fold. Qed.

Lemma copy_eq (m : OMap.t (list FileFormat)) : forall m0 r0,
  NoDup (OMap.keys m0 ++ OMap.keys m) ->
  fst (List.fold_left
         (fun acc e => (OMap.set (fst e) (snd e) (fst acc), snd acc ++ snd e)) m (m0, r0))
  = m0 ++ m.
Proof.
  induction m as [|[k v] m IH]; intros m0 r0 Hnd; simpl; [by rewrite app_nil_r|].
  assert (Hfresh : OMap.get k m0 = None).
  { apply omap_get_not_key. intros Hin.
    apply NoDup_app in Hnd as (_ & Hdis & _). apply (Hdis _ Hin). left. }
  rewrite (omap_set_fresh _ _ _ Hfresh), IH; [by rewrite <- app_assoc|].
  unfold OMap.keys in *. rewrite map_app. simpl. by rewrite <- app_assoc.
Qed.

(** After loading, the cache holds every key once and the raw list is the
    concatenation of its lists. *)
Lemma loadCache_shape cacheJSON :
  NoDup (OMap.keys (fst (loadCache cacheJSON)))
  /\ snd (loadCache cacheJSON) = List.concat (OMap.values (fst (loadCache cacheJSON)))
  /\ (forall entries, cacheJSON = Some entries ->
        fst (loadCache cacheJSON) = OMap.of_entries entries).
Proof.
  destruct cacheJSON as [entries|]; simpl.
  2: { split; [constructor|]. done. }
  pose proof (omap_of_entries_NoDup entries) as Hnd.
  rewrite copy_raw, copy_eq by done. simpl.
  split; [done|]. split; [done|]. by intros ? [= <-].
Qed.

Section SnapshotFacts.

Context {World : Type}.
Variable handlerInit :
  FormatHandler -> World -> World * (option (list FileFormat) * bool).

Implicit Types (st : BootState World) (hs : list FormatHandler).

Lemma initHandlers_shape hs : forall st,
  NoDup (OMap.keys (bootCache st)) ->
  bootRaw st = List.concat (OMap.values (bootCache st)) ->
  let st' := fst (initHandlers handlerInit st hs) in
  NoDup (OMap.keys (bootCache st'))
  /\ bootRaw st' = List.concat (OMap.values (bootCache st')).
Proof.
  induction hs as [|h hs IH]; intros st Hnd Hraw; [done|].
  rewrite initHandlers_cons. simpl. apply IH.
  - destruct (initHandler_cases handlerInit st h)
      as [(c & _ & ->)|[(Hnone & w & fs0 & _ & ->)|(_ & w & sup & ok & _ & _ & ->)]];
      simpl; try done.
    by apply omap_keys_set_NoDup.
  - destruct (initHandler_cases handlerInit st h)
      as [(c & _ & ->)|[(Hnone & w & fs0 & _ & ->)|(_ & w & sup & ok & _ & _ & ->)]];
      simpl; try done.
    rewrite (omap_set_fresh _ _ _ Hnone), Hraw.
    unfold OMap.values. rewrite map_app, concat_app. simpl. by rewrite app_nil_r.
Qed.

Lemma bootstrap_shape (registry : list FormatHandler)
  (cacheJSON : option (list (string * list FileFormat))) (w : World) :
  let engine := snd (initializeEngine handlerInit registry cacheJSON w) in
  ConversionEngine.allFormats engine
    = mergeFormats
        (List.concat (OMap.values (ConversionEngine.supportedFormatCache engine)))
  /\ NoDup (OMap.keys (ConversionEngine.supportedFormatCache engine)).
Proof.
  unfold initializeEngine.
  pose proof (loadCache_shape cacheJSON) as (Hnd & Hraw & _).
  destruct (loadCache cacheJSON) as [cache0 raw0]. simpl in Hnd, Hraw.
  set (st0 := mkBoot w cache0 raw0 []).
  pose proof (initHandlers_shape registry st0 Hnd Hraw) as [Hnd' Hraw'].
  destruct (initHandlers handlerInit st0 registry) as [st hs]. simpl in *.
  by rewrite Hraw'.
Qed.

(** X15.  The catalog is a function of the format cache: it is the merge of
    the lists of the cache, taken in the order of the cache, and the cache
    holds every handler name once. *)
Theorem catalog_is_merge_of_cache (registry : list FormatHandler)
  (cacheJSON : option (list (string * list FileFormat))) (w : World) :
  let engine := snd (initializeEngine handlerInit registry cacheJSON w) in
  ConversionEngine.allFormats engine
    = mergeFormats
        (List.concat (OMap.values (ConversionEngine.supportedFormatCache engine)))
  /\ NoDup (OMap.keys (ConversionEngine.supportedFormatCache engine)).
Proof.
  unfold initializeEngine.
  pose proof (loadCache_shape cacheJSON) as (Hnd & Hraw & _).
  destruct (loadCache cacheJSON) as [cache0 raw0]. simpl in Hnd, Hraw.
  set (st0 := mkBoot w cache0 raw0 []).
  pose proof (initHandlers_shape registry st0 Hnd Hraw) as [Hnd' Hraw'].
  destruct (initHandlers handlerInit st0 registry) as [st hs]. simpl in *.
  by rewrite Hraw'.
Qed.

Lemma initHandlers_all_cached hs : forall st,
  (forall h, h ∈ hs -> OMap.has (FormatHandler.name h) (bootCache st) = true) ->
  initHandlers handlerInit st hs
  = (st, List.map (fun h => FormatHandler.mk (FormatHandler.name h)
                              (OMap.get (FormatHandler.name h) (bootCache st))) hs).
Proof.
  induction hs as [|h hs IH]; intros st Hall; [done|].
  rewrite initHandlers_cons.
  pose proof (Hall h ltac:(left)) as Hh. unfold OMap.has in Hh.
  destruct (OMap.get (FormatHandler.name h) (bootCache st)) as [c|] eqn:E; [|done].
  rewrite (initHandler_cached World handlerInit st h c E). simpl.
  rewrite IH by (intros; apply Hall; by right). simpl. by rewrite E.
Qed.

(** X16.  A printed format cache loads back as the same cache, entry by
    entry.  Bootstrapping with it a registry whose handler names it all
    holds calls no [init], leaves the outside world as it is, and gives an
    engine with the same cache and the same catalog. *)
Theorem printed_cache_reloads
  (stringify : list (string * list FileFormat) -> string)
  (parse : string -> option (list (string * list FileFormat)))
  (registry : list FormatHandler)
  (cacheJSON : option (list (string * list FileFormat))) (w : World) :
  let engine := snd (initializeEngine handlerInit registry cacheJSON w) in
  let text := printSupportedFormatCache stringify engine in
  let cache := ConversionEngine.supportedFormatCache engine in
  parse (stringify cache) = Some cache ->
  fst (loadCache (parse text)) = cache
  /\ forall registry' w',
       (forall h, h ∈ registry' -> OMap.has (FormatHandler.name h) cache = true) ->
       let handlers' :=
         List.map (fun h => FormatHandler.mk (FormatHandler.name h)
                              (OMap.get (FormatHandler.name h) cache)) registry' in
       initializeEngine handlerInit registry' (parse text) w'
       = (w', [],
          ConversionEngine.mk handlers' (TraversionGraph.init cache handlers')
            (ConversionEngine.allFormats engine) cache true).
Proof.
  intros engine text cache Hparse.
  destruct (bootstrap_shape registry cacheJSON w) as [Hcat Hnd].
  fold engine cache in Hcat, Hnd.
  assert (Htext : parse text = Some cache).
  { unfold text, printSupportedFormatCache. fold cache. by rewrite entries_fold. }
  clear Hparse. rename Htext into Hparse.
  pose proof (loadCache_shape (parse text)) as (_ & Hraw & Hof).
  specialize (Hof cache Hparse). rewrite (of_entries_id _ Hnd) in Hof.
  split; [done|].
  intros registry' w' Hall handlers'. unfold initializeEngine.
  destruct (loadCache (parse text)) as [cache1 raw1]. simpl in Hraw, Hof. subst cache1.
  rewrite initHandlers_all_cached by done. simpl.
  by rewrite Hraw, <- Hcat.
Qed.

End SnapshotFacts.

(** ** The further properties at the sample installations *)

Example booted_cache :
  ConversionEngine.supportedFormatCache Demo.booted
  = [("H1", [Sample.png]); ("H2", [Sample.svg; Sample.pdf; Sample.png])]
  /\ ConversionEngine.allFormats Demo.booted = [Sample.png; Sample.svg; Sample.pdf].
Proof. vm_compute. done. Qed.

Lemma findHandlerForFormat_first_witness :
  findHandlerForFormat Sample.tiff Sample.handlers = None.
Proof.
  apply (proj1 (proj2 (findHandlerForFormat_first Sample.tiff Sample.handlers))).
  apply (proj1 (find_None_iff _ _ (supports_spec Sample.tiff) Sample.handlers)).
  reflexivity.
Defined.

Lemma fileExtension_last_segment_witness :
  fileExtension Sample.toLowerCase
    (File.mk ("archive.tar" +:+ String "." "GZ") "application/gzip" []) = "gz"
  /\ lacks "." (fileExtension Sample.toLowerCase Sample.input) = true.
Proof.
  destruct (fileExtension_last_segment Sample.toLowerCase) as (_ & Hlast & _ & Hdot).
  split.
  - apply (Hlast "archive.tar" "GZ"). reflexivity.
  - apply Hdot. intros s Hs. by rewrite toLowerCase_lacks_dot.
Defined.

Lemma mergeFormats_idempotent_witness :
  mergeFormats [Sample.svg; Sample.pdf; Sample.png] = [Sample.svg; Sample.pdf; Sample.png].
Proof.
  apply (proj2 (mergeFormats_idempotent [Sample.svg; Sample.pdf; Sample.png])).
  apply (bool_decide_unpack _). vm_compute. exact I.
Defined.

Lemma mergeFormats_first_contributor_witness :
  exists f, FirstIn (fun x => formatKey x = formatKey (mergeFlags Sample.jpegB Sample.jpegA))
                    [Sample.png; Sample.jpegB; Sample.jpegA] f
            /\ sameDescription (mergeFlags Sample.jpegB Sample.jpegA) f.
Proof.
  apply (proj2 (mergeFormats_first_contributor [Sample.png; Sample.jpegB; Sample.jpegA])).
  apply list_elem_of_further, list_elem_of_here.
Defined.

Lemma catalog_covers_cache_witness :
  exists g, g ∈ ConversionEngine.allFormats Demo.booted
    /\ formatKey g = formatKey Sample.pdf
    /\ (FileFormat.from Sample.pdf = true -> FileFormat.from g = true)
    /\ (FileFormat.to Sample.pdf = true -> FileFormat.to g = true)
    /\ (FileFormat.lossless Sample.pdf = true -> FileFormat.lossless g = true).
Proof.
  apply (catalog_covers_cache Sample.bootInit Demo.registry Demo.snapshot []
           "H2" [Sample.svg; Sample.pdf; Sample.png] Sample.pdf).
  - reflexivity.
  - apply list_elem_of_further, list_elem_of_here.
Defined.

Lemma cache_agrees_with_handlers_witness :
  FormatHandler.supportedFormats
    (FormatHandler.mk "H2" (Some [Sample.svg; Sample.pdf; Sample.png]))
  = Some [Sample.svg; Sample.pdf; Sample.png].
Proof.
  apply (cache_agrees_with_handlers Sample.bootInit Demo.registry Demo.snapshot []).
  - apply (bool_decide_unpack _). vm_compute. exact I.
  - apply list_elem_of_further, list_elem_of_here.
  - reflexivity.
Defined.

Lemma catalog_formats_have_handlers_witness :
  exists h, findHandlerForFormat Sample.pdf (ConversionEngine.handlers Demo.booted) = Some h
            /\ Lists Sample.pdf h.
Proof.
  apply (catalog_formats_have_handlers Sample.bootInit Demo.registry Demo.snapshot []).
  - apply (bool_decide_unpack _). vm_compute. exact I.
  - intros n Hn. apply list_elem_of_singleton in Hn as ->. apply list_elem_of_here.
  - apply list_elem_of_further, list_elem_of_further, list_elem_of_here.
Defined.

Lemma resolving_handlers_initialised_once_witness :
  NoDup (snd (fst (initializeEngine Sample.bootInit Demo.twins None [])))
  /\ forall h,
       h ∈ ConversionEngine.handlers
             (snd (initializeEngine Sample.bootInit Demo.twins None [])) ->
       is_Some (FormatHandler.supportedFormats h)
       /\ FormatHandler.supportedFormats h
          = OMap.get (FormatHandler.name h)
              (ConversionEngine.supportedFormatCache
                 (snd (initializeEngine Sample.bootInit Demo.twins None []))).
Proof.
  apply (resolving_handlers_initialised_once Sample.bootInit Demo.twins None []).
  intros h w0 Hh.
  assert (h = Sample.fresh "H1") as ->.
  { apply elem_of_cons in Hh as [->|Hh]; [done|].
    by apply list_elem_of_singleton in Hh. }
  eexists _, _. reflexivity.
Defined.

Lemma path_without_hops_returns_input_witness :
  tryPaths Sample.handlerReady Sample.handlerInit Sample.doConvert listNext
    (S 0) Sample.svg Sample.svg Sample.files [Demo.alone] Sample.st0
  = (mkExec (world Sample.st0) (graph Sample.st0) (failedPaths Sample.st0)
       ((log Sample.st0 ++ [Trying Demo.alone]) ++ [Complete]),
     Resolved (ConversionResult.mk Sample.files Demo.alone)).
Proof.
  apply (proj1 (proj2 (path_without_hops_returns_input
           Sample.handlerReady Sample.handlerInit Sample.doConvert listNext
           0 Sample.svg Sample.svg Sample.files [Demo.alone] Sample.st0
           Demo.alone [] "H2:svg" eq_refl eq_refl (not_elem_of_empty _)
           (le_n 1)))).
  discriminate.
Defined.

Lemma resolved_result_is_sound_witness :
  Forall (fun f => length (FileData.bytes f) <> 0)
    [FileData.mk "a.svg.pdf.png" ["<"%byte; "s"%byte]].
Proof.
  apply (proj1 (proj2 (resolved_result_is_sound
           Sample.handlerReady Sample.handlerInit Sample.doConvert
           (Sample.searching [Sample.direct1; Sample.viaPdf]) listNext
           5 [Sample.input] Sample.svg Sample.png Sample.engine true []
           (fst (Sample.run [Sample.direct1; Sample.viaPdf] 5))
           (ConversionResult.mk [FileData.mk "a.svg.pdf.png" ["<"%byte; "s"%byte]]
                                Sample.viaPdf)
           ltac:(vm_compute; reflexivity)))).
  simpl. lia.
Defined.

Lemma getEngine_never_retries_witness :
  Singleton.InFlight 0 = Singleton.InFlight 0
  /\ Singleton.awaited singletonFailed (Singleton.InFlight 0) = None.
Proof.
  apply (proj2 (proj2 (proj2 (getEngine_never_retries
           [Singleton.CallGetEngine; Singleton.InitRejects 0]
           singletonFailed [Singleton.InFlight 0] eq_refl) eq_refl
           [Singleton.CallGetEngine; Singleton.CallGetEngine] singletonFailed
           [Singleton.InFlight 0; Singleton.InFlight 0] eq_refl))).
  apply list_elem_of_here.
Defined.

Lemma printed_cache_reloads_witness :
  fst (loadCache (Demo.parse (printSupportedFormatCache Demo.stringify Demo.booted)))
  = ConversionEngine.supportedFormatCache Demo.booted.
Proof.
  apply (proj1 (printed_cache_reloads Sample.bootInit Demo.stringify Demo.parse
                  Demo.registry Demo.snapshot [] eq_refl)).
Defined.

(** ** Termination of a call *)

Section ExecutorSettles.

Context {World : Type}.
Variable handlerReady : FormatHandler -> World -> bool.
Variable handlerInit :
  FormatHandler -> World -> World * (option (list FileFormat) * bool).
Variable doConvert :
  FormatHandler -> list FileData -> FileFormat -> FileFormat ->
  World -> World * option (list FileData).



End ExecutorSettles.


(** ** The conversion page *)

Lemma mixedTypes_spec (selectedFiles : list File) :
  mixedTypes selectedFiles = true
  <-> exists f g, f ∈ selectedFiles /\ g ∈ selectedFiles /\ File.type f <> File.type g.
Proof.
  unfold mixedTypes. destruct selectedFiles as [|first rest].
  { split; [done|]. intros (f & _ & Hf & _). inversion Hf. }
  rewrite existsb_elem. split.
  - intros (f & Hf & Hne). apply negb_true_iff in Hne.
    exists f, first. split; [done|]. split; [left|].
    intros Heq. rewrite Heq, String.eqb_refl in Hne. done.
  - intros (f & g & Hf & Hg & Hne).
    destruct (String.eqb_spec (File.type f) (File.type first)) as [Ef|Ef].
    + exists g. split; [done|]. apply negb_true_iff.
      destruct (String.eqb_spec (File.type g) (File.type first)); congruence.
    + exists f. split; [done|]. apply negb_true_iff.
      destruct (String.eqb_spec (File.type f) (File.type first)); congruence.
Qed.

Lemma detectInputFormat_sound toLowerCase normalizeMimeType file allFormats f :
  detectInputFormat toLowerCase normalizeMimeType file allFormats = Some f ->
  f ∈ allFormats /\ FileFormat.from f = true.
Proof.
  unfold detectInputFormat.
  set (e := fileExtension toLowerCase file).
  set (m := normalizeMimeType (File.type file)).
  destruct (List.find (byExtensionAndMime toLowerCase e m) allFormats) as [f1|] eqn:E1.
  { intros [= <-]. apply find_some in E1 as [Hin Hp]. split; [by apply list_elem_of_In|].
    unfold byExtensionAndMime in Hp. by repeat (apply andb_true_iff in Hp as [Hp _]). }
  destruct (List.find (byExtension toLowerCase e) allFormats) as [f2|] eqn:E2.
  { intros [= <-]. apply find_some in E2 as [Hin Hp]. split; [by apply list_elem_of_In|].
    unfold byExtension in Hp. by apply andb_true_iff in Hp as [Hp _]. }
  destruct (truthy m); [|done].
  intros E3. apply find_some in E3 as [Hin Hp]. split; [by apply list_elem_of_In|].
  unfold byMime in Hp. by apply andb_true_iff in Hp as [Hp _].
Qed.

(** X18.  Selecting files on the page.  The selection is refused, with an
    alert and the page left as it is, exactly when two of the files differ
    in their [type]; names and extensions are not compared.  An accepted
    selection replaces the files and clears the results of an earlier
    conversion.  When [detectInputFormat] finds a format for the first
    file, that format, a from-capable format of the catalog, becomes the
    input format, whatever was chosen before and whatever the other files
    are; when it finds none, or no file was selected, the input format
    chosen before stays, so a selection never clears it.  The output
    format is not touched. *)
Theorem handleFilesSelected_first_file (toLowerCase normalizeMimeType : string -> string)
  (selectedFiles : list File) (page : Page) :
  let r := handleFilesSelected toLowerCase normalizeMimeType selectedFiles page in
  let page' := fst r in
  let detect first :=
    detectInputFormat toLowerCase normalizeMimeType first (Page.allFormats page) in
  ((exists f g, f ∈ selectedFiles /\ g ∈ selectedFiles /\ File.type f <> File.type g)
   -> r = (page, true))
  /\ ((forall f g, f ∈ selectedFiles -> g ∈ selectedFiles -> File.type f = File.type g)
      -> snd r = false
         /\ Page.files page' = selectedFiles
         /\ Page.status page' = Page.StIdle
         /\ Page.outputFiles page' = []
         /\ Page.conversionPath page' = EmptyString
         /\ Page.outputFormat page' = Page.outputFormat page
         /\ (forall first d,
               head selectedFiles = Some first -> detect first = Some d ->
               Page.inputFormat page' = Some d
               /\ d ∈ Page.allFormats page /\ FileFormat.from d = true)
         /\ ((forall first, head selectedFiles = Some first -> detect first = None) ->
             Page.inputFormat page' = Page.inputFormat page)
         /\ (Page.inputFormat page <> None -> Page.inputFormat page' <> None)
         /\ (forall others,
               (forall f g, f ∈ others -> g ∈ others -> File.type f = File.type g) ->
               head others = head selectedFiles ->
               Page.inputFormat
                 (fst (handleFilesSelected toLowerCase normalizeMimeType others page))
               = Page.inputFormat page')).
Proof.
  intros r page' detect. split.
  - intros Hmixed. apply mixedTypes_spec in Hmixed.
    subst r. unfold handleFilesSelected. by rewrite Hmixed.
  - intros Hsame.
    assert (Hun : forall l, (forall f g, f ∈ l -> g ∈ l -> File.type f = File.type g) ->
                            mixedTypes l = false).
    { intros l Hl. destruct (mixedTypes l) eqn:E; [|done].
      apply mixedTypes_spec in E as (f & g & Hf & Hg & Hne). by specialize (Hl f g Hf Hg). }
    assert (Hempty : forall first,
              detectInputFormat toLowerCase normalizeMimeType first [] = None).
    { intros first. unfold detectInputFormat. simpl. by destruct (truthy _). }
    subst page' r detect. unfold handleFilesSelected. rewrite (Hun _ Hsame). simpl.
    repeat (split; [done|]). split; [|split; [|split]].
    + intros first d Hhead Hd.
      destruct selectedFiles as [|first' rest]; [done|]. injection Hhead as ->.
      destruct (detectInputFormat_sound _ _ _ _ _ Hd) as [Hin Hfrom].
      split; [|done].
      destruct (Page.allFormats page) as [|a cat]; [by rewrite Hempty in Hd|].
      by rewrite Hd.
    + intros Hnone.
      destruct selectedFiles as [|first rest]; [done|].
      destruct (Page.allFormats page) as [|a cat]; [done|].
      by rewrite (Hnone first eq_refl).
    + intros Hsome.
      destruct selectedFiles as [|first rest]; [done|].
      destruct (Page.allFormats page) as [|a cat]; [done|].
      by destruct (detectInputFormat toLowerCase normalizeMimeType first (a :: cat)).
    + intros others Hothers Hhead. rewrite (Hun _ Hothers). simpl.
      destruct others as [|o os], selectedFiles as [|first rest]; simpl in Hhead;
        try done.
      by injection Hhead as ->.
Qed.

Section PageFacts.

Context {World : Type}.
Variable handlerReady : FormatHandler -> World -> bool.
Variable handlerInit :
  FormatHandler -> World -> World * (option (list FileFormat) * bool).
Variable doConvert :
  FormatHandler -> list FileData -> FileFormat -> FileFormat ->
  World -> World * option (list FileData).
Context {Iter : Type}.
Variable searchPath :
  TraversionGraph -> ConvertPathNode -> ConvertPathNode -> bool -> Iter.
Variable next : Iter -> TraversionGraph -> option (Path * Iter).
Context {Urls : Type}.
Variable createObjectURL : list byte -> Urls -> Urls * string.
Variable revokeObjectURL : string -> Urls -> Urls.
Variable typeErrorMessage : string.

#[local] Abbreviation convert :=
  (convertFiles handlerReady handlerInit doConvert searchPath next).
#[local] Abbreviation onConvert :=
  (handleConvert handlerReady handlerInit doConvert searchPath next
     createObjectURL revokeObjectURL typeErrorMessage).

Lemma makeOutputs_names files : forall u,
  List.map Page.name (snd (makeOutputs Urls createObjectURL files u))
  = List.map FileData.name files.
Proof.
  induction files as [|f files IH]; intros u; simpl; [done|].
  destruct (createObjectURL (FileData.bytes f) u) as [u1 url].
  specialize (IH u1). destruct (makeOutputs Urls createObjectURL files u1) as [u2 outs].
  simpl in *. by rewrite IH.
Qed.

(** X19.  Pressing Convert.  Nothing happens, and no handler is called,
    while the engine, the input format, the output format or the files are
    missing.  Otherwise the page takes the outcome of [convertFiles]: on
    success it shows one output per returned file, under the file's name
    and in the same order, at least one, together with the display names
    of the path joined by arrows, and it remembers exactly the object URLs
    of these outputs; on failure it shows the message of the error and no
    output, and when the candidates were exhausted this message names the
    chosen input and output formats.  The files and the chosen formats are
    never changed. *)
Theorem handleConvert_outcomes (page : Page) (w : World) (u : Urls) :
  (Page.engine page = None \/ Page.inputFormat page = None
   \/ Page.outputFormat page = None \/ Page.files page = [] ->
   forall fuel, onConvert fuel page w u = (page, w, u))
  /\ (forall engine inputFormat outputFormat fuel st outcome,
        Page.engine page = Some engine ->
        Page.inputFormat page = Some inputFormat ->
        Page.outputFormat page = Some outputFormat ->
        Page.files page <> [] ->
        convert fuel (Page.files page) inputFormat outputFormat engine
          (Page.simpleMode page) w = (st, outcome) ->
        let page' := fst (fst (onConvert fuel page w u)) in
        Page.files page' = Page.files page
        /\ Page.inputFormat page' = Page.inputFormat page
        /\ Page.outputFormat page' = Page.outputFormat page
        /\ match outcome with
           | Resolved result =>
               Page.status page' = Page.StSuccess
               /\ Page.error page' = EmptyString
               /\ Page.conversionPath page' = pathString (ConversionResult.path result)
               /\ List.map Page.name (Page.outputFiles page')
                  = List.map FileData.name (ConversionResult.files result)
               /\ Page.outputFiles page' <> []
               /\ Page.blobUrls page' = List.map Page.url (Page.outputFiles page')
           | Rejected e =>
               Page.status page' = Page.StError
               /\ Page.error page' = errorText typeErrorMessage e
               /\ Page.outputFiles page' = []
               /\ Page.conversionPath page' = EmptyString
               /\ Page.blobUrls page' = Page.blobUrls page
               /\ snd (onConvert fuel page w u) = u
               /\ (forall m, e = ErrorMessage m ->
                     Page.error page'
                     = "Could not find a working conversion path from "
                       +:+ FileFormat.format inputFormat +:+ " to "
                       +:+ FileFormat.format outputFormat)
           | Pending => Page.status page' = Page.StConverting
           end).
Proof.
  split.
  - intros Hmiss fuel. unfold handleConvert.
    destruct (Page.engine page) as [e|]; [|done].
    destruct (Page.inputFormat page) as [i|]; [|done].
    destruct (Page.outputFormat page) as [o|]; [|done].
    destruct Hmiss as [?|[?|[?|Hf]]]; try done. by rewrite Hf.
  - intros engine inputFormat outputFormat fuel st outcome He Hi Ho Hf Hrun page'.
    subst page'. unfold handleConvert. rewrite He, Hi, Ho.
    destruct (Page.files page) as [|f0 fs] eqn:Efiles; [done|]. simpl Nat.eqb. cbv iota.
    rewrite Hrun. destruct outcome as [result|e|].
    + pose proof (makeOutputs_names (ConversionResult.files result)
                    (List.fold_left (fun u url => revokeObjectURL url u)
                       (Page.blobUrls page) u)) as Hnames.
      destruct (makeOutputs Urls createObjectURL _ _) as [u2 outputs]. simpl in *.
      repeat (split; [done|]). split; [|done].
      unfold convertFiles in Hrun.
      apply tryPaths_resolved in Hrun as (Hne & _).
      intros ->. simpl in Hnames. symmetry in Hnames.
      by apply map_eq_nil in Hnames.
    + simpl. repeat (split; [done|]).
      intros m ->. unfold convertFiles in Hrun.
      apply tryPaths_rejected in Hrun as [[[= ->] _]|[[=] _]]. done.
    + done.
Qed.

End PageFacts.

Lemma handleFilesSelected_first_file_witness :
  handleFilesSelected Sample.toLowerCase Sample.sameMime
    [Sample.input; Demo.photo] Demo.page
  = (Demo.page, true)
  /\ Page.files Demo.selected = [Sample.input]
  /\ Page.outputFormat Demo.selected = Some Sample.png
  /\ Page.inputFormat Demo.selected = Some Sample.svg
  /\ Page.inputFormat
       (fst (handleFilesSelected Sample.toLowerCase Sample.sameMime
               [Demo.unknown] Demo.selected))
     = Some Sample.svg.
Proof.
  pose proof (handleFilesSelected_first_file Sample.toLowerCase Sample.sameMime
                [Sample.input; Demo.photo] Demo.page) as [Hmixed _].
  pose proof (handleFilesSelected_first_file Sample.toLowerCase Sample.sameMime
                [Sample.input] Demo.page) as [_ Hone].
  pose proof (handleFilesSelected_first_file Sample.toLowerCase Sample.sameMime
                [Demo.unknown] Demo.selected) as [_ Hnext].
  assert (Hsingle : forall x : File, forall f g, f ∈ [x] -> g ∈ [x] ->
                      File.type f = File.type g).
  { intros x f g Hf Hg. apply list_elem_of_singleton in Hf, Hg. by subst. }
  destruct (Hone (Hsingle _)) as (_ & Hfiles & _ & _ & _ & Hout & Hadopt & _).
  destruct (Hnext (Hsingle _)) as (_ & _ & _ & _ & _ & _ & _ & Hkeep & _).
  split; [|split; [|split; [|split]]].
  - apply Hmixed. exists Sample.input, Demo.photo.
    split; [left|]. split; [right; left|]. vm_compute. discriminate.
  - exact Hfiles.
  - exact Hout.
  - apply (Hadopt Sample.input Sample.svg); reflexivity.
  - refine (eq_trans (Hkeep _) _); [|reflexivity].
    intros first [= <-]. reflexivity.
Defined.

Lemma handleConvert_outcomes_witness :
  Demo.press [Sample.direct1; Sample.viaPdf] 3 Demo.page = (Demo.page, [], [])
  /\ Page.status (fst (fst (Demo.press [Sample.direct1; Sample.viaPdf] 3 Demo.selected)))
     = Page.StSuccess
  /\ Page.error (fst (fst (Demo.press [Sample.direct1] 3 Demo.selected)))
     = "Could not find a working conversion path from SVG to PNG".
Proof.
  pose proof (handleConvert_outcomes Sample.handlerReady Sample.handlerInit
                Sample.doConvert (Sample.searching [Sample.direct1; Sample.viaPdf])
                listNext Demo.createObjectURL Demo.revokeObjectURL
                "Cannot read properties of undefined" Demo.page [] []) as [Hidle _].
  pose proof (handleConvert_outcomes Sample.handlerReady Sample.handlerInit
                Sample.doConvert (Sample.searching [Sample.direct1; Sample.viaPdf])
                listNext Demo.createObjectURL Demo.revokeObjectURL
                "Cannot read properties of undefined" Demo.selected [] []) as [_ Hok].
  pose proof (handleConvert_outcomes Sample.handlerReady Sample.handlerInit
                Sample.doConvert (Sample.searching [Sample.direct1])
                listNext Demo.createObjectURL Demo.revokeObjectURL
                "Cannot read properties of undefined" Demo.selected [] []) as [_ Hbad].
  split; [|split].
  - apply Hidle. right. left. reflexivity.
  - specialize (Hok Sample.engine Sample.svg Sample.png 3 _ _
                  eq_refl eq_refl eq_refl ltac:(discriminate) eq_refl).
    apply Hok.
  - specialize (Hbad Sample.engine Sample.svg Sample.png 3 _ _
                  eq_refl eq_refl eq_refl ltac:(discriminate) eq_refl).
    apply Hbad.
Defined.

(** ** Bootstrap: which handlers the engine is ready with *)

Section BootstrapRun.

Context {World : Type}.
Variable handlerInit :
  FormatHandler -> World -> World * (option (list FileFormat) * bool).

Implicit Types (st : BootState World) (hs : list FormatHandler).

Lemma initHandlers_app pre : forall st post,
  initHandlers handlerInit st (pre ++ post)
  = (fst (initHandlers handlerInit (fst (initHandlers handlerInit st pre)) post),
     snd (initHandlers handlerInit st pre)
     ++ snd (initHandlers handlerInit (fst (initHandlers handlerInit st pre)) post)).
Proof.
  induction pre as [|h pre IH]; intros st post.
  - simpl. by destruct (initHandlers handlerInit st post).
  - rewrite <- app_comm_cons, !initHandlers_cons, IH. done.
Qed.

(** One iteration of the loop, by the fate of its handler. *)
Lemma initHandler_fate st h :
  let st1 := fst (initHandler handlerInit st h) in
  match fate handlerInit st h with
  | Adopted cached =>
      OMap.get (FormatHandler.name h) (bootCache st) = Some cached
      /\ initHandler handlerInit st h
         = (st, FormatHandler.mk (FormatHandler.name h) (Some cached))
  | Succeeded fs =>
      OMap.get (FormatHandler.name h) (bootCache st) = None
      /\ bootCache st1 = OMap.set (FormatHandler.name h) fs (bootCache st)
      /\ bootRaw st1 = bootRaw st ++ fs
      /\ snd (initHandler handlerInit st h)
         = FormatHandler.mk (FormatHandler.name h) (Some fs)
  | Listless | Failed =>
      OMap.get (FormatHandler.name h) (bootCache st) = None
      /\ bootCache st1 = bootCache st /\ bootRaw st1 = bootRaw st
  end.
Proof.
  unfold fate, initHandler.
  destruct (OMap.get (FormatHandler.name h) (bootCache st)) as [cached|]; [done|].
  destruct (handlerInit h (bootWorld st)) as [w [[fs|] [|]]]; simpl; done.
Qed.

(** A name the cache holds after the loop was held before it, or belongs to
    a handler the loop went through. *)
Lemma initHandlers_cache_names hs : forall st n fs,
  OMap.get n (bootCache (fst (initHandlers handlerInit st hs))) = Some fs ->
  OMap.get n (bootCache st) = Some fs
  \/ exists pre h post, hs = pre ++ h :: post /\ FormatHandler.name h = n
       /\ fate handlerInit (fst (initHandlers handlerInit st pre)) h = Succeeded fs.
Proof.
  induction hs as [|h hs IH]; intros st n fs Hget; [by left|].
  rewrite initHandlers_cons in Hget. simpl in Hget.
  destruct (IH _ _ _ Hget) as [Hone|(pre & h' & post & -> & Hn & Hfate)].
  - pose proof (initHandler_fate st h) as Hf. simpl in Hf.
    destruct (fate handlerInit st h) as [cached|fs0| |] eqn:Ef.
    + destruct Hf as [_ Hf]. rewrite Hf in Hone. by left.
    + destruct Hf as (_ & Hc & _). rewrite Hc in Hone.
      destruct (String.eqb_spec (FormatHandler.name h) n) as [E|E].
      * subst n. rewrite omap_get_set_eq in Hone. injection Hone as ->.
        right. by exists [], h, hs.
      * rewrite omap_get_set_ne in Hone by done. by left.
    + destruct Hf as (_ & Hc & _). rewrite Hc in Hone. by left.
    + destruct Hf as (_ & Hc & _). rewrite Hc in Hone. by left.
  - right. exists (h :: pre), h', post. split; [done|]. split; [done|].
    by rewrite initHandlers_cons.
Qed.

(** The raw list only grows along the loop. *)
Lemma initHandlers_raw_grows hs : forall st f,
  f ∈ bootRaw st -> f ∈ bootRaw (fst (initHandlers handlerInit st hs)).
Proof.
  induction hs as [|h hs IH]; intros st f Hf; [done|].
  rewrite initHandlers_cons. simpl. apply IH.
  pose proof (initHandler_fate st h) as Hfate. simpl in Hfate.
  destruct (fate handlerInit st h).
  - destruct Hfate as [_ ->]. done.
  - destruct Hfate as (_ & _ & -> & _). apply elem_of_app. by left.
  - destruct Hfate as (_ & _ & ->). done.
  - destruct Hfate as (_ & _ & ->). done.
Qed.

(** The raw list after the loop: what it was, then the contributions of
    the handlers, in their order. *)
Lemma initHandlers_raw hs : forall st,
  bootRaw (fst (initHandlers handlerInit st hs))
  = bootRaw st
    ++ List.concat
         (imap (fun i h =>
                  contribution handlerInit
                    (fst (initHandlers handlerInit st (take i hs))) h) hs).
Proof.
  induction hs as [|h hs IH]; intros st.
  - simpl. by rewrite app_nil_r.
  - assert (Hstep : bootRaw (fst (initHandler handlerInit st h))
                    = bootRaw st ++ contribution handlerInit st h).
    { pose proof (initHandler_fate st h) as Hfate. simpl in Hfate.
      unfold contribution. destruct (fate handlerInit st h).
      - destruct Hfate as [_ ->]. by rewrite app_nil_r.
      - by destruct Hfate as (_ & _ & -> & _).
      - destruct Hfate as (_ & _ & ->). by rewrite app_nil_r.
      - destruct Hfate as (_ & _ & ->). by rewrite app_nil_r. }
    rewrite initHandlers_cons. cbn [fst]. rewrite IH, Hstep, <- app_assoc.
    rewrite imap_cons. cbn [List.concat take]. f_equal. f_equal. f_equal.
    apply imap_ext. intros i x _. cbn [compose take].
    by rewrite initHandlers_cons.
Qed.

(** When no handler succeeds, the loop leaves cache and raw list alone. *)
Lemma initHandlers_none_succeeded hs : forall st,
  (forall pre h post fs, hs = pre ++ h :: post ->
     fate handlerInit (fst (initHandlers handlerInit st pre)) h <> Succeeded fs) ->
  bootCache (fst (initHandlers handlerInit st hs)) = bootCache st
  /\ bootRaw (fst (initHandlers handlerInit st hs)) = bootRaw st.
Proof.
  induction hs as [|h hs IH]; intros st Hnone; [done|].
  rewrite initHandlers_cons. simpl.
  pose proof (initHandler_fate st h) as Hfate. simpl in Hfate.
  assert (Hstep : bootCache (fst (initHandler handlerInit st h)) = bootCache st
                  /\ bootRaw (fst (initHandler handlerInit st h)) = bootRaw st).
  { destruct (fate handlerInit st h) as [cached|fs| |] eqn:Ef.
    - destruct Hfate as [_ ->]. done.
    - by destruct (Hnone [] h hs fs eq_refl).
    - by destruct Hfate as (_ & ? & ?).
    - by destruct Hfate as (_ & ? & ?). }
  destruct Hstep as [Hc Hr].
  destruct (IH (fst (initHandler handlerInit st h))) as [Hc' Hr'].
  { intros pre h' post fs -> Hfs.
    apply (Hnone (h :: pre) h' post fs eq_refl). by rewrite initHandlers_cons. }
  by rewrite Hc', Hr'.
Qed.

(** C8.  A handler whose [init] rejects, in the world the loop has reached
    when it takes the handler up, is skipped: its iteration leaves the
    format cache and the raw format list as they were, and unless a later
    handler bears its name the cache of the engine holds nothing under it.
    A handler whose [init] resolves with a format list is in: the cache
    holds that list under its name, the handler carries it, and each of its
    formats has an entry in the catalog.  Every cache entry stems from the
    snapshot or from such a handler, every catalog format is described by
    a format of a cache entry, and the catalog is the merge of the formats
    of the snapshot followed by the lists of the handlers that succeeded,
    in registry order.  Construction is never aborted: the
    engine is returned ready, with the whole registry, also when no handler
    succeeds (then the cache and the catalog hold what the snapshot gave,
    nothing when there is none). *)
Theorem init_failure_excludes_handler (registry : list FormatHandler)
  (cacheJSON : option (list (string * list FileFormat))) (w : World) :
  let engine := snd (initializeEngine handlerInit registry cacheJSON w) in
  let cache := ConversionEngine.supportedFormatCache engine in
  let snapshot := loadCache cacheJSON in
  let before := reached handlerInit cacheJSON w in
  ConversionEngine.ready engine = true
  /\ List.map FormatHandler.name (ConversionEngine.handlers engine)
     = List.map FormatHandler.name registry
  /\ (forall pre h post, registry = pre ++ h :: post ->
        match fate handlerInit (before pre) h with
        | Failed | Listless =>
            bootCache (before (pre ++ [h])) = bootCache (before pre)
            /\ bootRaw (before (pre ++ [h])) = bootRaw (before pre)
            /\ ((forall h', h' ∈ post -> FormatHandler.name h' <> FormatHandler.name h) ->
                OMap.get (FormatHandler.name h) cache = None)
        | Succeeded fs =>
            OMap.get (FormatHandler.name h) cache = Some fs
            /\ ConversionEngine.handlers engine !! length pre
               = Some (FormatHandler.mk (FormatHandler.name h) (Some fs))
            /\ (forall f, f ∈ fs ->
                  exists g, g ∈ ConversionEngine.allFormats engine
                    /\ formatKey g = formatKey f
                    /\ (FileFormat.from f = true -> FileFormat.from g = true)
                    /\ (FileFormat.to f = true -> FileFormat.to g = true)
                    /\ (FileFormat.lossless f = true -> FileFormat.lossless g = true))
        | Adopted cached => OMap.get (FormatHandler.name h) cache = Some cached
        end)
  /\ (forall n fs, OMap.get n cache = Some fs ->
        OMap.get n (fst snapshot) = Some fs
        \/ exists pre h post, registry = pre ++ h :: post /\ FormatHandler.name h = n
             /\ fate handlerInit (before pre) h = Succeeded fs)
  /\ (forall g, g ∈ ConversionEngine.allFormats engine ->
        exists n fs f, OMap.get n cache = Some fs /\ f ∈ fs /\ sameDescription g f)
  /\ ConversionEngine.allFormats engine
     = mergeFormats
         (snd snapshot
          ++ List.concat
               (imap (fun i h => contribution handlerInit (before (take i registry)) h)
                  registry))
  /\ ((forall pre h post fs, registry = pre ++ h :: post ->
         fate handlerInit (before pre) h <> Succeeded fs) ->
      cache = fst snapshot
      /\ ConversionEngine.allFormats engine = mergeFormats (snd snapshot)
      /\ (cacheJSON = None ->
          cache = OMap.empty /\ ConversionEngine.allFormats engine = [])).
Proof.
  unfold initializeEngine, reached.
  destruct (loadCache cacheJSON) as [cache0 raw0] eqn:Esnap. cbn [fst snd].
  set (st0 := mkBoot w cache0 raw0 []).
  pose proof (initHandlers_names handlerInit registry st0) as Hnames.
  pose proof (initHandlers_cache_names registry st0) as Horigin.
  pose proof (initHandlers_none_succeeded registry st0) as Hnone.
  pose proof (initHandlers_raw registry st0) as Hraw.
  assert (Hcover : forall f, f ∈ bootRaw (fst (initHandlers handlerInit st0 registry)) ->
            exists n fs, OMap.get n (bootCache (fst (initHandlers handlerInit st0 registry)))
                         = Some fs /\ f ∈ fs).
  { pose proof (loadCache_cover cacheJSON) as [Hc1 Hc2]. rewrite Esnap in Hc1, Hc2.
    by apply (initHandlers_cover handlerInit registry st0). }
  assert (Hsplit : forall pre h post, registry = pre ++ h :: post ->
            let st := fst (initHandlers handlerInit st0 pre) in
            let st1 := fst (initHandler handlerInit st h) in
            fst (initHandlers handlerInit st0 (pre ++ [h])) = st1
            /\ fst (initHandlers handlerInit st0 registry)
               = fst (initHandlers handlerInit st1 post)
            /\ snd (initHandlers handlerInit st0 registry) !! length pre
               = Some (snd (initHandler handlerInit st h))).
  { intros pre h post -> st st1. rewrite !initHandlers_app, !initHandlers_cons.
    simpl. split; [done|]. split; [done|].
    rewrite lookup_app_r; rewrite (initHandlers_length World handlerInit pre st0);
      [|done]. by rewrite Nat.sub_diag. }
  destruct (initHandlers handlerInit st0 registry) as [st hs] eqn:Erun. simpl in *.
  split; [done|]. split; [done|]. split; [|split; [|split; [|split]]].
  - intros pre h post Hreg.
    destruct (Hsplit pre h post Hreg) as (Hstep & Hrest & Hat).
    rewrite Hstep.
    pose proof (initHandler_fate (fst (initHandlers handlerInit st0 pre)) h) as Hfate.
    simpl in Hfate.
    set (sth := fst (initHandlers handlerInit st0 pre)) in *.
    assert (Hskip : OMap.get (FormatHandler.name h) (bootCache sth) = None ->
              bootCache (fst (initHandler handlerInit sth h)) = bootCache sth ->
              (forall h', h' ∈ post -> FormatHandler.name h' <> FormatHandler.name h) ->
              OMap.get (FormatHandler.name h) (bootCache st) = None).
    { intros Hno Hsame Hother.
      destruct (OMap.get (FormatHandler.name h) (bootCache st)) as [fs|] eqn:Eget;
        [|done].
      rewrite Hrest in Eget.
      apply initHandlers_cache_names in Eget
        as [Eget|(pre' & h' & post' & -> & Hn & _)].
      - rewrite Hsame in Eget. congruence.
      - destruct (Hother h'); [|done]. apply elem_of_app. right. left. }
    destruct (fate handlerInit sth h) as [cached|fs| |].
    + destruct Hfate as [Hget Hinit]. rewrite Hrest, Hinit. simpl.
      by apply (initHandlers_cache_grows World handlerInit).
    + destruct Hfate as (Hno & Hc & Hr & Hh). split; [|split].
      * rewrite Hrest. apply (initHandlers_cache_grows World handlerInit).
        rewrite Hc. apply omap_get_set_eq.
      * by rewrite Hat, Hh.
      * intros f Hf. apply mergeFormats_covers. rewrite Hrest.
        apply initHandlers_raw_grows. rewrite Hr. apply elem_of_app. by right.
    + destruct Hfate as (Hno & Hc & Hr). split; [done|]. split; [done|]. by apply Hskip.
    + destruct Hfate as (Hno & Hc & Hr). split; [done|]. split; [done|]. by apply Hskip.
  - exact Horigin.
  - intros g Hg. apply mergeFormats_described in Hg as (f & Hf & Hd).
    destruct (Hcover f Hf) as (n & fs & Hn & Hin). by exists n, fs, f.
  - by rewrite Hraw.
  - intros Hall. destruct (Hnone Hall) as [-> ->].
    split; [done|]. split; [done|].
    intros ->. simpl in Esnap. by injection Esnap as <- <-.
Qed.

End BootstrapRun.

Lemma init_failure_excludes_handler_witness :
  let engine := snd (initializeEngine Sample.bootInit
                       [Sample.fresh "broken"; Sample.fresh "H2"] None []) in
  OMap.get "broken" (ConversionEngine.supportedFormatCache engine) = None
  /\ OMap.get "H2" (ConversionEngine.supportedFormatCache engine)
     = Some [Sample.svg; Sample.pdf; Sample.png]
  /\ ConversionEngine.supportedFormatCache
       (snd (initializeEngine Sample.bootInit
               [Sample.fresh "broken"; Sample.fresh "broken"] None []))
     = OMap.empty.
Proof.
  pose proof (init_failure_excludes_handler Sample.bootInit
                [Sample.fresh "broken"; Sample.fresh "H2"] None [])
    as (_ & _ & Hfate & _).
  pose proof (init_failure_excludes_handler Sample.bootInit
                [Sample.fresh "broken"; Sample.fresh "broken"] None [])
    as (_ & _ & _ & _ & _ & _ & Hnone).
  split; [|split].
  - apply (Hfate [] (Sample.fresh "broken") [Sample.fresh "H2"] eq_refl).
    intros h' Hh'. apply list_elem_of_singleton in Hh' as ->. discriminate.
  - apply (Hfate [Sample.fresh "broken"] (Sample.fresh "H2") [] eq_refl).
  - refine (proj1 (Hnone _)).
    intros pre h post fs Hreg.
    destruct pre as [|p1 [|p2 [|p3 pre]]]; simpl in Hreg; simplify_eq;
      intros Hf; vm_compute in Hf; discriminate Hf.
Defined.
